(** * sharedMaf: reader, in-memory model and writer for MAF files

    A shallow embedding of [src/include/sharedMaf.c].  C strings are Rocq
    [string]s (the bytes before the terminating NUL), a [char *] that may be
    [NULL] is an [option string], [uint32_t] and [unsigned] values are
    integers kept in the range [0, 2^32) by [u32], the [next]-linked lists of
    [mafLine_t] and [mafBlock_t] are Rocq lists in link order, and a call of
    [exit(EXIT_FAILURE)] is the [Exit] outcome. *)

From Stdlib Require Import ZArith List String Ascii Bool Lia.
From Stdlib Require DecimalString DecimalN.
Import ListNotations.

Local Open Scope string_scope.
Local Open Scope list_scope.
Local Open Scope Z_scope.

(** ** Outcomes of a C function *)

Inductive failure : Type :=
| PrematureEnd                              (* "Error, premature end to maf file" *)
| BadFormat (lineNumber : Z) (errorMessage : string)
                                            (* maf_failBadFormat *)
| NoValidHeader (filename : string).        (* "... does not contain a valid header!" *)

Inductive outcome (A : Type) : Type :=
| Ok (a : A)              (* the function returns [a] *)
| Exit (f : failure)      (* the process ends through exit(EXIT_FAILURE) *)
| Undefined.              (* the function leaves defined behaviour:
                             NULL dereference or access outside an allocation *)

Arguments Ok {A} a.
Arguments Exit {A} f.
Arguments Undefined {A}.

Definition bind {A B : Type} (c : outcome A) (k : A -> outcome B) : outcome B :=
  match c with
  | Ok a => k a
  | Exit f => Exit f
  | Undefined => Undefined
  end.

Notation "x <- c ;; k" := (bind c (fun x => k))
  (at level 61, c at next level, right associativity).
Notation "' p <- c ;; k" := (bind c (fun x => let 'p := x in k))
  (at level 61, p pattern, c at next level, right associativity).

(** ** Machine integers *)

Definition UINT32_MOD : Z := 2 ^ 32.
Definition ULONG_MAX : Z := 2 ^ 64 - 1.

(** Conversion to [uint32_t] / [unsigned]: reduction modulo 2^32. *)
Definition u32 (z : Z) : Z := z mod UINT32_MOD.

(** ** Characters and C library functions on strings *)

Definition NUL : ascii := "000"%char.
Definition TAB : ascii := "009"%char.

(** [isspace] in the C locale: space, and the controls 9 to 13. *)
Definition isspace (c : ascii) : bool :=
  let n := nat_of_ascii c in
  Nat.eqb n 32 || (Nat.leb 9 n && Nat.leb n 13).

Definition isdigit (c : ascii) : bool :=
  let n := nat_of_ascii c in
  Nat.leb 48 n && Nat.leb n 57.

(** [s[0]]: the first byte of a C string, the terminator for the empty one. *)
Definition first_char (s : string) : ascii :=
  match s with
  | EmptyString => NUL
  | String c _ => c
  end.

(** [strncmp(line, p, strlen(p)) == 0]. *)
Definition has_prefix (p line : string) : bool := String.prefix p line.

(** The delimiter set [" \t"] of every [strtok] call in the parser. *)
Definition is_delim (c : ascii) : bool :=
  Ascii.eqb c " " || Ascii.eqb c TAB.

Fixpoint skip_delims (s : string) : string :=
  match s with
  | EmptyString => EmptyString
  | String c r => if is_delim c then skip_delims r else s
  end.

(** The token at the head of [s] and what follows the delimiter that ended
    it (the position [strtok] saves for its next call). *)
Fixpoint take_token (s : string) : string * string :=
  match s with
  | EmptyString => (EmptyString, EmptyString)
  | String c r =>
      if is_delim c then (EmptyString, r)
      else let (t, rest) := take_token r in (String c t, rest)
  end.

(** [strtok] with its hidden position made explicit: [None] is the [NULL]
    result, [Some (tkn, rest)] the token and the saved position. *)
Definition strtok (s : string) : option (string * string) :=
  match skip_delims s with
  | EmptyString => None
  | s' => Some (take_token s')
  end.

Fixpoint skip_space (s : string) : string :=
  match s with
  | EmptyString => EmptyString
  | String c r => if isspace c then skip_space r else s
  end.

Definition digit_value (c : ascii) : Z := Z.of_nat (nat_of_ascii c) - 48.

Fixpoint digits_value (acc : Z) (s : string) : Z :=
  match s with
  | EmptyString => acc
  | String c r => if isdigit c then digits_value (10 * acc + digit_value c) r else acc
  end.

(** [strtoul(s, NULL, 10)] for a 64-bit [unsigned long]: optional white
    space, optional sign, the longest run of decimal digits; [0] when there
    is no digit, [ULONG_MAX] on overflow, negation modulo 2^64 after [-]. *)
Definition strtoul (s : string) : Z :=
  let s1 := skip_space s in
  let '(neg, s2) :=
    match s1 with
    | String "-" r => (true, r)
    | String "+" r => (false, r)
    | _ => (false, s1)
    end in
  let v := digits_value 0 s2 in
  if ULONG_MAX <? v then ULONG_MAX
  else if neg then (- v) mod (ULONG_MAX + 1) else v.

(** [maf_isBlankLine]: true when the line is only white space. *)
Fixpoint maf_isBlankLine (s : string) : bool :=
  match s with
  | EmptyString => true
  | String c r => if isspace c then maf_isBlankLine r else false
  end.

(** ** Data model *)

(** [struct mafLine]; the [next] pointer is the list the record sits in. *)
Record mafLine : Type := mkMafLine {
  ml_line : option string;       (* the entire line, unparsed *)
  ml_lineNumber : Z;             (* line number in the maf file *)
  ml_type : ascii;               (* a, s, i, q, e, h, f; h is header *)
  ml_species : option string;
  ml_start : Z;
  ml_length : Z;
  ml_strand : ascii;
  ml_sourceLength : Z;
  ml_sequence : option string
}.

(** [struct mafBlock]: [mb_lines] is the list from [headLine] to
    [tailLine]; [headLine == NULL] is [mb_lines = []]. *)
Record mafBlock : Type := mkMafBlock {
  mb_lines : list mafLine;
  mb_lineNumber : Z;
  mb_numberOfLines : Z;
  mb_numberOfSequences : Z
}.

(** A stream opened by [de_fopen]: the lines not read yet and the text
    written so far. *)
Record FILE : Type := mkFILE {
  f_unread : list string;
  f_written : string
}.

(** [struct mafFileApi]. *)
Record mafFileApi : Type := mkMfa {
  mfa_lineNumber : Z;            (* last read line / wrote *)
  mfa_mfp : option FILE;         (* maf file pointer, None once closed *)
  mfa_filename : string;
  mfa_lastLine : option string   (* the cached line after a header without blank line *)
}.

(** Modelled from the spec: [de_getline] is defined in common.c, outside
    sharedMaf.c.  The File Session holds a line-oriented handle over
    newline-terminated text: a call yields the next line without its
    terminator, or the status [-1] ([None]) at end of stream. *)
Definition de_getline (f : FILE) : option string * FILE :=
  match f_unread f with
  | [] => (None, f)
  | l :: rest => (Some l, mkFILE rest (f_written f))
  end.

(** [fprintf(f, "%s", text)]. *)
Definition fprintf (f : FILE) (text : string) : FILE :=
  mkFILE (f_unread f) (f_written f ++ text)%string.

Definition maf_newMafLine : mafLine :=
  mkMafLine None 0 NUL None 0 0 NUL 0 None.

Definition maf_newMafBlock : mafBlock :=
  mkMafBlock [] 0 0 0.

(** [maf_newMfa] for reading a file whose lines are [content]. *)
Definition maf_newMfa (filename : string) (content : list string) : mafFileApi :=
  mkMfa 0 (Some (mkFILE content "")) filename None.

(** ** Setters ([maf_mafLine_set...], [maf_mafBlock_set...]) *)

Definition maf_mafLine_setType (ml : mafLine) (c : ascii) : mafLine :=
  mkMafLine (ml_line ml) (ml_lineNumber ml) c (ml_species ml) (ml_start ml)
            (ml_length ml) (ml_strand ml) (ml_sourceLength ml) (ml_sequence ml).

Definition maf_mafLine_setSpecies (ml : mafLine) (s : option string) : mafLine :=
  mkMafLine (ml_line ml) (ml_lineNumber ml) (ml_type ml) s (ml_start ml)
            (ml_length ml) (ml_strand ml) (ml_sourceLength ml) (ml_sequence ml).

Definition maf_mafLine_setStrand (ml : mafLine) (c : ascii) : mafLine :=
  mkMafLine (ml_line ml) (ml_lineNumber ml) (ml_type ml) (ml_species ml) (ml_start ml)
            (ml_length ml) c (ml_sourceLength ml) (ml_sequence ml).

Definition maf_mafLine_setStart (ml : mafLine) (n : Z) : mafLine :=
  mkMafLine (ml_line ml) (ml_lineNumber ml) (ml_type ml) (ml_species ml) (u32 n)
            (ml_length ml) (ml_strand ml) (ml_sourceLength ml) (ml_sequence ml).

Definition maf_mafLine_setLength (ml : mafLine) (n : Z) : mafLine :=
  mkMafLine (ml_line ml) (ml_lineNumber ml) (ml_type ml) (ml_species ml) (ml_start ml)
            (u32 n) (ml_strand ml) (ml_sourceLength ml) (ml_sequence ml).

Definition maf_mafLine_setSourceLength (ml : mafLine) (n : Z) : mafLine :=
  mkMafLine (ml_line ml) (ml_lineNumber ml) (ml_type ml) (ml_species ml) (ml_start ml)
            (ml_length ml) (ml_strand ml) (u32 n) (ml_sequence ml).

Definition maf_mafLine_setSequence (ml : mafLine) (s : option string) : mafLine :=
  mkMafLine (ml_line ml) (ml_lineNumber ml) (ml_type ml) (ml_species ml) (ml_start ml)
            (ml_length ml) (ml_strand ml) (ml_sourceLength ml) s.

Definition maf_mafBlock_setLineNumber (mb : mafBlock) (n : Z) : mafBlock :=
  mkMafBlock (mb_lines mb) (u32 n) (mb_numberOfLines mb) (mb_numberOfSequences mb).

Definition is_seq (ml : mafLine) : bool := Ascii.eqb (ml_type ml) "s".

(** ** Line parser *)

(** One [strtok] call of the parser followed by its [NULL] test. *)
Definition next_field (pos : string) (lineNumber : Z) (errorMessage : string)
  : outcome (string * string) :=
  match strtok pos with
  | None => Exit (BadFormat lineNumber errorMessage)
  | Some r => Ok r
  end.

(** [maf_newMafLineFromString]. The message built with [sprintf] for a bad
    strand is the format with the first byte of the token at [%c]; the
    buffer of [kMaxStringLength] bytes it is built in (a constant of
    common.c) is taken to hold its 37 bytes. *)
Definition maf_newMafLineFromString (s : string) (lineNumber : Z) : outcome mafLine :=
  let ml := mkMafLine (Some s) lineNumber (first_char s) None 0 0 NUL 0 None in
  if negb (Ascii.eqb (ml_type ml) "s") then Ok ml
  else
    '(_, p) <- next_field s lineNumber
      "Unable to separate line on tabs and spaces at line definition field." ;;
    '(tkn, p) <- next_field p lineNumber
      "Unable to separate line on tabs and spaces at name field." ;;
    let ml := maf_mafLine_setSpecies ml (Some tkn) in
    '(tkn, p) <- next_field p lineNumber
      "Unable to separate line on tabs and spaces at start position field." ;;
    let ml := maf_mafLine_setStart ml (strtoul tkn) in
    '(tkn, p) <- next_field p lineNumber
      "Unable to separate line on tabs and spaces at length position field." ;;
    let ml := maf_mafLine_setLength ml (strtoul tkn) in
    '(tkn, p) <- next_field p lineNumber
      "Unable to separate line on tabs and spaces at strand field." ;;
    if negb (Ascii.eqb (first_char tkn) "-") && negb (Ascii.eqb (first_char tkn) "+")
    then Exit (BadFormat lineNumber
                 ("Strand must be either + or -, not " ++ String (first_char tkn) ".")%string)
    else
      let ml := maf_mafLine_setStrand ml (first_char tkn) in
      '(tkn, p) <- next_field p lineNumber
        "Unable to separate line on tabs and spaces at source length field." ;;
      let ml := maf_mafLine_setSourceLength ml (strtoul tkn) in
      '(tkn, p) <- next_field p lineNumber
        "Unable to separate line on tabs and spaces at sequence field." ;;
      Ok (maf_mafLine_setSequence ml (Some tkn)).

(** ** Block segmentation engine *)

(** A header line record: [maf_newMafLine] with [line], [type = 'h'] and
    [lineNumber] filled in. *)
Definition header_line (line : string) (lineNumber : Z) : mafLine :=
  mkMafLine (Some line) lineNumber "h" None 0 0 NUL 0 None.

(** The tail common to the three places where [maf_readBlockHeader] has
    linked a header line: read the next line, count it, copy the counter to
    the block, count the block's line, stop on a premature end. *)
Definition header_advance (unread : list string) (lineNumber : Z) (header : mafBlock)
  : outcome (list string * Z * mafBlock * string) :=
  match unread with
  | [] => Exit PrematureEnd
  | line :: rest =>
      let n := u32 (lineNumber + 1) in
      Ok (rest, n,
          mkMafBlock (mb_lines header) n (u32 (mb_numberOfLines header + 1))
                     (mb_numberOfSequences header),
          line)
  end.

Definition set_lines (mb : mafBlock) (ls : list mafLine) : mafBlock :=
  mkMafBlock ls (mb_lineNumber mb) (mb_numberOfLines mb) (mb_numberOfSequences mb).

(** The loop [while (line[0] != 'a' && !maf_isBlankLine(line))] of
    [maf_readBlockHeader]; [thisMl] is the last record of [header]. *)
Fixpoint header_loop (unread : list string) (lineNumber : Z) (header : mafBlock)
    (line : string) {struct unread} : outcome (list string * Z * mafBlock * string) :=
  if negb (Ascii.eqb (first_char line) "a") && negb (maf_isBlankLine line) then
    let ml := header_line line lineNumber in
    let header := set_lines header (mb_lines header ++ [ml]) in
    match unread with
    | [] => Exit PrematureEnd
    | line' :: rest =>
        let n := u32 (lineNumber + 1) in
        header_loop rest n
          (mkMafBlock (mb_lines header) n (u32 (mb_numberOfLines header + 1))
                      (mb_numberOfSequences header))
          line'
    end
  else Ok (unread, lineNumber, header, line).

(** [maf_readBlockHeader]. *)
Definition maf_readBlockHeader (mfa : mafFileApi) : outcome (mafBlock * mafFileApi) :=
  match mfa_mfp mfa with
  | None => Undefined
  | Some f =>
      let header := maf_newMafBlock in
      match f_unread f with
      | [] => Exit PrematureEnd
      | line :: unread =>
          let lineNumber := u32 (mfa_lineNumber mfa + 1) in
          let validHeader := false in
          '(unread, lineNumber, header, line, validHeader) <-
            (if has_prefix "track" line then
               (* possible first line of a maf *)
               let ml := header_line line lineNumber in
               let header := set_lines header [ml] in
               '(unread, lineNumber, header, line) <-
                 header_advance unread lineNumber header ;;
               Ok (unread, lineNumber, header, line, true)
             else Ok (unread, lineNumber, header, line, validHeader)) ;;
          '(unread, lineNumber, header, line, validHeader) <-
            (if has_prefix "##maf" line then
               (* possible first or second line of maf *)
               let ml := header_line line lineNumber in
               let header :=
                 match mb_lines header with
                 | [] => set_lines header [ml]
                 | headLine :: _ => set_lines header [headLine; ml]
                 end in
               '(unread, lineNumber, header, line) <-
                 header_advance unread lineNumber header ;;
               Ok (unread, lineNumber, header, line, true)
             else Ok (unread, lineNumber, header, line, validHeader)) ;;
          if negb validHeader then Exit (NoValidHeader (mfa_filename mfa))
          else
            '(unread, lineNumber, header, line) <-
              header_loop unread lineNumber header line ;;
            let lastLine :=
              if Ascii.eqb (first_char line) "a" then Some line
              else mfa_lastLine mfa in
            Ok (header,
                mkMfa lineNumber (Some (mkFILE unread (f_written f)))
                      (mfa_filename mfa) lastLine)
      end
  end.

(** Linking a parsed record at the tail of a body block, with the two
    counters of [maf_readBlockBody]. *)
Definition block_append (mb : mafBlock) (ml : mafLine) : mafBlock :=
  mkMafBlock (mb_lines mb ++ [ml]) (mb_lineNumber mb)
             (u32 (mb_numberOfLines mb + 1))
             (if is_seq ml then u32 (mb_numberOfSequences mb + 1)
              else mb_numberOfSequences mb).

(** The loop [while (de_getline(&line, &n, mfa->mfp) != -1)] of
    [maf_readBlockBody]. *)
Fixpoint body_loop (unread : list string) (lineNumber : Z) (thisBlock : mafBlock)
    {struct unread} : outcome (list string * Z * mafBlock) :=
  match unread with
  | [] => Ok ([], lineNumber, thisBlock)
  | line :: rest =>
      let n := u32 (lineNumber + 1) in
      if maf_isBlankLine line then
        match mb_lines thisBlock with
        | [] => body_loop rest n thisBlock      (* multiple blank lines in a row *)
        | _ :: _ => Ok (rest, n, thisBlock)     (* break *)
        end
      else
        match maf_newMafLineFromString line n with
        | Ok ml => body_loop rest n (block_append thisBlock ml)
        | Exit e => Exit e
        | Undefined => Undefined
        end
  end.

(** [maf_readBlockBody]. *)
Definition maf_readBlockBody (mfa : mafFileApi) : outcome (mafBlock * mafFileApi) :=
  thisBlock <-
    match mfa_lastLine mfa with
    | Some lastLine =>
        (* only when the header is not followed by a blank line *)
        ml <- maf_newMafLineFromString lastLine (mfa_lineNumber mfa) ;;
        Ok (set_lines (block_append maf_newMafBlock ml) [ml])
    | None => Ok maf_newMafBlock
    end ;;
  let thisBlock :=
    mkMafBlock (mb_lines thisBlock) (mfa_lineNumber mfa)
               (mb_numberOfLines thisBlock) (mb_numberOfSequences thisBlock) in
  match mfa_mfp mfa with
  | None => Undefined
  | Some f =>
      '(unread, lineNumber, thisBlock) <-
        body_loop (f_unread f) (mfa_lineNumber mfa) thisBlock ;;
      Ok (thisBlock,
          mkMfa lineNumber (Some (mkFILE unread (f_written f))) (mfa_filename mfa) None)
  end.

(** [maf_readBlock]: the next block, or [None] for the [NULL] that ends
    the file. *)
Definition maf_readBlock (mfa : mafFileApi) : outcome (option mafBlock * mafFileApi) :=
  if mfa_lineNumber mfa =? 0 then
    '(header, mfa) <- maf_readBlockHeader mfa ;;
    match mb_lines header with
    | _ :: _ => Ok (Some header, mfa)
    | [] => Ok (None, mfa)
    end
  else
    '(mb, mfa) <- maf_readBlockBody mfa ;;
    match mb_lines mb with
    | _ :: _ => Ok (Some mb, mfa)
    | [] => Ok (None, mfa)
    end.

(** What a read can still consume: the unread lines and the cached line. *)
Definition pending (mfa : mafFileApi) : nat :=
  (match mfa_mfp mfa with
   | Some f => List.length (f_unread f)
   | None => 0
   end
   + match mfa_lastLine mfa with
     | Some _ => 1
     | None => 0
     end)%nat.

(** The loop [while ((tmp = maf_readBlock(mfa)) != NULL)] of [maf_readAll];
    [mb] tells whether the pointer [mb] is non-NULL, the blocks linked so
    far being kept by the caller.  [fuel] bounds the number of iterations;
    [None] is a loop cut short by [fuel]. *)
Fixpoint readAll_loop (fuel : nat) (mfa : mafFileApi) (mb : bool)
  : option (outcome (list mafBlock * mafFileApi)) :=
  match fuel with
  | O => None
  | S fuel =>
      match maf_readBlock mfa with
      | Ok (None, mfa) => Some (Ok ([], mfa))
      | Ok (Some tmp, mfa) =>
          if mb then
            match readAll_loop fuel mfa true with
            | Some (Ok (rest, mfa)) => Some (Ok (tmp :: rest, mfa))
            | r => r
            end
          else Some Undefined                (* mb->next with mb == NULL *)
      | Exit e => Some (Exit e)
      | Undefined => Some Undefined
      end
  end.

(** [maf_readAll]: the list of the blocks of the file, header first.  Every
    block returned by [maf_readBlock] lowers [pending], so the loop ends
    within [S (pending mfa)] iterations (lemma [readAll_loop_enough]). *)
Definition maf_readAll (mfa : mafFileApi) : outcome (list mafBlock * mafFileApi) :=
  '(head, mfa) <- maf_readBlock mfa ;;
  match readAll_loop (S (pending mfa)) mfa
          (match head with Some _ => true | None => false end) with
  | Some r =>
      '(rest, mfa) <- r ;;
      Ok (match head with Some h => h :: rest | None => rest end, mfa)
  | None => Undefined
  end.

(** ** Writer *)

Definition LF : string := String "010" "".

(** The loop of [maf_writeBlock]: [fprintf(mfa->mfp, "%s\n", ml->line)]
    for each record. *)
Fixpoint write_lines (f : FILE) (lineNumber : Z) (ls : list mafLine)
  : outcome (FILE * Z) :=
  match ls with
  | [] => Ok (f, lineNumber)
  | ml :: rest =>
      match ml_line ml with
      | None => Undefined
      | Some raw => write_lines (fprintf f (raw ++ LF)%string) (u32 (lineNumber + 1)) rest
      end
  end.

(** [maf_writeBlock]. *)
Definition maf_writeBlock (mfa : mafFileApi) (mb : mafBlock) : outcome mafFileApi :=
  match mfa_mfp mfa with
  | None => Undefined
  | Some f =>
      '(f, lineNumber) <- write_lines f (mfa_lineNumber mfa) (mb_lines mb) ;;
      Ok (mkMfa (u32 (lineNumber + 1)) (Some (fprintf f LF))
                (mfa_filename mfa) (mfa_lastLine mfa))
  end.

Fixpoint write_blocks (mfa : mafFileApi) (mbs : list mafBlock) : outcome mafFileApi :=
  match mbs with
  | [] => Ok mfa
  | mb :: rest => mfa <- maf_writeBlock mfa mb ;; write_blocks mfa rest
  end.

(** [maf_writeAll]: the session after the call, its stream closed, and the
    stream as [fclose] left it. *)
Definition maf_writeAll (mfa : mafFileApi) (mb : list mafBlock)
  : outcome (mafFileApi * FILE) :=
  mfa <- write_blocks mfa mb ;;
  match mfa_mfp mfa with
  | None => Undefined
  | Some f =>
      let f := fprintf f LF in
      Ok (mkMfa (u32 (mfa_lineNumber mfa + 1)) None (mfa_filename mfa) (mfa_lastLine mfa), f)
  end.

(** [maf_newMfa] for writing: an empty stream. *)
Definition maf_newMfa_w (filename : string) : mafFileApi :=
  mkMfa 0 (Some (mkFILE [] "")) filename None.

(** ** Derived view builders *)

(** An allocated array, cell by cell: [None] is a cell that has not been
    written. *)
Definition buffer (A : Type) : Type := list (option A).

(** Modelled from the spec: [de_malloc] is defined in common.c, outside
    sharedMaf.c.  It is the allocation helper of the builders, each of
    which allocates a fresh result: a call returns a new array of the
    requested number of cells, none of them written. *)
Definition de_malloc {A : Type} (cells : Z) : buffer A :=
  repeat None (Z.to_nat cells).

(** [a[i] = v]; outside the allocation the behaviour is undefined. *)
Definition store {A : Type} (a : buffer A) (i : Z) (v : A) : outcome (buffer A) :=
  if (0 <=? i) && (i <? Z.of_nat (List.length a)) then
    Ok (firstn (Z.to_nat i) a ++ Some v :: skipn (S (Z.to_nat i)) a)
  else Undefined.

(** The loop shared by the array builders:
    [while (ml != NULL) { if (ml->type == 's') a[i++] = val(ml); ml = ml->next; }] *)
Fixpoint fill_seq {A : Type} (val : mafLine -> A) (ls : list mafLine) (i : Z)
    (a : buffer A) : outcome (Z * buffer A) :=
  match ls with
  | [] => Ok (i, a)
  | ml :: rest =>
      if is_seq ml then
        a <- store a i (val ml) ;;
        fill_seq val rest (u32 (i + 1)) a
      else fill_seq val rest i a
  end.

(** [maf_mafBlock_getStrandArray]; [Ok None] is the [NULL] result. *)
Definition maf_mafBlock_getStrandArray (mb : mafBlock) : outcome (option (buffer ascii)) :=
  if mb_numberOfSequences mb =? 0 then Ok None
  else
    let a := de_malloc (u32 (mb_numberOfSequences mb + 1)) in
    '(i, a) <- fill_seq ml_strand (mb_lines mb) 0 a ;;
    a <- store a i NUL ;;
    Ok (Some a).

(** [maf_mafBlock_getMafLineArray_seqOnly]; a cell holds the record the
    stored pointer refers to. *)
Definition maf_mafBlock_getMafLineArray_seqOnly (mb : mafBlock)
  : outcome (option (buffer mafLine)) :=
  if mb_numberOfSequences mb =? 0 then Ok None
  else
    let a := de_malloc (mb_numberOfSequences mb) in
    '(_, a) <- fill_seq (fun ml => ml) (mb_lines mb) 0 a ;;
    Ok (Some a).

(** [strncpy(dst, src, m)]: the first [m] bytes of [src], NUL-padded to
    [m] bytes when [src] is shorter. *)
Fixpoint strncpy (src : string) (m : nat) : list ascii :=
  match m with
  | O => []
  | S m' =>
      match src with
      | EmptyString => NUL :: strncpy EmptyString m'
      | String c r => c :: strncpy r m'
      end
  end.

(** [strncpy(matrix[i], seq, m); matrix[i][m] = '\0';] on a matrix of rows
    of [u32 (m + 1)] bytes. *)
Definition store_row (matrix : list (buffer ascii)) (i : Z) (seq : string) (m : Z)
  : outcome (list (buffer ascii)) :=
  if (0 <=? i) && (i <? Z.of_nat (List.length matrix)) then
    if u32 (m + 1) =? m + 1 then
      Ok (firstn (Z.to_nat i) matrix
          ++ (map Some (strncpy seq (Z.to_nat m)) ++ [Some NUL])
          :: skipn (S (Z.to_nat i)) matrix)
    else Undefined
  else Undefined.

(** The loops of [maf_mafBlock_getSequenceMatrix].  The outer loop tests
    [ml != NULL]; the inner loop [while (maf_mafLine_getType(ml) != 's')]
    reads [ml] without that test.  [inner] tells which of the two tests the
    walk has reached: after a line that is not an [s] line it is the inner
    one, and the end of the list is then a NULL dereference. *)
Fixpoint matrix_loop (inner : bool) (ls : list mafLine) (i m : Z)
    (matrix : list (buffer ascii)) : outcome (list (buffer ascii)) :=
  match ls with
  | [] => if inner then Undefined else Ok matrix
  | ml :: rest =>
      if negb (is_seq ml) then matrix_loop true rest i m matrix
      else
        match ml_sequence ml with
        | None => Undefined
        | Some seq =>
            matrix <- store_row matrix i seq m ;;
            matrix_loop false rest (u32 (i + 1)) m matrix
        end
  end.

(** [maf_mafBlock_getSequenceMatrix]. *)
Definition maf_mafBlock_getSequenceMatrix (mb : mafBlock) (n m : Z)
  : outcome (list (buffer ascii)) :=
  let matrix := repeat (de_malloc (u32 (m + 1))) (Z.to_nat n) in
  matrix_loop false (mb_lines mb) 0 m matrix.

(** [maf_mafLine_getPositiveCoord]. *)
Definition maf_mafLine_getPositiveCoord (ml : mafLine) : Z :=
  if Ascii.eqb (ml_strand ml) "+" then ml_start ml
  else u32 (ml_sourceLength ml - u32 (ml_start ml + 1)).

(** [maf_mafLine_getPositiveLeftCoord]. *)
Definition maf_mafLine_getPositiveLeftCoord (ml : mafLine) : Z :=
  if Ascii.eqb (ml_strand ml) "+" then ml_start ml
  else u32 (ml_sourceLength ml - u32 (ml_start ml + ml_length ml)).

(** ** Further builders, counts and printing *)

(** [maf_mafBlock_getStrandIntArray]: 1 for [+], -1 for anything else. *)
Definition maf_mafBlock_getStrandIntArray (mb : mafBlock) : outcome (buffer Z) :=
  let a := de_malloc (mb_numberOfSequences mb) in
  '(_, a) <- fill_seq (fun ml => if Ascii.eqb (ml_strand ml) "+" then 1 else -1)
               (mb_lines mb) 0 a ;;
  Ok a.

(** [maf_mafBlock_getStartArray]. *)
Definition maf_mafBlock_getStartArray (mb : mafBlock) : outcome (buffer Z) :=
  let a := de_malloc (mb_numberOfSequences mb) in
  '(_, a) <- fill_seq ml_start (mb_lines mb) 0 a ;;
  Ok a.

(** [maf_mafBlock_getPosCoordStartArray]. *)
Definition maf_mafBlock_getPosCoordStartArray (mb : mafBlock) : outcome (buffer Z) :=
  let a := de_malloc (mb_numberOfSequences mb) in
  '(_, a) <- fill_seq (fun ml => if Ascii.eqb (ml_strand ml) "+" then ml_start ml
                                 else u32 (u32 (ml_sourceLength ml - ml_start ml) - 1))
               (mb_lines mb) 0 a ;;
  Ok a.

(** [maf_mafBlock_getPosCoordLeftArray]. *)
Definition maf_mafBlock_getPosCoordLeftArray (mb : mafBlock) : outcome (buffer Z) :=
  let a := de_malloc (mb_numberOfSequences mb) in
  '(_, a) <- fill_seq (fun ml => if Ascii.eqb (ml_strand ml) "+" then ml_start ml
                                 else u32 (ml_sourceLength ml
                                           - u32 (ml_start ml + ml_length ml)))
               (mb_lines mb) 0 a ;;
  Ok a.

(** [maf_mafBlock_getSourceLengthArray]. *)
Definition maf_mafBlock_getSourceLengthArray (mb : mafBlock) : outcome (buffer Z) :=
  let a := de_malloc (mb_numberOfSequences mb) in
  '(_, a) <- fill_seq ml_sourceLength (mb_lines mb) 0 a ;;
  Ok a.

(** [maf_mafBlock_getSequenceLengthArray]. *)
Definition maf_mafBlock_getSequenceLengthArray (mb : mafBlock) : outcome (buffer Z) :=
  let a := de_malloc (mb_numberOfSequences mb) in
  '(_, a) <- fill_seq ml_length (mb_lines mb) 0 a ;;
  Ok a.

(** The loop of [maf_mafBlock_getSpeciesArray]:
    [if (ml->type == 's') m[i++] = de_strdup(ml->species);].
    Modelled from the spec: [de_strdup] is defined in common.c, outside
    sharedMaf.c; the builder stores a fresh copy of each species name, so the
    call returns the string it is given, and has no defined result on
    [NULL]. *)
Fixpoint fill_species (ls : list mafLine) (i : Z) (m : buffer string)
  : outcome (Z * buffer string) :=
  match ls with
  | [] => Ok (i, m)
  | ml :: rest =>
      if is_seq ml then
        match ml_species ml with
        | None => Undefined
        | Some species =>
            m <- store m i species ;;
            fill_species rest (u32 (i + 1)) m
        end
      else fill_species rest i m
  end.

(** [maf_mafBlock_getSpeciesArray]. *)
Definition maf_mafBlock_getSpeciesArray (mb : mafBlock) : outcome (buffer string) :=
  let m := de_malloc (mb_numberOfSequences mb) in
  '(_, m) <- fill_species (mb_lines mb) 0 m ;;
  Ok m.

(** The loop of [maf_mafLine_getNumberOfSequences], [s] being the count so
    far. *)
Fixpoint count_sequences (ls : list mafLine) (s : Z) : Z :=
  match ls with
  | [] => s
  | ml :: rest => count_sequences rest (if is_seq ml then u32 (s + 1) else s)
  end.

(** [maf_mafLine_getNumberOfSequences]. *)
Definition maf_mafLine_getNumberOfSequences (ml : list mafLine) : Z :=
  count_sequences ml 0.

(** [maf_mafBlock_containsSequence]. *)
Definition maf_mafBlock_containsSequence (mb : mafBlock) : bool :=
  0 <? mb_numberOfSequences mb.

(** [umax]. *)
Definition umax (a b : Z) : Z := if b <? a then a else b.

(** [strlen] passed as the [unsigned] argument of [umax]. *)
Definition strlen_unsigned (s : string) : Z := u32 (Z.of_nat (String.length s)).

(** The loop [while ((ml = maf_mafLine_getNext(ml)) != NULL)] of
    [maf_mafBlock_longestSequenceField]. *)
Fixpoint longest_loop (ls : list mafLine) (m : Z) : outcome Z :=
  match ls with
  | [] => Ok m
  | ml :: rest =>
      if is_seq ml then
        match ml_sequence ml with
        | None => Undefined
        | Some seq => longest_loop rest (umax m (strlen_unsigned seq))
        end
      else longest_loop rest m
  end.

(** [maf_mafBlock_longestSequenceField]: the head record is read before
    any test of the pointer. *)
Definition maf_mafBlock_longestSequenceField (b : mafBlock) : outcome Z :=
  match mb_lines b with
  | [] => Undefined
  | ml :: rest =>
      m <- (if is_seq ml then
              match ml_sequence ml with
              | None => Undefined
              | Some seq => Ok (umax 0 (strlen_unsigned seq))
              end
            else Ok 0) ;;
      longest_loop rest m
  end.

(** The loop of [maf_mafBlock_print], [out] being what standard output
    holds. *)
Fixpoint print_lines (out : string) (ls : list mafLine) : outcome string :=
  match ls with
  | [] => Ok out
  | ml :: rest =>
      match ml_line ml with
      | None => Undefined
      | Some raw => print_lines (out ++ raw ++ LF)%string rest
      end
  end.

(** [maf_mafBlock_print]: standard output after the call. *)
Definition maf_mafBlock_print (out : string) (m : mafBlock) : outcome string :=
  out <- print_lines out (mb_lines m) ;;
  Ok (out ++ LF)%string.

(** [maf_mafBlock_setNumberOfSequences]. *)
Definition maf_mafBlock_setNumberOfSequences (mb : mafBlock) (n : Z) : mafBlock :=
  mkMafBlock (mb_lines mb) (mb_lineNumber mb) (mb_numberOfLines mb) (u32 n).

(** The loop of [maf_mafBlock_getNumberOfBlocks], [n] being the count so
    far. *)
Fixpoint count_blocks (b : list mafBlock) (n : Z) : Z :=
  match b with
  | [] => n
  | _ :: rest => count_blocks rest (u32 (n + 1))
  end.

(** [maf_mafBlock_getNumberOfBlocks]. *)
Definition maf_mafBlock_getNumberOfBlocks (b : list mafBlock) : Z :=
  count_blocks b 0.

(** * Notions used in the statements *)

(** The [k]-th field (from 0, the line definition field) that the
    successive [strtok] calls of the parser see. *)
Fixpoint nth_field (k : nat) (pos : string) : option string :=
  match strtok pos with
  | None => None
  | Some (tkn, rest) =>
      match k with
      | O => Some tkn
      | S k' => nth_field k' rest
      end
  end.

Definition strand_field (s : string) : option string := nth_field 4 s.

Definition renumber (ml : mafLine) (n : Z) : mafLine :=
  mkMafLine (ml_line ml) n (ml_type ml) (ml_species ml) (ml_start ml)
            (ml_length ml) (ml_strand ml) (ml_sourceLength ml) (ml_sequence ml).

(** The stored fields of a record are [uint32_t] values. *)
Definition fields_in_range (ml : mafLine) : Prop :=
  0 <= ml_start ml < UINT32_MOD /\
  0 <= ml_length ml < UINT32_MOD /\
  0 <= ml_sourceLength ml < UINT32_MOD.

(** The test that ends the header loop: the line starts an alignment block
    or is blank. *)
Definition header_stop (line : string) : bool :=
  Ascii.eqb (first_char line) "a" || maf_isBlankLine line.

Definition valid_first (line : string) : Prop :=
  has_prefix "track" line = true \/ has_prefix "##maf" line = true.

(** The line counter after [k] more lines. *)
Fixpoint bump (n : Z) (k : nat) : Z :=
  match k with
  | O => n
  | S k' => bump (u32 (n + 1)) k'
  end.

(** Header records for consecutive lines, the first one read as line [n]. *)
Fixpoint header_lines (n : Z) (ls : list string) : list mafLine :=
  match ls with
  | [] => []
  | l :: rest => header_line l n :: header_lines (u32 (n + 1)) rest
  end.

Definition raws (mb : mafBlock) : list (option string) := map ml_line (mb_lines mb).

(** A line the parser accepts (the line number plays no part in that). *)
Definition line_ok (l : string) : bool :=
  match maf_newMafLineFromString l 0 with
  | Ok _ => true
  | _ => false
  end.

(** The record of a line that parses. *)
Definition parsed (l : string) (n : Z) : mafLine :=
  match maf_newMafLineFromString l n with
  | Ok ml => ml
  | _ => maf_newMafLine
  end.

(** A body line: not blank, and accepted by the parser. *)
Definition body_line (l : string) : Prop :=
  maf_isBlankLine l = false /\ line_ok l = true.

Definition blank (l : string) : Prop := maf_isBlankLine l = true.

(** Records of consecutive body lines read after line [n]. *)
Fixpoint body_records (n : Z) (ls : list string) : list mafLine :=
  match ls with
  | [] => []
  | l :: rest => parsed l (u32 (n + 1)) :: body_records (u32 (n + 1)) rest
  end.

Definition extend (mb : mafBlock) (mls : list mafLine) : mafBlock :=
  fold_left block_append mls mb.

(** What may follow the lines of a block: the end of the stream, or a
    blank line. *)
Definition block_end (tail : list string) : Prop :=
  match tail with
  | [] => True
  | sep :: _ => blank sep
  end.

(** The stream after the block and its ending line, and the number of
    lines the ending takes. *)
Definition after_end (tail : list string) : list string := List.tl tail.
Definition end_length (tail : list string) : nat :=
  match tail with
  | [] => 0
  | _ :: _ => 1
  end.

Definition seq_lines (mb : mafBlock) : list mafLine := filter is_seq (mb_lines mb).

(** The count kept in the block is the number of its [s] records, and an
    array of that many cells and one more can be requested. *)
Definition counted (mb : mafBlock) : Prop :=
  mb_numberOfSequences mb = Z.of_nat (List.length (seq_lines mb))
  /\ mb_numberOfSequences mb + 1 < UINT32_MOD.

(** A row as the builder leaves it: [m] bytes from [strncpy] and the NUL
    stored at index [m]. *)
Definition matrix_row (m : Z) (ml : mafLine) : buffer ascii :=
  match ml_sequence ml with
  | Some seq => map Some (strncpy seq (Z.to_nat m)) ++ [Some NUL]
  | None => []
  end.

(** The text of a body section, read from a block boundary on, and the
    lines of its blocks: blank lines, then either nothing more, or a last
    block that runs to the end of the text, or a block, the blank line
    that ends it, and the rest of the section. *)
Inductive body_text : list string -> list (list string) -> Prop :=
| body_text_end (gap : list string) :
    Forall blank gap -> body_text gap []
| body_text_last (gap b : list string) :
    Forall blank gap -> Forall body_line b -> b <> [] ->
    body_text (gap ++ b) [b]
| body_text_block (gap b : list string) (sep : string) (rest : list string)
    (bs : list (list string)) :
    Forall blank gap -> Forall body_line b -> b <> [] -> blank sep ->
    body_text rest bs ->
    body_text (gap ++ b ++ sep :: rest) (b :: bs).

(** A well-formed file and the lines of its blocks, header first: a
    first line with one of the two markers, further header lines, then
    either a blank line and the body section, or a body section that
    starts at once with a line beginning with [a]. *)
Inductive maf_text : list string -> list (list string) -> Prop :=
| maf_text_separated (l1 : string) (hs : list string) (sep : string)
    (rest : list string) (bs : list (list string)) :
    valid_first l1 -> Forall (fun l => header_stop l = false) hs ->
    blank sep -> body_text rest bs ->
    maf_text ((l1 :: hs) ++ sep :: rest) ((l1 :: hs) :: bs)
| maf_text_adjacent (l1 : string) (hs : list string) (a : string)
    (rest : list string) (bs : list (list string)) :
    valid_first l1 -> Forall (fun l => header_stop l = false) hs ->
    first_char a = "a"%char -> body_text (a :: rest) bs ->
    maf_text ((l1 :: hs) ++ a :: rest) ((l1 :: hs) :: bs).

(** Lines as text: each line followed by the line terminator. *)
Fixpoint unlines (ls : list string) : string :=
  match ls with
  | [] => ""
  | l :: rest => (l ++ LF ++ unlines rest)%string
  end.

(** The lines the writer is to produce for blocks with the lines [bs]:
    each block followed by an empty line, and one more empty line. *)
Definition written_lines (bs : list (list string)) : list string :=
  flat_map (fun b => b ++ [""]) bs ++ [""].

(** The message of the parser for a missing field, by field index. *)
Definition missing_field_message (k : nat) : string :=
  match k with
  | 0%nat => "Unable to separate line on tabs and spaces at line definition field."
  | 1%nat => "Unable to separate line on tabs and spaces at name field."
  | 2%nat => "Unable to separate line on tabs and spaces at start position field."
  | 3%nat => "Unable to separate line on tabs and spaces at length position field."
  | 4%nat => "Unable to separate line on tabs and spaces at strand field."
  | 5%nat => "Unable to separate line on tabs and spaces at source length field."
  | _ => "Unable to separate line on tabs and spaces at sequence field."
  end.

Definition strand_char_ok (tkn : string) : Prop :=
  first_char tkn = "+"%char \/ first_char tkn = "-"%char.

(** A record as the header read builds it. *)
Definition header_record (ml : mafLine) : Prop :=
  exists line n, ml = header_line line n.

(** The record holds the text of the line of [content] that its line
    number names, lines being numbered from 1. *)
Definition located (content : list string) (ml : mafLine) : Prop :=
  exists l,
    ml_line ml = Some l /\ 1 <= ml_lineNumber ml
    /\ nth_error content (Z.to_nat (ml_lineNumber ml - 1)) = Some l.

(** The session has read the lines [pre] of [content] and no others: its
    counter is their number, its stream holds the rest, and a cached line
    is the last line read. *)
Definition session_at (content : list string) (mfa : mafFileApi) : Prop :=
  exists pre f,
    mfa_mfp mfa = Some f /\ content = pre ++ f_unread f
    /\ mfa_lineNumber mfa = Z.of_nat (List.length pre)
    /\ (forall l, mfa_lastLine mfa = Some l -> exists pre0, pre = pre0 ++ [l]).

(** What the builders need of an [s] record, and what the parser gives
    it: a strand that is [+] or [-], a species, a sequence, and numeric
    fields in the [uint32_t] range. *)
Definition sequence_record (ml : mafLine) : Prop :=
  (ml_strand ml = "+"%char \/ ml_strand ml = "-"%char)
  /\ ml_species ml <> None /\ ml_sequence ml <> None
  /\ fields_in_range ml.

(** The species name of a record that has one. *)
Definition species_name (ml : mafLine) : string :=
  match ml_species ml with Some s => s | None => "" end.

(** The length of the sequence field of a record. *)
Definition seq_length (ml : mafLine) : Z :=
  match ml_sequence ml with Some seq => Z.of_nat (String.length seq) | None => 0 end.

(** The length of the longest sequence field among the [s] records. *)
Definition longest (ls : list mafLine) : Z :=
  fold_right Z.max 0 (map seq_length (filter is_seq ls)).

(** Every [s] record carries a sequence, of fewer than [bound] bytes. *)
Definition sequences_below (bound : Z) (ls : list mafLine) : Prop :=
  Forall (fun ml => is_seq ml = true ->
                    exists seq, ml_sequence ml = Some seq
                                /\ Z.of_nat (String.length seq) < bound) ls.

(** A row of [m + 1] bytes that holds a whole sequence: its bytes, NUL up
    to index [m], and the terminator. *)
Definition whole_row (m : Z) (ml : mafLine) : buffer ascii :=
  match ml_sequence ml with
  | Some seq =>
      map Some (list_ascii_of_string seq
                ++ repeat NUL (Z.to_nat m - String.length seq))
      ++ [Some NUL]
  | None => []
  end.

(** A block as the builders expect it: it has records, its two counts are
    the numbers of its records and of its [s] records, an array of one
    more cell than the latter can be requested, and every [s] record is a
    sequence record. *)
Definition well_formed_block (mb : mafBlock) : Prop :=
  mb_lines mb <> []
  /\ mb_numberOfLines mb = Z.of_nat (List.length (mb_lines mb))
  /\ counted mb
  /\ Forall (fun ml => is_seq ml = true -> sequence_record ml) (mb_lines mb).

(** The number of records of a list of blocks. *)
Definition total_records (blocks : list mafBlock) : nat :=
  List.length (flat_map mb_lines blocks).

(** A field as [strtok] sees it: at least one byte, none of them a
    delimiter. *)
Definition is_token (t : string) : bool :=
  negb (String.eqb t "")
  && forallb (fun c => negb (is_delim c)) (list_ascii_of_string t).

(** What separates two fields: at least one delimiter, and delimiters
    only. *)
Definition is_gap (d : string) : bool :=
  negb (String.eqb d "") && forallb is_delim (list_ascii_of_string d).

(** What may follow the last field: nothing, or a delimiter and anything
    after it. *)
Definition ends_fields (tail : string) : bool :=
  match tail with
  | EmptyString => true
  | String c _ => is_delim c
  end.


(** ** Sample files and blocks *)

Definition minus_strand_example : mafLine :=
  mkMafLine (Some "s hg18 10 5 - 100 ACGTA") 1 "s" (Some "hg18") 10 5 "-" 100
            (Some "ACGTA").

Definition sample_lookahead_file : list string :=
  ["##maf version=1 scoring=none"; "# a comment of the header";
   "a score=23262.0"; "s hg18.chr7 27578828 38 + 158545518 AAA-GGG";
   "s panTro1.chr6 28741140 38 - 161576975 AAA-GGG"; "";
   "a score=5062.0"; "s hg18.chr7 27699739 6 + 158545518 TAAAGA"].

Definition sample_three_blanks : list string :=
  ["a score=1.0"; "s hg18.chr7 10 5 + 100 ACGTA"; "s mm4.chr6 10 5 - 100 ACGTA";
   ""; "  "; "";
   "a score=2.0"; "s hg18.chr7 20 3 + 100 ACG"; "";
   "a score=3.0"].

Definition sample_track_then_a : list string :=
  ["track name=euArchontoglires"; "a score=1.0"; "s hg18.chr7 10 5 + 100 ACGTA"].

Definition sample_track_then_blank : list string :=
  ["track name=euArchontoglires"; ""; "a score=1.0"; "s hg18.chr7 10 5 + 100 ACGTA"].

Definition sample_blank_separated : list string :=
  ["##maf version=1 scoring=none"; "";
   "a score=1.0"; "s hg18.chr7 10 5 + 100 ACGTA"; ""; "";
   "a score=2.0"; "s hg18.chr7 20 3 + 100 ACG"; "i hg18.chr7 N 0 C 0"; ""].

Definition sample_block : mafBlock :=
  mkMafBlock
    [mkMafLine (Some "a score=1.0") 3 "a" None 0 0 NUL 0 None;
     mkMafLine (Some "s hg18.chr7 10 5 + 100 ACGTA") 4 "s" (Some "hg18.chr7")
               10 5 "+" 100 (Some "ACGTA");
     mkMafLine (Some "i hg18.chr7 N 0 C 0") 5 "i" None 0 0 NUL 0 None;
     mkMafLine (Some "s mm4.chr6 10 5 - 100 AC-TA") 6 "s" (Some "mm4.chr6")
               10 5 "-" 100 (Some "AC-TA")]
    2 4 2.

Definition sample_block_ends_with_i : mafBlock :=
  mkMafBlock
    [mkMafLine (Some "a score=1.0") 3 "a" None 0 0 NUL 0 None;
     mkMafLine (Some "s hg18.chr7 10 5 + 100 ACGTA") 4 "s" (Some "hg18.chr7")
               10 5 "+" 100 (Some "ACGTA");
     mkMafLine (Some "i hg18.chr7 N 0 C 0") 5 "i" None 0 0 NUL 0 None]
    2 3 1.

Definition sample_file : list string :=
  ["track name=euArc visibility=pack"; "##maf version=1 scoring=tba.v8";
   "# tba.v8 (((human chimp) baboon) (mouse rat))";
   "a score=23262.0"; "s hg18.chr7 27578828 38 + 158545518 AAA-GGG";
   "s panTro1.chr6 28741140 38 - 161576975 AAA-GGG"; ""; " "; "";
   "a score=5062.0"; "s hg18.chr7 27699739 6 + 158545518 TAAAGA";
   "i hg18.chr7 N 0 C 0"].

Definition sample_file_blocks : list (list string) :=
  [["track name=euArc visibility=pack"; "##maf version=1 scoring=tba.v8";
    "# tba.v8 (((human chimp) baboon) (mouse rat))"];
   ["a score=23262.0"; "s hg18.chr7 27578828 38 + 158545518 AAA-GGG";
    "s panTro1.chr6 28741140 38 - 161576975 AAA-GGG"];
   ["a score=5062.0"; "s hg18.chr7 27699739 6 + 158545518 TAAAGA";
    "i hg18.chr7 N 0 C 0"]].

Definition sample_file_read : outcome (list mafBlock * mafFileApi) :=
  Eval vm_compute in maf_readAll (maf_newMfa "in.maf" sample_file).

(** The sample block with a sequence count that is one too small. *)
Definition sample_block_undercounted : mafBlock :=
  maf_mafBlock_setNumberOfSequences sample_block 1.

(** The sample block after its first sequence record was moved to start
    11 through the setter. *)
Definition sample_block_edited : mafBlock :=
  set_lines sample_block
    (map (fun ml => if is_seq ml then maf_mafLine_setStart ml 11 else ml)
         (mb_lines sample_block)).

(** * Properties *)

(** ** Machine integers *)

Lemma u32_small (z : Z) : 0 <= z < UINT32_MOD -> u32 z = z.
Proof. unfold u32. intros H. apply Z.mod_small. exact H. Qed.

Lemma u32_sub_idem (a b : Z) : u32 (a - u32 b) = u32 (a - b).
Proof. unfold u32. apply Zminus_mod_idemp_r. Qed.

(** ** Line parser *)

Ltac split_fields :=
  unfold next_field in *;
  repeat match goal with
         | |- context [match strtok ?p with _ => _ end] =>
             destruct (strtok p) as [[? ?]|]; cbn [bind] in *
         | H : context [match strtok ?p with _ => _ end] |- _ =>
             destruct (strtok p) as [[? ?]|]; cbn [bind] in *
         end.

Lemma parse_not_s (s : string) (n : Z) :
  Ascii.eqb (first_char s) "s" = false ->
  maf_newMafLineFromString s n
  = Ok (mkMafLine (Some s) n (first_char s) None 0 0 NUL 0 None).
Proof.
  intros H. unfold maf_newMafLineFromString. cbn [ml_type]. rewrite H. reflexivity.
Qed.

Lemma parse_never_undefined (s : string) (n : Z) :
  maf_newMafLineFromString s n <> Undefined.
Proof.
  unfold maf_newMafLineFromString. cbn [ml_type].
  destruct (negb (Ascii.eqb (first_char s) "s")); [discriminate|].
  split_fields; try discriminate;
    destruct (negb _ && negb _); discriminate.
Qed.

Lemma parse_ok_shape (s : string) (n : Z) (ml : mafLine) :
  maf_newMafLineFromString s n = Ok ml ->
  ml_line ml = Some s /\ ml_lineNumber ml = n /\ ml_type ml = first_char s.
Proof.
  unfold maf_newMafLineFromString. cbn [ml_type].
  destruct (negb (Ascii.eqb (first_char s) "s")).
  - intros H; inversion H; subst; cbn; auto.
  - intros H. split_fields; try discriminate;
      destruct (negb _ && negb _); try discriminate;
      inversion H; subst; cbn; auto.
Qed.

Lemma parse_renumber (s : string) (n n' : Z) (ml : mafLine) :
  maf_newMafLineFromString s n = Ok ml ->
  maf_newMafLineFromString s n' = Ok (renumber ml n').
Proof.
  unfold maf_newMafLineFromString. cbn [ml_type].
  destruct (negb (Ascii.eqb (first_char s) "s")).
  - intros H; inversion H; subst; reflexivity.
  - intros H. split_fields; try discriminate;
      destruct (negb _ && negb _); try discriminate;
      inversion H; subst; reflexivity.
Qed.

Example parse_s_line :
  maf_newMafLineFromString "s hg18.chr7  27578828 38 + 158545518 AAA-GGGAAT" 7
  = Ok (mkMafLine (Some "s hg18.chr7  27578828 38 + 158545518 AAA-GGGAAT") 7 "s"
          (Some "hg18.chr7") 27578828 38 "+" 158545518 (Some "AAA-GGGAAT")).
Proof. vm_compute. reflexivity. Qed.

Example parse_s_line_four_fields :
  maf_newMafLineFromString "s hg18.chr7 27578828 38 +" 12
  = Exit (BadFormat 12
            "Unable to separate line on tabs and spaces at source length field.").
Proof. vm_compute. reflexivity. Qed.

(** C5, as stated, fails: the strand field [+-] is not the one-character
    token [+] nor [-], and the line is parsed, with strand [+]. *)
Lemma strand_longer_token_accepted :
  strand_field "s hg18 10 5 +- 100 ACGTA" = Some "+-" /\
  "+-" <> "+" /\ "+-" <> "-" /\
  maf_newMafLineFromString "s hg18 10 5 +- 100 ACGTA" 3
  = Ok (mkMafLine (Some "s hg18 10 5 +- 100 ACGTA") 3 "s"
          (Some "hg18") 10 5 "+" 100 (Some "ACGTA")).
Proof.
  split; [vm_compute; reflexivity|].
  split; [discriminate|].
  split; [discriminate|].
  vm_compute; reflexivity.
Qed.

(** C5, amended: for an [s] line with a strand field, the parser looks at
    the first character of that field only.  When it is neither [+] nor
    [-] the parse ends in the malformed-line failure carrying the line
    number given to the parser; when it is one of them the strand is not
    the cause of any failure (what can still fail is a missing source
    length or sequence field); and every successful parse has such a first
    character and stores it as the strand. *)
Theorem strand_first_char_checked (s : string) (n : Z) (tkn : string) :
  first_char s = "s"%char ->
  strand_field s = Some tkn ->
  (first_char tkn <> "+"%char -> first_char tkn <> "-"%char ->
   maf_newMafLineFromString s n
   = Exit (BadFormat n ("Strand must be either + or -, not "
                          ++ String (first_char tkn) ".")%string))
  /\ (first_char tkn = "+"%char \/ first_char tkn = "-"%char ->
      (exists ml, maf_newMafLineFromString s n = Ok ml)
      \/ maf_newMafLineFromString s n
         = Exit (BadFormat n
              "Unable to separate line on tabs and spaces at source length field.")
      \/ maf_newMafLineFromString s n
         = Exit (BadFormat n
              "Unable to separate line on tabs and spaces at sequence field."))
  /\ (forall ml, maf_newMafLineFromString s n = Ok ml ->
      (first_char tkn = "+"%char \/ first_char tkn = "-"%char)
      /\ ml_strand ml = first_char tkn).
Proof.
  intros Hs Hf.
  unfold strand_field in Hf. cbn [nth_field] in Hf.
  unfold maf_newMafLineFromString. cbn [ml_type].
  rewrite Hs, Ascii.eqb_refl. cbn [negb].
  split_fields; try discriminate.
  all: injection Hf as Hf; subst.
  all: destruct (Ascii.eqb_spec (first_char tkn) "-") as [Em|Em];
    destruct (Ascii.eqb_spec (first_char tkn) "+") as [Ep|Ep]; cbn [negb andb].
  all: repeat split; intros; try congruence; eauto.
  all: try (match goal with H : Ok _ = Ok _ |- _ => inversion H; subst; reflexivity end).
  all: try tauto.
Qed.

Lemma strand_first_char_checked_witness :
  maf_newMafLineFromString "s hg18 10 5 x 100 ACGTA" 3
  = Exit (BadFormat 3 "Strand must be either + or -, not x.").
Proof.
  apply (strand_first_char_checked "s hg18 10 5 x 100 ACGTA" 3 "x");
    [reflexivity | reflexivity | discriminate | discriminate].
Defined.

(** ** Positive coordinates *)

(** C6: on a [+] record both conversions return the stored start.  On a [-]
    record the positive start is [sourceLength - start - 1] and the positive
    left edge is [sourceLength - (start + length)], computed in [uint32_t]
    arithmetic; they are these integers themselves as soon as the aligned
    span lies inside the source ([start < sourceLength], respectively
    [start + length <= sourceLength]). *)
Theorem positive_coordinates (ml : mafLine) :
  fields_in_range ml ->
  (ml_strand ml = "+"%char ->
   maf_mafLine_getPositiveCoord ml = ml_start ml /\
   maf_mafLine_getPositiveLeftCoord ml = ml_start ml)
  /\ (ml_strand ml = "-"%char ->
      maf_mafLine_getPositiveCoord ml = u32 (ml_sourceLength ml - ml_start ml - 1) /\
      maf_mafLine_getPositiveLeftCoord ml
      = u32 (ml_sourceLength ml - (ml_start ml + ml_length ml)))
  /\ (ml_strand ml = "-"%char -> ml_start ml < ml_sourceLength ml ->
      maf_mafLine_getPositiveCoord ml = ml_sourceLength ml - ml_start ml - 1)
  /\ (ml_strand ml = "-"%char -> ml_start ml + ml_length ml <= ml_sourceLength ml ->
      maf_mafLine_getPositiveLeftCoord ml
      = ml_sourceLength ml - (ml_start ml + ml_length ml)).
Proof.
  intros (Hs & Hl & Hsl).
  unfold maf_mafLine_getPositiveCoord, maf_mafLine_getPositiveLeftCoord.
  assert (Hneq : Ascii.eqb "-" "+" = false) by reflexivity.
  split; [|split; [|split]]; intros Hstrand; rewrite Hstrand.
  - rewrite Ascii.eqb_refl. split; reflexivity.
  - rewrite Hneq, !u32_sub_idem. split; [f_equal; lia | reflexivity].
  - intros Hlt. rewrite Hneq, u32_sub_idem. rewrite u32_small; lia.
  - intros Hle. rewrite Hneq, u32_sub_idem. rewrite u32_small; lia.
Qed.

Lemma positive_coordinates_witness :
  maf_mafLine_getPositiveCoord minus_strand_example = 89 /\
  maf_mafLine_getPositiveLeftCoord minus_strand_example = 85.
Proof.
  assert (R : fields_in_range minus_strand_example)
    by (unfold fields_in_range, UINT32_MOD; cbn; lia).
  destruct (positive_coordinates minus_strand_example R) as (_ & _ & Hc & Hl).
  split.
  - rewrite Hc; [reflexivity | reflexivity | cbn; lia].
  - rewrite Hl; [reflexivity | reflexivity | cbn; lia].
Defined.

(** ** Header read *)

Lemma bump_small (n : Z) (k : nat) :
  0 <= n -> n + Z.of_nat k < UINT32_MOD -> bump n k = n + Z.of_nat k.
Proof.
  revert n. induction k as [|k IH]; intros n Hn Hk; cbn [bump].
  - lia.
  - rewrite u32_small by lia. rewrite IH by lia. lia.
Qed.

Lemma bump_app (n : Z) (j k : nat) : bump n (j + k) = bump (bump n j) k.
Proof. revert n. induction j as [|j IH]; intros n; cbn [bump Nat.add]; auto. Qed.

Lemma header_lines_raw (n : Z) (ls : list string) :
  map ml_line (header_lines n ls) = map Some ls.
Proof.
  revert n. induction ls as [|l ls IH]; intros n; cbn; [|rewrite IH]; reflexivity.
Qed.

Lemma header_stop_loop_test (line : string) :
  negb (Ascii.eqb (first_char line) "a") && negb (maf_isBlankLine line)
  = negb (header_stop line).
Proof. unfold header_stop. rewrite negb_orb. reflexivity. Qed.

Lemma prefix_maf_not_stop (line : string) :
  has_prefix "##maf" line = true -> header_stop line = false.
Proof.
  unfold has_prefix. intros H. destruct line as [|c r]; [discriminate H|].
  cbn [String.prefix] in H.
  destruct (ascii_dec "#" c) as [<-|]; [reflexivity | discriminate H].
Qed.

Lemma prefix_track_not_stop (line : string) :
  has_prefix "track" line = true -> header_stop line = false.
Proof.
  unfold has_prefix. intros H. destruct line as [|c r]; [discriminate H|].
  cbn [String.prefix] in H.
  destruct (ascii_dec "t" c) as [<-|]; [reflexivity | discriminate H].
Qed.

(** The header loop appends every line up to the first stopping line. *)
Lemma header_loop_run (ls : list string) :
  forall (line : string) (unread : list string) (n : Z) (header : mafBlock)
         (t : string) (rest : list string),
    Forall (fun l => header_stop l = false) ls ->
    header_stop t = true ->
    line :: unread = ls ++ t :: rest ->
    mb_lineNumber header = n ->
    header_loop unread n header line
    = Ok (rest, bump n (List.length ls),
          mkMafBlock (mb_lines header ++ header_lines n ls)
                     (bump n (List.length ls))
                     (bump (mb_numberOfLines header) (List.length ls))
                     (mb_numberOfSequences header),
          t).
Proof.
  induction ls as [|l ls IH]; intros line unread n header t rest Hls Ht Heq Hn.
  - cbn in Heq. injection Heq as -> ->.
    destruct rest; cbn [header_loop]; rewrite header_stop_loop_test, Ht; cbn;
      rewrite app_nil_r; destruct header; cbn in *; subst; reflexivity.
  - cbn in Heq. injection Heq as -> ->.
    inversion Hls as [|? ? Hl Hls']; subst.
    destruct ls as [|l' ls].
    + cbn [app header_loop]. rewrite header_stop_loop_test, Hl. cbn [negb].
      cbn [set_lines mb_lines mb_numberOfLines mb_numberOfSequences].
      erewrite (IH t rest _ _ t rest); [|constructor|exact Ht|reflexivity|reflexivity].
      cbn. rewrite app_nil_r. reflexivity.
    + cbn [app header_loop]. rewrite header_stop_loop_test, Hl. cbn [negb].
      cbn [set_lines mb_lines mb_numberOfLines mb_numberOfSequences].
      erewrite (IH l' (ls ++ t :: rest) _ _ t rest);
        [|exact Hls'|exact Ht|reflexivity|reflexivity].
      cbn [mb_lines mb_numberOfLines mb_numberOfSequences List.length bump header_lines].
      rewrite <- app_assoc. reflexivity.
Qed.

Lemma header_loop_step (unread : list string) (n : Z) (header : mafBlock)
    (line : string) :
  header_stop line = false ->
  header_loop unread n header line
  = match unread with
    | [] => Exit PrematureEnd
    | line' :: rest =>
        header_loop rest (u32 (n + 1))
          (mkMafBlock (mb_lines header ++ [header_line line n]) (u32 (n + 1))
                      (u32 (mb_numberOfLines header + 1))
                      (mb_numberOfSequences header))
          line'
    end.
Proof.
  intros H. destruct unread; cbn [header_loop];
    rewrite header_stop_loop_test, H; reflexivity.
Qed.

(** After a valid first line the header read is the header loop started on
    the second line, whichever of the two markers the lines carry. *)
Lemma readBlockHeader_as_loop (mfa : mafFileApi) (f : FILE) (l1 l2 : string)
    (unread : list string) :
  mfa_mfp mfa = Some f ->
  f_unread f = l1 :: l2 :: unread ->
  valid_first l1 ->
  maf_readBlockHeader mfa
  = '(unread', n, header, line) <-
      header_loop unread (u32 (u32 (mfa_lineNumber mfa + 1) + 1))
        (mkMafBlock [header_line l1 (u32 (mfa_lineNumber mfa + 1))]
                    (u32 (u32 (mfa_lineNumber mfa + 1) + 1)) (u32 (0 + 1)) 0)
        l2 ;;
    Ok (header,
        mkMfa n (Some (mkFILE unread' (f_written f))) (mfa_filename mfa)
              (if Ascii.eqb (first_char line) "a" then Some line
               else mfa_lastLine mfa)).
Proof.
  intros Hf Hu Hv. unfold maf_readBlockHeader. rewrite Hf, Hu.
  destruct (has_prefix "track" l1) eqn:Etrack.
  - cbn [header_advance bind set_lines mb_lines mb_lineNumber mb_numberOfLines
         mb_numberOfSequences maf_newMafBlock].
    destruct (has_prefix "##maf" l2) eqn:Emaf.
    + rewrite (header_loop_step unread _ _ l2) by (apply prefix_maf_not_stop; exact Emaf).
      destruct unread as [|l3 unread];
        cbn [header_advance bind set_lines mb_lines mb_lineNumber mb_numberOfLines
             mb_numberOfSequences negb app]; reflexivity.
    + cbn [bind negb]. reflexivity.
  - destruct Hv as [Hv|Hv]; [congruence|]. cbn [bind]. rewrite Hv.
    cbn [header_advance bind set_lines mb_lines mb_lineNumber mb_numberOfLines
         mb_numberOfSequences maf_newMafBlock negb]. reflexivity.
Qed.

(** The header read on a header section [l1 :: hs] ended by the line [t]. *)
Lemma readBlockHeader_run (mfa : mafFileApi) (f : FILE) (l1 : string)
    (hs : list string) (t : string) (rest : list string) :
  mfa_mfp mfa = Some f ->
  f_unread f = (l1 :: hs) ++ t :: rest ->
  valid_first l1 ->
  Forall (fun l => header_stop l = false) hs ->
  header_stop t = true ->
  maf_readBlockHeader mfa
  = Ok (mkMafBlock (header_lines (u32 (mfa_lineNumber mfa + 1)) (l1 :: hs))
                   (bump (u32 (mfa_lineNumber mfa + 1)) (S (List.length hs)))
                   (bump 0 (S (List.length hs))) 0,
        mkMfa (bump (u32 (mfa_lineNumber mfa + 1)) (S (List.length hs)))
              (Some (mkFILE rest (f_written f))) (mfa_filename mfa)
              (if Ascii.eqb (first_char t) "a" then Some t else mfa_lastLine mfa)).
Proof.
  intros Hf Hu Hv Hhs Ht.
  assert (Hsplit : exists l2 unread, hs ++ t :: rest = l2 :: unread).
  { destruct hs as [|h hs']; cbn; eauto. }
  destruct Hsplit as (l2 & unread & Hsplit).
  rewrite (readBlockHeader_as_loop mfa f l1 l2 unread Hf); [| |exact Hv].
  2:{ rewrite Hu. cbn [app]. rewrite Hsplit. reflexivity. }
  erewrite (header_loop_run hs l2 unread _ _ t rest Hhs Ht (eq_sym Hsplit));
    [|reflexivity].
  cbn [bind mb_lines mb_numberOfLines mb_numberOfSequences app header_lines bump].
  reflexivity.
Qed.

(** ** Body read *)

Lemma line_ok_parsed (l : string) (n : Z) :
  line_ok l = true -> maf_newMafLineFromString l n = Ok (parsed l n).
Proof.
  unfold line_ok, parsed. intros H.
  destruct (maf_newMafLineFromString l 0) as [ml| |] eqn:E; try discriminate.
  rewrite (parse_renumber l 0 n ml E). reflexivity.
Qed.

Lemma parsed_raw (l : string) (n : Z) :
  line_ok l = true -> ml_line (parsed l n) = Some l.
Proof.
  intros H. apply line_ok_parsed with (n := n) in H.
  apply parse_ok_shape in H. tauto.
Qed.

Lemma parsed_lineNumber (l : string) (n : Z) :
  line_ok l = true -> ml_lineNumber (parsed l n) = n.
Proof.
  intros H. apply line_ok_parsed with (n := n) in H.
  apply parse_ok_shape in H. tauto.
Qed.

Lemma body_records_raw (n : Z) (ls : list string) :
  Forall body_line ls -> map ml_line (body_records n ls) = map Some ls.
Proof.
  intros H. revert n. induction H as [|l ls [_ Hl] _ IH]; intros n; cbn.
  - reflexivity.
  - rewrite parsed_raw by exact Hl. rewrite IH. reflexivity.
Qed.

Lemma extend_lines (mls : list mafLine) (mb : mafBlock) :
  mb_lines (extend mb mls) = mb_lines mb ++ mls.
Proof.
  unfold extend. revert mb. induction mls as [|ml mls IH]; intros mb; cbn.
  - rewrite app_nil_r. reflexivity.
  - rewrite IH. cbn. rewrite <- app_assoc. reflexivity.
Qed.

Lemma extend_lineNumber (mls : list mafLine) (mb : mafBlock) :
  mb_lineNumber (extend mb mls) = mb_lineNumber mb.
Proof.
  unfold extend. revert mb. induction mls as [|ml mls IH]; intros mb; cbn.
  - reflexivity.
  - rewrite IH. reflexivity.
Qed.

Lemma body_loop_end (n : Z) (mb : mafBlock) : body_loop [] n mb = Ok ([], n, mb).
Proof. reflexivity. Qed.

(** A blank line ends a block that holds a line. *)
Lemma body_loop_break (line : string) (rest : list string) (n : Z) (mb : mafBlock) :
  blank line -> mb_lines mb <> [] ->
  body_loop (line :: rest) n mb = Ok (rest, u32 (n + 1), mb).
Proof.
  intros Hb Hne. cbn [body_loop]. rewrite Hb.
  destruct (mb_lines mb); [contradiction|reflexivity].
Qed.

(** Blank lines met while the block is empty are passed over. *)
Lemma body_loop_blanks (gap tail : list string) (n : Z) (mb : mafBlock) :
  Forall blank gap -> mb_lines mb = [] ->
  body_loop (gap ++ tail) n mb = body_loop tail (bump n (List.length gap)) mb.
Proof.
  intros Hgap Hmb. revert n. induction Hgap as [|b gap Hb _ IH]; intros n.
  - reflexivity.
  - cbn [app body_loop List.length bump]. rewrite Hb, Hmb. apply IH.
Qed.

(** Body lines are parsed and linked until something else is met. *)
Lemma body_loop_lines (ls tail : list string) (n : Z) (mb : mafBlock) :
  Forall body_line ls ->
  body_loop (ls ++ tail) n mb
  = body_loop tail (bump n (List.length ls)) (extend mb (body_records n ls)).
Proof.
  intros Hls. revert n mb. induction Hls as [|l ls [Hnb Hok] _ IH]; intros n mb.
  - reflexivity.
  - cbn [app body_loop List.length bump body_records]. rewrite Hnb.
    rewrite (line_ok_parsed l _ Hok). rewrite IH. reflexivity.
Qed.

Lemma body_loop_block (gap ls tail : list string) (n : Z) (mb : mafBlock) :
  Forall blank gap -> Forall body_line ls -> block_end tail ->
  mb_lines mb = [] -> ls <> [] ->
  body_loop (gap ++ ls ++ tail) n mb
  = Ok (after_end tail,
        bump n (List.length gap + List.length ls + end_length tail),
        extend mb (body_records (bump n (List.length gap)) ls)).
Proof.
  intros Hgap Hls Htail Hmb Hne.
  rewrite (body_loop_blanks gap _ n mb Hgap Hmb).
  rewrite (body_loop_lines ls tail _ mb Hls).
  rewrite !bump_app.
  destruct tail as [|sep tail]; cbn [after_end end_length List.tl bump].
  - apply body_loop_end.
  - apply body_loop_break; [exact Htail|].
    rewrite extend_lines, Hmb. cbn [app].
    destruct ls; [contradiction|discriminate].
Qed.

(** The same with a block that already holds a line (the cached one). *)
Lemma body_loop_open_block (ls tail : list string) (n : Z) (mb : mafBlock) :
  Forall body_line ls -> block_end tail -> mb_lines mb <> [] ->
  body_loop (ls ++ tail) n mb
  = Ok (after_end tail,
        bump n (List.length ls + end_length tail),
        extend mb (body_records n ls)).
Proof.
  intros Hls Htail Hne.
  rewrite (body_loop_lines ls tail _ mb Hls).
  rewrite !bump_app.
  destruct tail as [|sep tail]; cbn [after_end end_length List.tl bump].
  - apply body_loop_end.
  - apply body_loop_break; [exact Htail|].
    rewrite extend_lines. destruct (mb_lines mb); [contradiction|discriminate].
Qed.

Lemma body_loop_extends (unread : list string) :
  forall (n : Z) (mb : mafBlock) (rest : list string) (n' : Z) (mb' : mafBlock),
    body_loop unread n mb = Ok (rest, n', mb') ->
    exists more, mb_lines mb' = mb_lines mb ++ more.
Proof.
  induction unread as [|line unread IH]; intros n mb rest n' mb' H.
  - cbn in H. inversion H; subst. exists []. rewrite app_nil_r. reflexivity.
  - cbn [body_loop] in H. destruct (maf_isBlankLine line).
    + destruct (mb_lines mb) eqn:E.
      * apply IH in H. rewrite E in H. exact H.
      * inversion H; subst. exists []. rewrite app_nil_r. congruence.
    + destruct (maf_newMafLineFromString line (u32 (n + 1))) as [ml| |];
        try discriminate.
      apply IH in H. destruct H as (more & H). cbn in H.
      exists (ml :: more). rewrite H, <- app_assoc. reflexivity.
Qed.

(** A body read without cached line: blank lines, then the lines of a
    block, then its end. *)
Lemma readBlockBody_run (mfa : mafFileApi) (f : FILE) (gap ls tail : list string) :
  mfa_mfp mfa = Some f ->
  mfa_lastLine mfa = None ->
  f_unread f = gap ++ ls ++ tail ->
  Forall blank gap -> Forall body_line ls -> ls <> [] -> block_end tail ->
  maf_readBlockBody mfa
  = Ok (extend (mkMafBlock [] (mfa_lineNumber mfa) 0 0)
               (body_records (bump (mfa_lineNumber mfa) (List.length gap)) ls),
        mkMfa (bump (mfa_lineNumber mfa)
                    (List.length gap + List.length ls + end_length tail))
              (Some (mkFILE (after_end tail) (f_written f)))
              (mfa_filename mfa) None).
Proof.
  intros Hf Hl Hu Hgap Hls Hne Htail.
  unfold maf_readBlockBody. rewrite Hl, Hf, Hu.
  cbn [bind maf_newMafBlock mb_lines mb_numberOfLines mb_numberOfSequences].
  rewrite (body_loop_block gap ls tail _ _ Hgap Hls Htail) by (reflexivity || exact Hne).
  reflexivity.
Qed.

(** A body read with a cached line. *)
Lemma readBlockBody_cached (mfa : mafFileApi) (f : FILE) (l : string)
    (ls tail : list string) :
  mfa_mfp mfa = Some f ->
  mfa_lastLine mfa = Some l ->
  line_ok l = true ->
  f_unread f = ls ++ tail ->
  Forall body_line ls -> block_end tail ->
  maf_readBlockBody mfa
  = Ok (extend (mkMafBlock [parsed l (mfa_lineNumber mfa)] (mfa_lineNumber mfa)
                           (u32 (0 + 1))
                           (if is_seq (parsed l (mfa_lineNumber mfa))
                            then u32 (0 + 1) else 0))
               (body_records (mfa_lineNumber mfa) ls),
        mkMfa (bump (mfa_lineNumber mfa) (List.length ls + end_length tail))
              (Some (mkFILE (after_end tail) (f_written f)))
              (mfa_filename mfa) None).
Proof.
  intros Hf Hl Hok Hu Hls Htail.
  unfold maf_readBlockBody. rewrite Hl, Hf, Hu.
  rewrite (line_ok_parsed l _ Hok).
  cbn [bind maf_newMafBlock mb_lines mb_numberOfLines mb_numberOfSequences
       set_lines block_append app].
  rewrite (body_loop_open_block ls tail _ _ Hls Htail) by discriminate.
  reflexivity.
Qed.

(** A body read that finds nothing but blank lines. *)
Lemma readBlockBody_eof (mfa : mafFileApi) (f : FILE) :
  mfa_mfp mfa = Some f ->
  mfa_lastLine mfa = None ->
  Forall blank (f_unread f) ->
  maf_readBlockBody mfa
  = Ok (mkMafBlock [] (mfa_lineNumber mfa) 0 0,
        mkMfa (bump (mfa_lineNumber mfa) (List.length (f_unread f)))
              (Some (mkFILE [] (f_written f))) (mfa_filename mfa) None).
Proof.
  intros Hf Hl Hgap.
  unfold maf_readBlockBody. rewrite Hl, Hf.
  cbn [bind maf_newMafBlock mb_lines mb_numberOfLines mb_numberOfSequences].
  rewrite <- (app_nil_r (f_unread f)) at 1.
  rewrite (body_loop_blanks _ [] _ _ Hgap) by reflexivity. reflexivity.
Qed.

Lemma raws_extend (mb : mafBlock) (n : Z) (ls : list string) :
  Forall body_line ls ->
  raws (extend mb (body_records n ls)) = raws mb ++ map Some ls.
Proof.
  intros H. unfold raws. rewrite extend_lines, map_app, body_records_raw by exact H.
  reflexivity.
Qed.

Lemma extend_nonempty (mb : mafBlock) (mls : list mafLine) :
  mb_lines mb <> [] \/ mls <> [] -> mb_lines (extend mb mls) <> [].
Proof.
  rewrite extend_lines. intros [H|H] E; apply app_eq_nil in E; tauto.
Qed.

Lemma body_records_nonempty (n : Z) (ls : list string) :
  ls <> [] -> body_records n ls <> [].
Proof. destruct ls; [contradiction|discriminate]. Qed.

Lemma starts_with_a_line_ok (l : string) :
  first_char l = "a"%char -> line_ok l = true.
Proof.
  intros H. unfold line_ok. rewrite parse_not_s; [reflexivity|].
  rewrite H. reflexivity.
Qed.

Lemma starts_with_a_parsed (l : string) (n : Z) :
  first_char l = "a"%char ->
  parsed l n = mkMafLine (Some l) n "a" None 0 0 NUL 0 None.
Proof.
  intros H. unfold parsed. rewrite parse_not_s; [rewrite H; reflexivity|].
  rewrite H. reflexivity.
Qed.

(** ** Header lookahead, blank lines and end of stream *)

(** C2: when the header section [l1 :: hs] is ended by a line [a] whose
    first character is [a], the header read returns the header block with
    the raw lines [l1 :: hs] only, leaves [a] in the session's cached line
    and the stream positioned after [a].  The body read that follows starts
    its block with the record parsed from the cached line, numbered with the
    session's line counter, and only then runs the reading loop on the rest
    of the stream: every block it returns starts with that record, and on
    body lines [ls] followed by the end of a block it returns the block
    whose raw lines are [a :: ls]. *)
Theorem header_lookahead (mfa : mafFileApi) (f : FILE) (l1 : string)
    (hs : list string) (a : string) (rest : list string) :
  mfa_mfp mfa = Some f ->
  f_unread f = (l1 :: hs) ++ a :: rest ->
  valid_first l1 ->
  Forall (fun l => header_stop l = false) hs ->
  first_char a = "a"%char ->
  exists header mfa1,
    maf_readBlockHeader mfa = Ok (header, mfa1)
    /\ raws header = map Some (l1 :: hs)
    /\ mfa_lastLine mfa1 = Some a
    /\ mfa_mfp mfa1 = Some (mkFILE rest (f_written f))
    /\ mfa_lineNumber mfa1
       = bump (u32 (mfa_lineNumber mfa + 1)) (S (List.length hs))
    /\ (let first :=
          mkMafLine (Some a) (mfa_lineNumber mfa1) "a" None 0 0 NUL 0 None in
        maf_readBlockBody mfa1
        = ('(unread, n, mb) <-
             body_loop rest (mfa_lineNumber mfa1)
               (mkMafBlock [first] (mfa_lineNumber mfa1) (u32 (0 + 1)) 0) ;;
           Ok (mb, mkMfa n (Some (mkFILE unread (f_written f)))
                         (mfa_filename mfa) None))
        /\ (forall mb mfa2,
               maf_readBlockBody mfa1 = Ok (mb, mfa2) ->
               exists more, mb_lines mb = first :: more)
        /\ (forall ls tail,
               rest = ls ++ tail -> Forall body_line ls -> block_end tail ->
               exists mb mfa2,
                 maf_readBlockBody mfa1 = Ok (mb, mfa2)
                 /\ raws mb = Some a :: map Some ls
                 /\ hd_error (mb_lines mb) = Some first
                 /\ mfa_lastLine mfa2 = None)).
Proof.
  intros Hf Hu Hv Hhs Ha.
  assert (Hstop : header_stop a = true).
  { unfold header_stop. rewrite Ha. reflexivity. }
  rewrite (readBlockHeader_run mfa f l1 hs a rest Hf Hu Hv Hhs Hstop).
  rewrite Ha. change (Ascii.eqb "a" "a") with true. cbv iota.
  eexists _, _. split; [reflexivity|].
  cbn [mfa_lastLine mfa_mfp mfa_lineNumber mfa_filename].
  split; [unfold raws; cbn [mb_lines]; apply header_lines_raw|].
  split; [reflexivity|]. split; [reflexivity|]. split; [reflexivity|].
  set (N := bump (u32 (mfa_lineNumber mfa + 1)) (S (List.length hs))).
  cbv zeta.
  assert (Hbody :
    maf_readBlockBody
      (mkMfa N (Some (mkFILE rest (f_written f))) (mfa_filename mfa) (Some a))
    = ('(unread, n, mb) <-
         body_loop rest N
           (mkMafBlock [mkMafLine (Some a) N "a" None 0 0 NUL 0 None] N
                       (u32 (0 + 1)) 0) ;;
       Ok (mb, mkMfa n (Some (mkFILE unread (f_written f)))
                     (mfa_filename mfa) None))).
  { unfold maf_readBlockBody.
    cbn [mfa_lastLine mfa_mfp mfa_lineNumber mfa_filename f_unread f_written].
    rewrite parse_not_s by (rewrite Ha; reflexivity). rewrite Ha.
    reflexivity. }
  split; [exact Hbody|]. split.
  - intros mb mfa2 H. rewrite Hbody in H.
    destruct (body_loop rest N _) as [[[u n] mb']| |] eqn:E; try discriminate.
    cbn [bind] in H. inversion H; subst.
    apply body_loop_extends in E. destruct E as (more & E).
    exists more. rewrite E. reflexivity.
  - intros ls tail Hrest Hls Htail.
    rewrite (readBlockBody_cached
               (mkMfa N (Some (mkFILE rest (f_written f))) (mfa_filename mfa) (Some a))
               (mkFILE rest (f_written f)) a ls tail
               eq_refl eq_refl (starts_with_a_line_ok a Ha) Hrest Hls Htail).
    eexists _, _. split; [reflexivity|].
    cbn [mfa_lineNumber mfa_lastLine]. rewrite (starts_with_a_parsed a N Ha).
    split; [|split; [|reflexivity]].
    + rewrite raws_extend by exact Hls. reflexivity.
    + rewrite extend_lines. reflexivity.
Qed.

Lemma header_lookahead_witness :
  exists header mfa1 mb mfa2,
    maf_readBlockHeader (maf_newMfa "sample.maf" sample_lookahead_file)
    = Ok (header, mfa1)
    /\ raws header = [Some "##maf version=1 scoring=none";
                      Some "# a comment of the header"]
    /\ mfa_lastLine mfa1 = Some "a score=23262.0"
    /\ maf_readBlockBody mfa1 = Ok (mb, mfa2)
    /\ raws mb = [Some "a score=23262.0";
                  Some "s hg18.chr7 27578828 38 + 158545518 AAA-GGG";
                  Some "s panTro1.chr6 28741140 38 - 161576975 AAA-GGG"].
Proof.
  destruct (header_lookahead
              (maf_newMfa "sample.maf" sample_lookahead_file)
              (mkFILE sample_lookahead_file "")
              "##maf version=1 scoring=none" ["# a comment of the header"]
              "a score=23262.0"
              (List.skipn 3 sample_lookahead_file))
    as (header & mfa1 & Hh & Hraw & Hlast & _ & _ & _ & _ & Hblock).
  - reflexivity.
  - reflexivity.
  - right. reflexivity.
  - repeat constructor.
  - reflexivity.
  - destruct (Hblock
                ["s hg18.chr7 27578828 38 + 158545518 AAA-GGG";
                 "s panTro1.chr6 28741140 38 - 161576975 AAA-GGG"]
                (List.skipn 5 sample_lookahead_file))
      as (mb & mfa2 & Hb & Hrawb & _).
    + reflexivity.
    + repeat constructor.
    + reflexivity.
    + exists header, mfa1, mb, mfa2. repeat split; assumption.
Defined.

Lemma body_loop_empty_at_end (unread : list string) :
  forall (n : Z) (mb : mafBlock) (rest : list string) (n' : Z) (mb' : mafBlock),
    body_loop unread n mb = Ok (rest, n', mb') ->
    mb_lines mb' = [] -> rest = [].
Proof.
  induction unread as [|line unread IH]; intros n mb rest n' mb' H Hempty.
  - cbn in H. inversion H; reflexivity.
  - cbn [body_loop] in H. destruct (maf_isBlankLine line).
    + destruct (mb_lines mb) eqn:E.
      * eapply IH; eassumption.
      * inversion H; subst. congruence.
    + destruct (maf_newMafLineFromString line (u32 (n + 1))) as [ml| |];
        try discriminate.
      eapply IH; eassumption.
Qed.

Lemma readBlockBody_empty_at_end (mfa : mafFileApi) (mb : mafBlock)
    (mfa' : mafFileApi) :
  maf_readBlockBody mfa = Ok (mb, mfa') ->
  mb_lines mb = [] ->
  exists f', mfa_mfp mfa' = Some f' /\ f_unread f' = [].
Proof.
  unfold maf_readBlockBody. intros H Hempty.
  destruct (mfa_lastLine mfa) as [l|].
  - destruct (maf_newMafLineFromString l (mfa_lineNumber mfa)) as [ml| |];
      try discriminate.
    cbn [bind] in H. destruct (mfa_mfp mfa) as [f|]; try discriminate.
    destruct (body_loop _ _ _) as [[[u n] b]| |] eqn:E; try discriminate.
    cbn [bind] in H. inversion H; subst.
    apply body_loop_extends in E. destruct E as (more & E).
    rewrite Hempty in E. discriminate E.
  - cbn [bind] in H. destruct (mfa_mfp mfa) as [f|]; try discriminate.
    destruct (body_loop _ _ _) as [[[u n] b]| |] eqn:E; try discriminate.
    cbn [bind] in H. inversion H; subst.
    apply body_loop_empty_at_end in E; [|exact Hempty]. subst.
    eexists; split; reflexivity.
Qed.

(** C3: in the body loop a blank line ends the block as soon as the block
    holds a line, and is passed over while the block is empty.  So when the
    stream holds the lines [B1] of a block, then one or more blank lines,
    then the lines [B2] of a block and its end, two body reads in a row
    return the block of [B1] and the block of [B2]: the run of blank lines
    is one boundary.  A body read returns a block without lines only when
    it has read the stream to its end. *)
Theorem blank_lines_collapse (mfa : mafFileApi) (f : FILE)
    (B1 gap B2 tail : list string) :
  mfa_mfp mfa = Some f ->
  mfa_lastLine mfa = None ->
  f_unread f = B1 ++ gap ++ B2 ++ tail ->
  Forall body_line B1 -> B1 <> [] ->
  Forall blank gap -> gap <> [] ->
  Forall body_line B2 -> B2 <> [] ->
  block_end tail ->
  (exists b1 mfa1 b2 mfa2,
      maf_readBlockBody mfa = Ok (b1, mfa1) /\ raws b1 = map Some B1
      /\ maf_readBlockBody mfa1 = Ok (b2, mfa2) /\ raws b2 = map Some B2
      /\ mfa_mfp mfa2 = Some (mkFILE (after_end tail) (f_written f)))
  /\ (forall line rest n mb,
         blank line -> mb_lines mb <> [] ->
         body_loop (line :: rest) n mb = Ok (rest, u32 (n + 1), mb))
  /\ (forall blanks rest n mb,
         Forall blank blanks -> mb_lines mb = [] ->
         body_loop (blanks ++ rest) n mb
         = body_loop rest (bump n (List.length blanks)) mb)
  /\ (forall mfa0 mb mfa',
         maf_readBlockBody mfa0 = Ok (mb, mfa') -> mb_lines mb = [] ->
         exists f', mfa_mfp mfa' = Some f' /\ f_unread f' = []).
Proof.
  intros Hf Hl Hu HB1 Hne1 Hgap Hneg HB2 Hne2 Htail.
  split; [|split; [|split]].
  - destruct gap as [|sep gap']; [contradiction|].
    inversion Hgap as [|? ? Hsep Hgap']; subst.
    rewrite (readBlockBody_run mfa f [] B1 ((sep :: gap') ++ B2 ++ tail) Hf Hl Hu
               (Forall_nil _) HB1 Hne1 Hsep).
    eexists _, _, _, _. split; [reflexivity|]. split.
    { rewrite raws_extend by exact HB1. reflexivity. }
    erewrite (readBlockBody_run _ _ gap' B2 tail);
      [|reflexivity|reflexivity|reflexivity|exact Hgap'|exact HB2|exact Hne2|exact Htail].
    split; [reflexivity|]. split.
    { rewrite raws_extend by exact HB2. reflexivity. }
    reflexivity.
  - intros. apply body_loop_break; assumption.
  - intros. apply body_loop_blanks; assumption.
  - intros. eapply readBlockBody_empty_at_end; eassumption.
Qed.

Lemma blank_lines_collapse_witness :
  exists b1 mfa1 b2 mfa2,
    maf_readBlockBody (mkMfa 2 (Some (mkFILE sample_three_blanks "")) "sample.maf" None)
    = Ok (b1, mfa1)
    /\ raws b1 = [Some "a score=1.0"; Some "s hg18.chr7 10 5 + 100 ACGTA";
                  Some "s mm4.chr6 10 5 - 100 ACGTA"]
    /\ maf_readBlockBody mfa1 = Ok (b2, mfa2)
    /\ raws b2 = [Some "a score=2.0"; Some "s hg18.chr7 20 3 + 100 ACG"]
    /\ mfa_mfp mfa2 = Some (mkFILE ["a score=3.0"] "").
Proof.
  apply (blank_lines_collapse
           (mkMfa 2 (Some (mkFILE sample_three_blanks "")) "sample.maf" None)
           (mkFILE sample_three_blanks "")
           ["a score=1.0"; "s hg18.chr7 10 5 + 100 ACGTA"; "s mm4.chr6 10 5 - 100 ACGTA"]
           [""; "  "; ""]
           ["a score=2.0"; "s hg18.chr7 20 3 + 100 ACG"]
           [""; "a score=3.0"]).
  - reflexivity.
  - reflexivity.
  - reflexivity.
  - repeat constructor.
  - discriminate.
  - repeat constructor.
  - discriminate.
  - repeat constructor.
  - discriminate.
  - reflexivity.
Defined.

Lemma readBlock_body (mfa : mafFileApi) :
  mfa_lineNumber mfa <> 0 ->
  maf_readBlock mfa
  = ('(mb, mfa') <- maf_readBlockBody mfa ;;
     match mb_lines mb with
     | _ :: _ => Ok (Some mb, mfa')
     | [] => Ok (None, mfa')
     end).
Proof.
  intros H. unfold maf_readBlock.
  destruct (Z.eqb_spec (mfa_lineNumber mfa) 0); [contradiction|reflexivity].
Qed.

(** C4: a read in the body state (line counter not 0) whose stream ends
    while the block is empty, after blank lines only, returns the
    no-more-blocks value [None], which is a return and not a failure; a
    read whose stream ends after the lines of a block, without blank line,
    returns that block, also when its first line is the cached one. *)
Theorem body_read_end_of_stream (mfa : mafFileApi) (f : FILE) :
  mfa_lineNumber mfa <> 0 ->
  mfa_mfp mfa = Some f ->
  (mfa_lastLine mfa = None -> Forall blank (f_unread f) ->
   exists mfa',
     maf_readBlock mfa = Ok (None, mfa')
     /\ mfa_mfp mfa' = Some (mkFILE [] (f_written f)))
  /\ (forall gap ls,
         mfa_lastLine mfa = None -> f_unread f = gap ++ ls ->
         Forall blank gap -> Forall body_line ls -> ls <> [] ->
         exists mb mfa',
           maf_readBlock mfa = Ok (Some mb, mfa')
           /\ raws mb = map Some ls
           /\ mfa_mfp mfa' = Some (mkFILE [] (f_written f)))
  /\ (forall l,
         mfa_lastLine mfa = Some l -> line_ok l = true ->
         Forall body_line (f_unread f) ->
         exists mb mfa',
           maf_readBlock mfa = Ok (Some mb, mfa')
           /\ raws mb = Some l :: map Some (f_unread f)
           /\ mfa_mfp mfa' = Some (mkFILE [] (f_written f))).
Proof.
  intros Hn Hf. rewrite (readBlock_body mfa Hn).
  split; [|split].
  - intros Hl Hblank. rewrite (readBlockBody_eof mfa f Hf Hl Hblank).
    eexists. split; reflexivity.
  - intros gap ls Hl Hu Hgap Hls Hne.
    rewrite (readBlockBody_run mfa f gap ls [] Hf Hl) ;
      [|rewrite app_nil_r; exact Hu|exact Hgap|exact Hls|exact Hne|exact I].
    cbn [bind].
    destruct (mb_lines (extend _ _)) eqn:E.
    + exfalso. revert E. apply extend_nonempty. right.
      apply body_records_nonempty. exact Hne.
    + eexists _, _. split; [reflexivity|]. split; [|reflexivity].
      rewrite raws_extend by exact Hls. reflexivity.
  - intros l Hl Hok Hls.
    rewrite (readBlockBody_cached mfa f l (f_unread f) [] Hf Hl Hok);
      [|rewrite app_nil_r; reflexivity|exact Hls|exact I].
    cbn [bind].
    destruct (mb_lines (extend _ _)) eqn:E.
    + exfalso. revert E. apply extend_nonempty. left. discriminate.
    + eexists _, _. split; [reflexivity|]. split; [|reflexivity].
      rewrite raws_extend by exact Hls. unfold raws. cbn [mb_lines map].
      rewrite parsed_raw by exact Hok. reflexivity.
Qed.

Lemma body_read_end_of_stream_witness :
  (exists mfa',
      maf_readBlock (mkMfa 9 (Some (mkFILE [""; "   "] "")) "sample.maf" None)
      = Ok (None, mfa')
      /\ mfa_mfp mfa' = Some (mkFILE [] ""))
  /\ (exists mb mfa',
         maf_readBlock
           (mkMfa 9 (Some (mkFILE [""; "a score=3.0"; "s hg18.chr7 10 5 + 100 ACGTA"] ""))
                  "sample.maf" None)
         = Ok (Some mb, mfa')
         /\ raws mb = [Some "a score=3.0"; Some "s hg18.chr7 10 5 + 100 ACGTA"]
         /\ mfa_mfp mfa' = Some (mkFILE [] "")).
Proof.
  split.
  - destruct (body_read_end_of_stream
                (mkMfa 9 (Some (mkFILE [""; "   "] "")) "sample.maf" None)
                (mkFILE [""; "   "] ""))
      as (H & _ & _); [discriminate|reflexivity|].
    apply H; [reflexivity|repeat constructor].
  - destruct (body_read_end_of_stream
                (mkMfa 9 (Some (mkFILE [""; "a score=3.0"; "s hg18.chr7 10 5 + 100 ACGTA"] ""))
                       "sample.maf" None)
                (mkFILE [""; "a score=3.0"; "s hg18.chr7 10 5 + 100 ACGTA"] ""))
      as (_ & H & _); [discriminate|reflexivity|].
    apply (H [""] ["a score=3.0"; "s hg18.chr7 10 5 + 100 ACGTA"]);
      [reflexivity|reflexivity|repeat constructor|repeat constructor|discriminate].
Defined.

Lemma header_loop_extends (unread : list string) :
  forall (n : Z) (header : mafBlock) (line : string)
         (rest : list string) (n' : Z) (header' : mafBlock) (t : string),
    header_loop unread n header line = Ok (rest, n', header', t) ->
    exists more, mb_lines header' = mb_lines header ++ more.
Proof.
  induction unread as [|l unread IH]; intros n header line rest n' header' t H;
    cbn [header_loop] in H;
    destruct (negb (Ascii.eqb (first_char line) "a") && negb (maf_isBlankLine line)).
  - discriminate.
  - inversion H; subst. exists []. rewrite app_nil_r. reflexivity.
  - apply IH in H. destruct H as (more & H). cbn in H.
    eexists. rewrite H, <- app_assoc. reflexivity.
  - inversion H; subst. exists []. rewrite app_nil_r. reflexivity.
Qed.

(** C7, as stated, fails: after a [track] line, a second line that starts
    with [a] is kept as the cached line, and a blank second line is
    dropped; neither becomes a record of the header block. *)
Lemma track_second_line_not_accepted :
  (exists header mfa',
      maf_readBlockHeader (maf_newMfa "sample.maf" sample_track_then_a)
      = Ok (header, mfa')
      /\ raws header = [Some "track name=euArchontoglires"]
      /\ ~ In (Some "a score=1.0") (raws header)
      /\ mfa_lastLine mfa' = Some "a score=1.0")
  /\ (exists header mfa',
         maf_readBlockHeader (maf_newMfa "sample.maf" sample_track_then_blank)
         = Ok (header, mfa')
         /\ raws header = [Some "track name=euArchontoglires"]
         /\ ~ In (Some "") (raws header)
         /\ mfa_lastLine mfa' = None).
Proof.
  split; eexists _, _; (split; [vm_compute; reflexivity|]);
    (split; [reflexivity|]); (split; [|reflexivity]);
    cbn; intros [H|[]]; discriminate H.
Qed.

(** C7, amended: when the first line has the prefix [track], the header
    read reads one more line, and without one ends in the premature-end
    failure.  A second line that is blank or starts with [a] ends the
    header: the block holds the track line alone, and the line is cached if
    it starts with [a], dropped if it is blank.  Any other second line,
    with the [##maf] prefix or without, is the second header record of
    every block the read returns, and the read returns one as soon as the
    lines that follow reach a blank line or a line starting with [a]. *)
Theorem track_second_line (mfa : mafFileApi) (f : FILE) (l1 : string)
    (after : list string) :
  mfa_mfp mfa = Some f ->
  f_unread f = l1 :: after ->
  has_prefix "track" l1 = true ->
  (after = [] -> maf_readBlockHeader mfa = Exit PrematureEnd)
  /\ (forall l2 unread,
         after = l2 :: unread -> header_stop l2 = true ->
         maf_readBlockHeader mfa
         = Ok (mkMafBlock [header_line l1 (u32 (mfa_lineNumber mfa + 1))]
                          (u32 (u32 (mfa_lineNumber mfa + 1) + 1)) (u32 (0 + 1)) 0,
               mkMfa (u32 (u32 (mfa_lineNumber mfa + 1) + 1))
                     (Some (mkFILE unread (f_written f))) (mfa_filename mfa)
                     (if Ascii.eqb (first_char l2) "a" then Some l2
                      else mfa_lastLine mfa)))
  /\ (forall l2 unread,
         after = l2 :: unread -> header_stop l2 = false ->
         (forall header mfa',
             maf_readBlockHeader mfa = Ok (header, mfa') ->
             exists more,
               mb_lines header
               = header_line l1 (u32 (mfa_lineNumber mfa + 1))
                 :: header_line l2 (u32 (u32 (mfa_lineNumber mfa + 1) + 1))
                 :: more)
         /\ (forall hs t rest,
                unread = hs ++ t :: rest ->
                Forall (fun l => header_stop l = false) hs ->
                header_stop t = true ->
                exists header mfa',
                  maf_readBlockHeader mfa = Ok (header, mfa')
                  /\ raws header = map Some (l1 :: l2 :: hs))).
Proof.
  intros Hf Hu Htrack. split; [|split].
  - intros ->. unfold maf_readBlockHeader. rewrite Hf, Hu, Htrack. reflexivity.
  - intros l2 unread -> Hstop.
    rewrite (readBlockHeader_run mfa f l1 [] l2 unread Hf Hu
               (or_introl Htrack) (Forall_nil _) Hstop).
    reflexivity.
  - intros l2 unread -> Hgo. split.
    + intros header mfa' H.
      rewrite (readBlockHeader_as_loop mfa f l1 l2 unread Hf Hu (or_introl Htrack)) in H.
      rewrite (header_loop_step unread _ _ l2 Hgo) in H.
      destruct unread as [|l3 unread]; [discriminate H|].
      destruct (header_loop unread _ _ l3) as [[[[u n] h] t]| |] eqn:E;
        try discriminate H.
      cbn [bind] in H. inversion H; subst.
      apply header_loop_extends in E. destruct E as (more & E).
      exists more. rewrite E. reflexivity.
    + intros hs t rest -> Hhs Ht.
      rewrite (readBlockHeader_run mfa f l1 (l2 :: hs) t rest Hf Hu
                 (or_introl Htrack) (Forall_cons _ Hgo Hhs) Ht).
      eexists _, _. split; [reflexivity|].
      unfold raws. cbn [mb_lines]. apply header_lines_raw.
Qed.

Lemma track_second_line_witness :
  exists header mfa',
    maf_readBlockHeader
      (maf_newMfa "sample.maf" ["track name=euArchontoglires"; "custom line"; ""])
    = Ok (header, mfa')
    /\ raws header = [Some "track name=euArchontoglires"; Some "custom line"].
Proof.
  destruct (track_second_line
              (maf_newMfa "sample.maf" ["track name=euArchontoglires"; "custom line"; ""])
              (mkFILE ["track name=euArchontoglires"; "custom line"; ""] "")
              "track name=euArchontoglires" ["custom line"; ""])
    as (_ & _ & H); [reflexivity|reflexivity|reflexivity|].
  destruct (H "custom line" [""]) as (_ & H'); [reflexivity|reflexivity|].
  apply (H' [] "" []); [reflexivity|constructor|reflexivity].
Defined.

(** ** Line number of a block *)

Lemma body_loop_lineNumber (unread : list string) :
  forall (n : Z) (mb : mafBlock) (rest : list string) (n' : Z) (mb' : mafBlock),
    body_loop unread n mb = Ok (rest, n', mb') ->
    mb_lineNumber mb' = mb_lineNumber mb.
Proof.
  induction unread as [|line unread IH]; intros n mb rest n' mb' H.
  - cbn in H. inversion H; reflexivity.
  - cbn [body_loop] in H. destruct (maf_isBlankLine line).
    + destruct (mb_lines mb).
      * eapply IH; eassumption.
      * inversion H; reflexivity.
    + destruct (maf_newMafLineFromString line (u32 (n + 1))) as [ml| |];
        try discriminate.
      apply IH in H. exact H.
Qed.

(** What the body read stores as the block's line number: the session's
    line counter at the start of the read, that is the number of the last
    line consumed before the block. *)
Lemma readBlockBody_lineNumber (mfa : mafFileApi) (mb : mafBlock)
    (mfa' : mafFileApi) :
  maf_readBlockBody mfa = Ok (mb, mfa') ->
  mb_lineNumber mb = mfa_lineNumber mfa.
Proof.
  unfold maf_readBlockBody. intros H.
  destruct (mfa_lastLine mfa) as [l|].
  - destruct (maf_newMafLineFromString l (mfa_lineNumber mfa)) as [ml| |];
      try discriminate.
    cbn [bind] in H. destruct (mfa_mfp mfa) as [f|]; try discriminate.
    destruct (body_loop _ _ _) as [[[u n] b]| |] eqn:E; try discriminate.
    cbn [bind] in H. inversion H; subst.
    apply body_loop_lineNumber in E. exact E.
  - cbn [bind] in H. destruct (mfa_mfp mfa) as [f|]; try discriminate.
    destruct (body_loop _ _ _) as [[[u n] b]| |] eqn:E; try discriminate.
    cbn [bind] in H. inversion H; subst.
    apply body_loop_lineNumber in E. exact E.
Qed.

(** C9 on a file whose blocks are separated by blank lines: the header
    block begins at line 1 and is numbered 2; the first alignment block
    begins at line 3 and is numbered 2; the second begins at line 7 and is
    numbered 5.  The number of a body block is the line counter when its
    read began, which is the number of the blank line read last. *)
Theorem block_lineNumber_on_sample :
  exists header mfa1 b1 mfa2 b2 mfa3,
    maf_readBlock (maf_newMfa "sample.maf" sample_blank_separated)
    = Ok (Some header, mfa1)
    /\ maf_readBlock mfa1 = Ok (Some b1, mfa2)
    /\ maf_readBlock mfa2 = Ok (Some b2, mfa3)
    /\ map ml_lineNumber (mb_lines header) = [1] /\ mb_lineNumber header = 2
    /\ map ml_lineNumber (mb_lines b1) = [3; 4] /\ mb_lineNumber b1 = 2
    /\ mfa_lineNumber mfa1 = 2
    /\ map ml_lineNumber (mb_lines b2) = [7; 8; 9] /\ mb_lineNumber b2 = 5
    /\ mfa_lineNumber mfa2 = 5.
Proof.
  eexists _, _, _, _, _, _.
  split; [vm_compute; reflexivity|].
  split; [vm_compute; reflexivity|].
  split; [vm_compute; reflexivity|].
  repeat split; reflexivity.
Qed.

(** A body read without cached line, over [k] blank lines and then the
    lines of a block: the block is numbered with the line counter the
    read started from, and its first record with that counter plus
    [k + 1]. *)
Lemma body_block_numbers (mfa : mafFileApi) (f : FILE) (gap ls tail : list string) :
  mfa_mfp mfa = Some f ->
  mfa_lastLine mfa = None ->
  f_unread f = gap ++ ls ++ tail ->
  Forall blank gap -> Forall body_line ls -> ls <> [] -> block_end tail ->
  0 <= mfa_lineNumber mfa ->
  mfa_lineNumber mfa + Z.of_nat (List.length gap) + 1 < UINT32_MOD ->
  exists mb mfa' first more,
    maf_readBlockBody mfa = Ok (mb, mfa')
    /\ mb_lineNumber mb = mfa_lineNumber mfa
    /\ mb_lines mb = first :: more
    /\ ml_lineNumber first = mfa_lineNumber mfa + Z.of_nat (List.length gap) + 1.
Proof.
  intros Hf Hl Hu Hgap Hls Hne Htail Hpos Hsmall.
  rewrite (readBlockBody_run mfa f gap ls tail Hf Hl Hu Hgap Hls Hne Htail).
  destruct ls as [|l ls]; [contradiction|].
  inversion Hls as [|? ? [_ Hok] _]; subst.
  eexists _, _, _, _. split; [reflexivity|].
  split; [apply extend_lineNumber|].
  split; [rewrite extend_lines; reflexivity|].
  rewrite parsed_lineNumber by exact Hok.
  rewrite bump_small by lia. rewrite u32_small by lia. lia.
Qed.

Lemma body_block_numbers_witness :
  exists mb mfa' first more,
    maf_readBlockBody
      (mkMfa 5 (Some (mkFILE (List.skipn 5 sample_blank_separated) ""))
             "sample.maf" None)
    = Ok (mb, mfa')
    /\ mb_lineNumber mb = 5
    /\ mb_lines mb = first :: more
    /\ ml_lineNumber first = 5 + Z.of_nat (List.length [""]) + 1.
Proof.
  apply (body_block_numbers
           (mkMfa 5 (Some (mkFILE (List.skipn 5 sample_blank_separated) ""))
                  "sample.maf" None)
           (mkFILE (List.skipn 5 sample_blank_separated) "")
           [""]
           ["a score=2.0"; "s hg18.chr7 20 3 + 100 ACG"; "i hg18.chr7 N 0 C 0"]
           [""]).
  - reflexivity.
  - reflexivity.
  - reflexivity.
  - repeat constructor.
  - repeat constructor.
  - discriminate.
  - reflexivity.
  - discriminate.
  - reflexivity.
Defined.

(** ** Derived views *)

Lemma store_next {A : Type} (done : list (option A)) (c : option A)
    (rest : list (option A)) (v : A) :
  store (done ++ c :: rest) (Z.of_nat (List.length done)) v
  = Ok (done ++ Some v :: rest).
Proof.
  unfold store. rewrite length_app. cbn [List.length].
  replace ((0 <=? Z.of_nat (List.length done))
           && (Z.of_nat (List.length done)
               <? Z.of_nat (List.length done + S (List.length rest)))) with true.
  2:{ symmetry. apply andb_true_intro. split; [apply Z.leb_le|apply Z.ltb_lt]; lia. }
  rewrite Nat2Z.id. f_equal. f_equal.
  - rewrite firstn_app, firstn_all, Nat.sub_diag. cbn. apply app_nil_r.
  - f_equal. induction done as [|d done IH]; [reflexivity|exact IH].
Qed.

Lemma fill_seq_run {A : Type} (val : mafLine -> A) (ls : list mafLine) :
  forall (done : list A) (k : nat),
    (List.length (filter is_seq ls) <= k)%nat ->
    Z.of_nat (List.length done + List.length (filter is_seq ls)) < UINT32_MOD ->
    fill_seq val ls (Z.of_nat (List.length done)) (map Some done ++ repeat None k)
    = Ok (Z.of_nat (List.length done + List.length (filter is_seq ls)),
          map Some (done ++ map val (filter is_seq ls))
          ++ repeat None (k - List.length (filter is_seq ls))).
Proof.
  induction ls as [|ml ls IH]; intros done k Hk Hsmall; cbn [fill_seq filter].
  - cbn [List.length map]. rewrite Nat.add_0_r, Nat.sub_0_r, app_nil_r. reflexivity.
  - cbn [filter] in Hk, Hsmall. destruct (is_seq ml) eqn:E.
    + cbn [List.length] in Hk, Hsmall. destruct k as [|k]; [lia|].
      cbn [repeat]. rewrite <- (length_map Some done) at 1.
      rewrite store_next. cbn [bind].
      rewrite u32_small by lia.
      replace (Z.of_nat (List.length done) + 1)
        with (Z.of_nat (List.length (done ++ [val ml])))
        by (rewrite length_app; cbn [List.length]; lia).
      replace (map Some done ++ Some (val ml) :: repeat None k)
        with (map Some (done ++ [val ml]) ++ repeat (@None A) k)
        by (rewrite map_app, <- app_assoc; reflexivity).
      rewrite IH.
      * rewrite length_app. cbn [List.length map Nat.sub].
        rewrite <- app_assoc. cbn [app].
        do 3 f_equal. lia.
      * lia.
      * rewrite length_app. cbn [List.length]. lia.
    + apply IH; assumption.
Qed.

(** C10: each of the two builders returns the NULL result exactly when
    the block's sequence count is 0.  On a block whose count is the number
    of its [s] records the strand array holds their strand characters in
    list order, followed by the NUL terminator, and the record array holds
    those records in list order. *)
Theorem strand_array_builder (mb : mafBlock) :
  (maf_mafBlock_getStrandArray mb = Ok None <-> mb_numberOfSequences mb = 0)
  /\ (maf_mafBlock_getMafLineArray_seqOnly mb = Ok None
      <-> mb_numberOfSequences mb = 0)
  /\ (counted mb -> mb_numberOfSequences mb <> 0 ->
      maf_mafBlock_getStrandArray mb
      = Ok (Some (map Some (map ml_strand (seq_lines mb)) ++ [Some NUL]))
      /\ Z.of_nat (List.length (map ml_strand (seq_lines mb)))
         = mb_numberOfSequences mb
      /\ maf_mafBlock_getMafLineArray_seqOnly mb
         = Ok (Some (map Some (seq_lines mb)))).
Proof.
  split; [|split].
  - unfold maf_mafBlock_getStrandArray.
    destruct (Z.eqb_spec (mb_numberOfSequences mb) 0) as [E|E].
    + tauto.
    + split; [|contradiction]. intros H. exfalso.
      destruct (fill_seq _ _ _ _) as [[i a]| |]; try discriminate.
      cbn [bind] in H. destruct (store a i NUL); discriminate.
  - unfold maf_mafBlock_getMafLineArray_seqOnly.
    destruct (Z.eqb_spec (mb_numberOfSequences mb) 0) as [E|E].
    + tauto.
    + split; [|contradiction]. intros H. exfalso.
      destruct (fill_seq _ _ _ _) as [[i a]| |]; discriminate.
  - intros [Hc Hsmall] Hn.
    assert (Hpos : 0 <= mb_numberOfSequences mb) by (rewrite Hc; lia).
    unfold maf_mafBlock_getStrandArray, maf_mafBlock_getMafLineArray_seqOnly.
    destruct (Z.eqb_spec (mb_numberOfSequences mb) 0) as [E|_]; [contradiction|].
    unfold de_malloc. rewrite u32_small by lia.
    rewrite Hc. unfold seq_lines in *.
    set (c := List.length (filter is_seq (mb_lines mb))) in *.
    replace (Z.to_nat (Z.of_nat c + 1)) with (S c) by lia.
    rewrite Nat2Z.id.
    split; [|split].
    + pose proof (fill_seq_run ml_strand (mb_lines mb) [] (S c)) as Hrun.
      fold c in Hrun. cbn [List.length map app Nat.add] in Hrun.
      change (Z.of_nat 0) with 0 in Hrun. rewrite Hrun by lia. cbn [bind].
      replace (S c - c)%nat with 1%nat by lia. cbn [repeat].
      replace (Z.of_nat c)
        with (Z.of_nat (List.length
                          (map Some (map ml_strand (filter is_seq (mb_lines mb))))))
        by (rewrite !length_map; reflexivity).
      rewrite store_next. reflexivity.
    + rewrite length_map. reflexivity.
    + pose proof (fill_seq_run (fun ml => ml) (mb_lines mb) [] c) as Hrun.
      fold c in Hrun. cbn [List.length map app Nat.add] in Hrun.
      change (Z.of_nat 0) with 0 in Hrun. rewrite Hrun by lia. cbn [bind].
      rewrite Nat.sub_diag, map_id. cbn [repeat]. rewrite app_nil_r. reflexivity.
Qed.

Lemma strand_array_builder_witness :
  maf_mafBlock_getStrandArray sample_block
  = Ok (Some [Some "+"%char; Some "-"%char; Some NUL])
  /\ maf_mafBlock_getStrandArray maf_newMafBlock = Ok None.
Proof.
  destruct (strand_array_builder sample_block) as (_ & _ & H).
  destruct (strand_array_builder maf_newMafBlock) as (H0 & _).
  split.
  - apply H; [split; [reflexivity|reflexivity]|discriminate].
  - apply H0. reflexivity.
Defined.

(** *** Sequence matrix *)

Lemma store_row_next (done : list (buffer ascii)) (c : buffer ascii)
    (rest : list (buffer ascii)) (seq : string) (m : Z) :
  0 <= m -> m + 1 < UINT32_MOD ->
  store_row (done ++ c :: rest) (Z.of_nat (List.length done)) seq m
  = Ok (done ++ (map Some (strncpy seq (Z.to_nat m)) ++ [Some NUL]) :: rest).
Proof.
  intros Hm Hsmall. unfold store_row. rewrite length_app. cbn [List.length].
  replace ((0 <=? Z.of_nat (List.length done))
           && (Z.of_nat (List.length done)
               <? Z.of_nat (List.length done + S (List.length rest)))) with true.
  2:{ symmetry. apply andb_true_intro. split; [apply Z.leb_le|apply Z.ltb_lt]; lia. }
  rewrite u32_small by lia. rewrite Z.eqb_refl.
  rewrite Nat2Z.id. f_equal. f_equal.
  - rewrite firstn_app, firstn_all, Nat.sub_diag. cbn. apply app_nil_r.
  - f_equal. induction done as [|d done IH]; [reflexivity|exact IH].
Qed.




(** On a list that ends with an [s] record, all of whose [s] records
    carry a sequence, the walk fills one row per [s] record, in list
    order. *)
Lemma matrix_loop_rows (ls : list mafLine) :
  forall (inner : bool) (done : list (buffer ascii)) (k : nat) (m : Z)
         (blank_row : buffer ascii),
    0 <= m -> m + 1 < UINT32_MOD ->
    (exists front last, ls = front ++ [last] /\ is_seq last = true) ->
    Forall (fun ml => is_seq ml = true -> ml_sequence ml <> None) ls ->
    (List.length (filter is_seq ls) <= k)%nat ->
    Z.of_nat (List.length done + List.length (filter is_seq ls)) < UINT32_MOD ->
    matrix_loop inner ls (Z.of_nat (List.length done)) m
      (done ++ repeat blank_row k)
    = Ok ((done ++ map (matrix_row m) (filter is_seq ls))
          ++ repeat blank_row (k - List.length (filter is_seq ls))).
Proof.
  induction ls as [|ml ls IH];
    intros inner done k m blank_row Hm Hsmall Hlast Hseq Hk Hc.
  - destruct Hlast as (front & last & E & _). destruct front; discriminate E.
  - cbn [matrix_loop filter] in *. inversion Hseq as [|? ? Hml Hseq']; subst.
    assert (Hrest : ls = [] \/ exists front last, ls = front ++ [last] /\ is_seq last = true).
    { destruct Hlast as (front & last & E & Hl). destruct front as [|x front].
      - left. cbn in E. inversion E. reflexivity.
      - right. cbn in E. inversion E. eauto. }
    destruct (is_seq ml) eqn:E; cbn [negb].
    + destruct (ml_sequence ml) as [seq|] eqn:Es; [|exfalso; apply Hml; auto].
      cbn [List.length] in Hk, Hc. destruct k as [|k]; [lia|].
      cbn [repeat]. rewrite store_row_next by assumption. cbn [bind].
      rewrite u32_small by lia.
      replace (Z.of_nat (List.length done) + 1)
        with (Z.of_nat (List.length (done ++ [matrix_row m ml])))
        by (rewrite length_app; cbn [List.length]; lia).
      replace (done ++ (map Some (strncpy seq (Z.to_nat m)) ++ [Some NUL])
                 :: repeat blank_row k)
        with ((done ++ [matrix_row m ml]) ++ repeat blank_row k)
        by (unfold matrix_row; rewrite Es, <- app_assoc; reflexivity).
      destruct Hrest as [->|Hrest].
      * cbn [matrix_loop filter map List.length Nat.sub]. rewrite Nat.sub_0_r.
        reflexivity.
      * rewrite IH; try assumption.
        -- cbn [map List.length Nat.sub]. rewrite <- !app_assoc. reflexivity.
        -- lia.
        -- rewrite length_app. cbn [List.length]. lia.
    + destruct Hrest as [->|Hrest].
      * destruct Hlast as (front & last & E' & Hl).
        destruct front as [|x front]; cbn in E'; inversion E'; subst.
        -- congruence.
        -- destruct front; discriminate.
      * apply IH; assumption.
Qed.

(** C8 on a block read from a file: the block [a], [s], [i] has the
    sequence count 1 of its one [s] record, and the builder called with
    that row count walks past the [i] record to the end of the list, where
    the inner loop reads through the NULL pointer.  The header block, which
    has no [s] record, ends the same way. *)
Theorem sequence_matrix_past_the_end :
  exists header mfa1 mb mfa2,
    maf_readBlock
      (maf_newMfa "sample.maf"
         ["##maf version=1"; ""; "a score=1.0"; "s hg18.chr7 10 5 + 100 ACGTA";
          "i hg18.chr7 N 0 C 0"; ""])
    = Ok (Some header, mfa1)
    /\ maf_readBlock mfa1 = Ok (Some mb, mfa2)
    /\ mb = sample_block_ends_with_i
    /\ mb_numberOfSequences mb = Z.of_nat (List.length (seq_lines mb))
    /\ maf_mafBlock_getSequenceMatrix mb (mb_numberOfSequences mb) 5 = Undefined
    /\ maf_mafBlock_getSequenceMatrix header (mb_numberOfSequences header) 5
       = Undefined.
Proof.
  eexists _, _, _, _.
  split; [vm_compute; reflexivity|].
  split; [vm_compute; reflexivity|].
  repeat split; vm_compute; reflexivity.
Qed.

(** The builder on a block that ends with an [s] record: row [i] is the
    sequence of the [i]-th [s] record cut or NUL-padded to [m] bytes, with
    the terminator after it. *)
Lemma sequence_matrix_rows (mb : mafBlock) (m : Z) :
  0 <= m -> m + 1 < UINT32_MOD ->
  Z.of_nat (List.length (seq_lines mb)) < UINT32_MOD ->
  (exists front last, mb_lines mb = front ++ [last] /\ is_seq last = true) ->
  Forall (fun ml => is_seq ml = true -> ml_sequence ml <> None) (mb_lines mb) ->
  maf_mafBlock_getSequenceMatrix mb (Z.of_nat (List.length (seq_lines mb))) m
  = Ok (map (matrix_row m) (seq_lines mb)).
Proof.
  intros Hm Hsmall Hc Hlast Hseq. unfold maf_mafBlock_getSequenceMatrix.
  rewrite Nat2Z.id.
  pose proof (matrix_loop_rows (mb_lines mb) false [] (List.length (seq_lines mb)) m
                (de_malloc (u32 (m + 1))) Hm Hsmall Hlast Hseq) as H.
  cbn [List.length app Nat.add] in H. change (Z.of_nat 0) with 0 in H.
  rewrite H; [|unfold seq_lines; lia|exact Hc].
  unfold seq_lines. rewrite Nat.sub_diag. cbn [repeat]. rewrite app_nil_r.
  reflexivity.
Qed.

Lemma sequence_matrix_rows_witness :
  maf_mafBlock_getSequenceMatrix sample_block 2 3
  = Ok (map (matrix_row 3) (seq_lines sample_block)).
Proof.
  apply (sequence_matrix_rows sample_block 3).
  - discriminate.
  - reflexivity.
  - reflexivity.
  - exists (List.firstn 3 (mb_lines sample_block)),
      (mkMafLine (Some "s mm4.chr6 10 5 - 100 AC-TA") 6 "s" (Some "mm4.chr6")
                 10 5 "-" 100 (Some "AC-TA")).
    split; reflexivity.
  - repeat constructor; discriminate.
Defined.

Example sequence_matrix_on_sample :
  maf_mafBlock_getSequenceMatrix sample_block 2 3
  = Ok [[Some "A"; Some "C"; Some "G"; Some NUL];
        [Some "A"; Some "C"; Some "-"; Some NUL]]%char.
Proof. vm_compute. reflexivity. Qed.

(** ** Reading a whole file and writing it back *)

Lemma string_app_assoc (a b c : string) : ((a ++ b) ++ c = a ++ (b ++ c))%string.
Proof. induction a as [|x a IH]; cbn; [|rewrite IH]; reflexivity. Qed.

Lemma string_app_nil_r (a : string) : (a ++ "" = a)%string.
Proof. induction a as [|x a IH]; cbn; [|rewrite IH]; reflexivity. Qed.

Lemma unlines_app (xs ys : list string) :
  unlines (xs ++ ys) = (unlines xs ++ unlines ys)%string.
Proof.
  induction xs as [|x xs IH]; cbn [app unlines]; [reflexivity|].
  rewrite IH, !string_app_assoc. reflexivity.
Qed.

Lemma write_lines_run (ls : list mafLine) :
  forall (rs : list string) (f : FILE) (n : Z),
    map ml_line ls = map Some rs ->
    write_lines f n ls
    = Ok (mkFILE (f_unread f) (f_written f ++ unlines rs)%string,
          bump n (List.length rs)).
Proof.
  induction ls as [|ml ls IH]; intros rs f n H; destruct rs as [|r rs];
    try discriminate H.
  - cbn. rewrite string_app_nil_r. destruct f; reflexivity.
  - cbn [map] in H. injection H as Hr Hrest.
    cbn [write_lines]. rewrite Hr. rewrite (IH rs _ _ Hrest).
    cbn [fprintf f_unread f_written unlines List.length bump].
    rewrite !string_app_assoc. reflexivity.
Qed.

Lemma writeBlock_run (mfa : mafFileApi) (f : FILE) (mb : mafBlock)
    (rs : list string) :
  mfa_mfp mfa = Some f ->
  raws mb = map Some rs ->
  maf_writeBlock mfa mb
  = Ok (mkMfa (u32 (bump (mfa_lineNumber mfa) (List.length rs) + 1))
              (Some (mkFILE (f_unread f)
                            (f_written f ++ unlines (rs ++ [""])%list)%string))
              (mfa_filename mfa) (mfa_lastLine mfa)).
Proof.
  intros Hf Hr. unfold maf_writeBlock. rewrite Hf.
  rewrite (write_lines_run (mb_lines mb) rs f _ Hr). cbn [bind fprintf f_unread f_written].
  rewrite unlines_app. cbn [unlines]. change ("" ++ LF ++ "")%string with LF.
  unfold fprintf. cbn [f_unread f_written]. rewrite string_app_assoc. reflexivity.
Qed.

Lemma write_blocks_run (mbs : list mafBlock) :
  forall (bs : list (list string)) (mfa : mafFileApi) (f : FILE),
    mfa_mfp mfa = Some f ->
    map raws mbs = map (map Some) bs ->
    exists n,
      write_blocks mfa mbs
      = Ok (mkMfa n
              (Some (mkFILE (f_unread f)
                       (f_written f
                        ++ unlines (flat_map (fun b => (b ++ [""])%list) bs))%string))
              (mfa_filename mfa) (mfa_lastLine mfa)).
Proof.
  induction mbs as [|mb mbs IH]; intros bs mfa f Hf H; destruct bs as [|b bs];
    try discriminate H.
  - exists (mfa_lineNumber mfa). cbn. rewrite string_app_nil_r.
    destruct mfa, f; cbn in *; subst; reflexivity.
  - cbn [map] in H. injection H as Hb Hrest.
    cbn [write_blocks]. rewrite (writeBlock_run mfa f mb b Hf Hb). cbn [bind].
    match goal with
    | |- context [write_blocks ?m mbs] =>
        destruct (IH bs m _ eq_refl Hrest) as (n & E)
    end.
    rewrite E.
    exists n. cbn [mfa_filename mfa_lastLine f_unread f_written flat_map].
    rewrite !unlines_app, !string_app_assoc. reflexivity.
Qed.

Lemma writeAll_run (mfa : mafFileApi) (f : FILE) (mbs : list mafBlock)
    (bs : list (list string)) :
  mfa_mfp mfa = Some f ->
  map raws mbs = map (map Some) bs ->
  exists n,
    maf_writeAll mfa mbs
    = Ok (mkMfa n None (mfa_filename mfa) (mfa_lastLine mfa),
          mkFILE (f_unread f) (f_written f ++ unlines (written_lines bs))%string).
Proof.
  intros Hf H. unfold maf_writeAll.
  destruct (write_blocks_run mbs bs mfa f Hf H) as (n & E). rewrite E.
  cbn [bind mfa_mfp mfa_lineNumber mfa_filename mfa_lastLine fprintf f_unread f_written].
  eexists. unfold written_lines. rewrite unlines_app. cbn [unlines].
  change ("" ++ LF ++ "")%string with LF.
  unfold fprintf. cbn [f_unread f_written].
  rewrite ?string_app_assoc. reflexivity.
Qed.

Lemma readBlock_block (mfa : mafFileApi) (f : FILE) (gap ls tail : list string) :
  mfa_lineNumber mfa <> 0 ->
  mfa_mfp mfa = Some f ->
  mfa_lastLine mfa = None ->
  f_unread f = gap ++ ls ++ tail ->
  Forall blank gap -> Forall body_line ls -> ls <> [] -> block_end tail ->
  maf_readBlock mfa
  = Ok (Some (extend (mkMafBlock [] (mfa_lineNumber mfa) 0 0)
                     (body_records (bump (mfa_lineNumber mfa) (List.length gap)) ls)),
        mkMfa (bump (mfa_lineNumber mfa)
                    (List.length gap + List.length ls + end_length tail))
              (Some (mkFILE (after_end tail) (f_written f)))
              (mfa_filename mfa) None).
Proof.
  intros Hn Hf Hl Hu Hgap Hls Hne Htail.
  rewrite (readBlock_body mfa Hn).
  rewrite (readBlockBody_run mfa f gap ls tail Hf Hl Hu Hgap Hls Hne Htail).
  cbn [bind]. destruct (mb_lines (extend _ _)) eqn:E; [|reflexivity].
  exfalso. revert E. apply extend_nonempty. right.
  apply body_records_nonempty. exact Hne.
Qed.

Lemma readBlock_cached (mfa : mafFileApi) (f : FILE) (l : string)
    (ls tail : list string) :
  mfa_lineNumber mfa <> 0 ->
  mfa_mfp mfa = Some f ->
  mfa_lastLine mfa = Some l ->
  line_ok l = true ->
  f_unread f = ls ++ tail ->
  Forall body_line ls -> block_end tail ->
  maf_readBlock mfa
  = Ok (Some (extend (mkMafBlock [parsed l (mfa_lineNumber mfa)]
                                 (mfa_lineNumber mfa) (u32 (0 + 1))
                                 (if is_seq (parsed l (mfa_lineNumber mfa))
                                  then u32 (0 + 1) else 0))
                     (body_records (mfa_lineNumber mfa) ls)),
        mkMfa (bump (mfa_lineNumber mfa) (List.length ls + end_length tail))
              (Some (mkFILE (after_end tail) (f_written f)))
              (mfa_filename mfa) None).
Proof.
  intros Hn Hf Hl Hok Hu Hls Htail.
  rewrite (readBlock_body mfa Hn).
  rewrite (readBlockBody_cached mfa f l ls tail Hf Hl Hok Hu Hls Htail).
  cbn [bind]. destruct (mb_lines (extend _ _)) eqn:E; [|reflexivity].
  exfalso. revert E. apply extend_nonempty. left. discriminate.
Qed.

Lemma readBlock_eof (mfa : mafFileApi) (f : FILE) :
  mfa_lineNumber mfa <> 0 ->
  mfa_mfp mfa = Some f ->
  mfa_lastLine mfa = None ->
  Forall blank (f_unread f) ->
  maf_readBlock mfa
  = Ok (None,
        mkMfa (bump (mfa_lineNumber mfa) (List.length (f_unread f)))
              (Some (mkFILE [] (f_written f))) (mfa_filename mfa) None).
Proof.
  intros Hn Hf Hl Hblank.
  rewrite (readBlock_body mfa Hn), (readBlockBody_eof mfa f Hf Hl Hblank).
  reflexivity.
Qed.

Lemma body_text_blocks_le (text : list string) (bs : list (list string)) :
  body_text text bs -> (List.length bs <= List.length text)%nat.
Proof.
  induction 1 as [gap _|gap b _ _ Hne|gap b sep rest bs _ _ Hne _ _ IH].
  - cbn. lia.
  - rewrite length_app. destruct b; [contradiction|]. cbn. lia.
  - rewrite !length_app. destruct b; [contradiction|]. cbn. lia.
Qed.

(** The reading loop over a body section returns its blocks. *)
Lemma readAll_loop_body_text (text : list string) (bs : list (list string)) :
  body_text text bs ->
  forall (fuel : nat) (mfa : mafFileApi) (f : FILE),
    mfa_mfp mfa = Some f -> f_unread f = text -> mfa_lastLine mfa = None ->
    0 < mfa_lineNumber mfa ->
    mfa_lineNumber mfa + Z.of_nat (List.length text) < UINT32_MOD ->
    (List.length bs < fuel)%nat ->
    exists blocks mfa',
      readAll_loop fuel mfa true = Some (Ok (blocks, mfa'))
      /\ map raws blocks = map (map Some) bs.
Proof.
  induction 1 as [gap Hgap|gap b Hgap Hb Hne|gap b sep rest bs Hgap Hb Hne Hsep _ IH];
    intros fuel mfa f Hf Hu Hl Hpos Hsmall Hfuel.
  - destruct fuel as [|fuel]; [cbn in Hfuel; lia|].
    cbn [readAll_loop]. rewrite (readBlock_eof mfa f); try assumption; try lia.
    + eexists _, _. split; reflexivity.
    + rewrite Hu. exact Hgap.
  - destruct fuel as [|[|fuel]]; [cbn in Hfuel; lia|cbn in Hfuel; lia|].
    cbn [readAll_loop].
    rewrite (readBlock_block mfa f gap b []); try assumption; try lia;
      [|rewrite app_nil_r; exact Hu|exact I].
    rewrite length_app in Hsmall.
    rewrite (readBlock_eof _ (mkFILE [] (f_written f)));
      [|cbn [mfa_lineNumber]; rewrite bump_small; cbn [end_length]; lia
       |reflexivity|reflexivity|constructor].
    eexists _, _. split; [reflexivity|].
    cbn [map]. rewrite raws_extend by exact Hb. reflexivity.
  - destruct fuel as [|fuel]; [cbn in Hfuel; lia|].
    cbn [readAll_loop].
    rewrite (readBlock_block mfa f gap b (sep :: rest)); try assumption; try lia.
    rewrite !length_app in Hsmall. cbn [List.length] in Hsmall, Hfuel.
    match goal with
    | |- context [readAll_loop fuel ?m true] =>
        assert (Hrec : exists blocks mfa',
                   readAll_loop fuel m true = Some (Ok (blocks, mfa'))
                   /\ map raws blocks = map (map Some) bs)
    end.
    { eapply IH.
      - reflexivity.
      - reflexivity.
      - reflexivity.
      - cbn [mfa_lineNumber end_length]. rewrite bump_small; lia.
      - cbn [mfa_lineNumber end_length after_end List.tl]. rewrite bump_small; lia.
      - lia. }
    destruct Hrec as (blocks & mfa' & E & Hraw). rewrite E.
    eexists _, _. split; [reflexivity|].
    cbn [map]. rewrite raws_extend by exact Hb. rewrite Hraw. reflexivity.
Qed.

Lemma starts_with_a_not_blank (l : string) :
  first_char l = "a"%char -> maf_isBlankLine l = false.
Proof.
  destruct l as [|c r]; cbn [first_char]; [discriminate|].
  intros ->. reflexivity.
Qed.

Lemma blank_not_a (l : string) :
  blank l -> Ascii.eqb (first_char l) "a" = false.
Proof.
  intros Hb. destruct (Ascii.eqb_spec (first_char l) "a") as [E|E]; [|reflexivity].
  apply starts_with_a_not_blank in E. unfold blank in Hb. congruence.
Qed.

Lemma blank_header_stop (l : string) : blank l -> header_stop l = true.
Proof. intros Hb. unfold header_stop. rewrite Hb. apply orb_true_r. Qed.

(** A body section whose first line is not blank starts with a block. *)
Lemma body_text_head (a : string) (rest : list string) (bs : list (list string)) :
  body_text (a :: rest) bs ->
  maf_isBlankLine a = false ->
  exists b' tail bs',
    bs = (a :: b') :: bs' /\ rest = b' ++ tail
    /\ Forall body_line b' /\ block_end tail
    /\ body_text (after_end tail) bs'.
Proof.
  intros H Ha.
  assert (Hgap : forall gap more, Forall blank gap -> gap ++ more = a :: rest -> gap = []).
  { intros [|g gap] more Hg E; [reflexivity|].
    cbn in E. injection E as -> _. inversion Hg as [|? ? Hb _]; subst.
    unfold blank in Hb. congruence. }
  remember (a :: rest) as text eqn:E.
  destruct H as [gap Hg|gap b Hg Hb Hne|gap b sep rest' bs' Hg Hb Hne Hsep Hrest].
  - exfalso. subst gap. inversion Hg as [|? ? Hb' _]; subst.
    unfold blank in Hb'. congruence.
  - pose proof (Hgap gap b Hg eq_refl) as ->. cbn [app] in E. subst b.
    inversion Hb as [|? ? _ Hb']; subst.
    exists rest, [], []. rewrite app_nil_r.
    repeat split; try assumption. constructor. constructor.
  - pose proof (Hgap gap _ Hg eq_refl) as ->. cbn [app] in E.
    destruct b as [|b0 b]; [contradiction|]. cbn [app] in E.
    injection E as -> <-.
    inversion Hb as [|? ? _ Hb']; subst.
    exists b, (sep :: rest'), bs'. repeat split; assumption.
Qed.

Lemma readBlock_header (mfa : mafFileApi) (f : FILE) (l1 : string)
    (hs : list string) (t : string) (rest : list string) :
  mfa_lineNumber mfa = 0 ->
  mfa_mfp mfa = Some f ->
  f_unread f = (l1 :: hs) ++ t :: rest ->
  valid_first l1 ->
  Forall (fun l => header_stop l = false) hs ->
  header_stop t = true ->
  maf_readBlock mfa
  = Ok (Some (mkMafBlock (header_lines (u32 (mfa_lineNumber mfa + 1)) (l1 :: hs))
                         (bump (u32 (mfa_lineNumber mfa + 1)) (S (List.length hs)))
                         (bump 0 (S (List.length hs))) 0),
        mkMfa (bump (u32 (mfa_lineNumber mfa + 1)) (S (List.length hs)))
              (Some (mkFILE rest (f_written f))) (mfa_filename mfa)
              (if Ascii.eqb (first_char t) "a" then Some t else mfa_lastLine mfa)).
Proof.
  intros Hn Hf Hu Hv Hhs Ht. unfold maf_readBlock. rewrite Hn at 1.
  cbn [Z.eqb].
  rewrite (readBlockHeader_run mfa f l1 hs t rest Hf Hu Hv Hhs Ht).
  reflexivity.
Qed.

(** Reading a well-formed file returns one block per block of the text,
    header first, each with the raw lines of its block. *)
Lemma readAll_maf_text (name : string) (content : list string)
    (bs : list (list string)) :
  maf_text content bs ->
  Z.of_nat (List.length content) < UINT32_MOD ->
  exists blocks mfa',
    maf_readAll (maf_newMfa name content) = Ok (blocks, mfa')
    /\ map raws blocks = map (map Some) bs.
Proof.
  intros Htext Hsmall.
  destruct Htext as [l1 hs sep rest bs Hv Hhs Hsep Hbody
                    |l1 hs a rest bs Hv Hhs Ha Hbody];
    unfold maf_readAll, maf_newMfa;
    cbn [app List.length] in Hsmall; rewrite length_app in Hsmall;
    cbn [List.length] in Hsmall.
  - rewrite (readBlock_header
               (mkMfa 0 (Some (mkFILE ((l1 :: hs) ++ sep :: rest) "")) name None)
               (mkFILE ((l1 :: hs) ++ sep :: rest) "")
               l1 hs sep rest eq_refl eq_refl eq_refl Hv Hhs
               (blank_header_stop sep Hsep)).
    cbn [bind mfa_lineNumber mfa_lastLine mfa_filename f_written].
    rewrite (blank_not_a sep Hsep).
    change (u32 (0 + 1)) with 1.
    rewrite bump_small by lia.
    destruct (readAll_loop_body_text rest bs Hbody
                (S (List.length rest))
                (mkMfa (1 + Z.of_nat (S (List.length hs)))
                       (Some (mkFILE rest "")) name None)
                (mkFILE rest ""))
      as (blocks & mfa' & E & Hraw);
      try reflexivity; cbn [mfa_lineNumber]; try lia.
    { apply body_text_blocks_le in Hbody. lia. }
    unfold pending. cbn [mfa_mfp mfa_lastLine f_unread].
    rewrite Nat.add_0_r, E. cbn [bind].
    eexists _, _. split; [reflexivity|].
    cbn [map]. rewrite Hraw. unfold raws at 1. cbn [mb_lines].
    rewrite header_lines_raw. reflexivity.
  - assert (Hstop : header_stop a = true)
      by (unfold header_stop; rewrite Ha; reflexivity).
    rewrite (readBlock_header
               (mkMfa 0 (Some (mkFILE ((l1 :: hs) ++ a :: rest) "")) name None)
               (mkFILE ((l1 :: hs) ++ a :: rest) "")
               l1 hs a rest eq_refl eq_refl eq_refl Hv Hhs Hstop).
    cbn [bind mfa_lineNumber mfa_lastLine mfa_filename f_written].
    rewrite Ha. change (Ascii.eqb "a" "a") with true. cbv iota.
    change (u32 (0 + 1)) with 1.
    rewrite bump_small by lia.
    destruct (body_text_head a rest bs Hbody (starts_with_a_not_blank a Ha))
      as (b' & tail & bs' & -> & -> & Hb' & Htail & Hrest).
    rewrite length_app in Hsmall.
    unfold pending. cbn [mfa_mfp mfa_lastLine f_unread].
    cbn [readAll_loop].
    rewrite (readBlock_cached _ (mkFILE (b' ++ tail) "") a b' tail);
      try reflexivity; try assumption;
      [|cbn [mfa_lineNumber]; lia|apply starts_with_a_line_ok; exact Ha].
    cbn [mfa_lineNumber mfa_filename f_written].
    assert (Htl : (List.length (after_end tail) + end_length tail
                   = List.length tail)%nat)
      by (destruct tail; cbn; lia).
    match goal with
    | |- context [readAll_loop ?fuel ?m true] =>
        destruct (readAll_loop_body_text (after_end tail) bs' Hrest fuel m
                    (mkFILE (after_end tail) ""))
          as (blocks & mfa' & E & Hraw)
    end; try reflexivity.
    { cbn [mfa_lineNumber]. rewrite bump_small; lia. }
    { cbn [mfa_lineNumber]. rewrite bump_small; lia. }
    { apply body_text_blocks_le in Hrest. rewrite length_app. lia. }
    rewrite E. cbn [bind].
    eexists _, _. split; [reflexivity|].
    cbn [map]. rewrite Hraw. f_equal.
    + unfold raws. cbn [mb_lines]. rewrite header_lines_raw. reflexivity.
    + f_equal. rewrite raws_extend by exact Hb'. unfold raws. cbn [mb_lines map].
      rewrite parsed_raw by (apply starts_with_a_line_ok; exact Ha). reflexivity.
Qed.

Lemma sample_file_well_formed : maf_text sample_file sample_file_blocks.
Proof.
  apply (maf_text_adjacent
           "track name=euArc visibility=pack"
           ["##maf version=1 scoring=tba.v8";
            "# tba.v8 (((human chimp) baboon) (mouse rat))"]
           "a score=23262.0"
           (List.skipn 4 sample_file) (List.tl sample_file_blocks)).
  - left. reflexivity.
  - repeat constructor.
  - reflexivity.
  - apply (body_text_block []
             ["a score=23262.0"; "s hg18.chr7 27578828 38 + 158545518 AAA-GGG";
              "s panTro1.chr6 28741140 38 - 161576975 AAA-GGG"]
             "" (List.skipn 7 sample_file)).
    + constructor.
    + repeat constructor.
    + discriminate.
    + reflexivity.
    + apply (body_text_last [" "; ""]
               ["a score=5062.0"; "s hg18.chr7 27699739 6 + 158545518 TAAAGA";
                "i hg18.chr7 N 0 C 0"]).
      * repeat constructor.
      * repeat constructor.
      * discriminate.
Qed.

(** C1: reading a well-formed file into its block list and writing that
    list at once: the read returns one block per block of the file, header
    first, with the raw lines of each block in order; the write returns,
    and the text it leaves is, line by line, the lines of each block in
    order followed by one empty line (so one empty line stands between two
    consecutive blocks, however many blank lines the file had there), and
    after the empty line of the last block one more empty line, which ends
    the text. *)
Theorem round_trip (name out : string) (content : list string)
    (bs : list (list string)) :
  maf_text content bs ->
  Z.of_nat (List.length content) < UINT32_MOD ->
  exists blocks mfa' mfa_w f_out,
    maf_readAll (maf_newMfa name content) = Ok (blocks, mfa')
    /\ map raws blocks = map (map Some) bs
    /\ maf_writeAll (maf_newMfa_w out) blocks = Ok (mfa_w, f_out)
    /\ mfa_mfp mfa_w = None
    /\ f_written f_out
       = unlines (flat_map (fun b => b ++ [""]) bs ++ [""]).
Proof.
  intros Htext Hsmall.
  destruct (readAll_maf_text name content bs Htext Hsmall)
    as (blocks & mfa' & Hread & Hraw).
  destruct (writeAll_run (maf_newMfa_w out) (mkFILE [] "") blocks bs eq_refl Hraw)
    as (n & Hwrite).
  eexists _, _, _, _. split; [exact Hread|]. split; [exact Hraw|].
  split; [exact Hwrite|]. split; reflexivity.
Qed.

Lemma round_trip_witness :
  exists blocks mfa' mfa_w f_out,
    maf_readAll (maf_newMfa "in.maf" sample_file) = Ok (blocks, mfa')
    /\ map raws blocks = map (map Some) sample_file_blocks
    /\ maf_writeAll (maf_newMfa_w "out.maf") blocks = Ok (mfa_w, f_out)
    /\ mfa_mfp mfa_w = None
    /\ f_written f_out
       = unlines (flat_map (fun b => b ++ [""]) sample_file_blocks ++ [""]).
Proof.
  apply (round_trip "in.maf" "out.maf" sample_file sample_file_blocks).
  - exact sample_file_well_formed.
  - reflexivity.
Defined.

(** ** The reading loop ends within its bound *)

Lemma body_loop_length (unread : list string) :
  forall (n : Z) (mb : mafBlock) (rest : list string) (n' : Z) (mb' : mafBlock),
    body_loop unread n mb = Ok (rest, n', mb') ->
    (List.length rest <= List.length unread)%nat
    /\ (mb_lines mb = [] -> mb_lines mb' <> [] ->
        (List.length rest < List.length unread)%nat).
Proof.
  induction unread as [|line unread IH]; intros n mb rest n' mb' H.
  - cbn in H. inversion H; subst. split; [lia|]. intros E1 E2. contradiction.
  - cbn [body_loop] in H. cbn [List.length]. destruct (maf_isBlankLine line).
    + destruct (mb_lines mb) eqn:E.
      * apply IH in H. destruct H as [H1 H2]. rewrite E in H2.
        split; [lia|]. intros _ Hne. specialize (H2 eq_refl Hne). lia.
      * inversion H; subst. split; [lia|]. intros E'. discriminate E'.
    + destruct (maf_newMafLineFromString line (u32 (n + 1))) as [ml| |];
        try discriminate.
      apply IH in H. destruct H as [H1 _]. split; intros; lia.
Qed.

Lemma header_loop_length (unread : list string) :
  forall (n : Z) (header : mafBlock) (line : string)
         (rest : list string) (n' : Z) (header' : mafBlock) (t : string),
    header_loop unread n header line = Ok (rest, n', header', t) ->
    (List.length rest <= List.length unread)%nat.
Proof.
  induction unread as [|l unread IH]; intros n header line rest n' header' t H;
    cbn [header_loop] in H;
    destruct (negb (Ascii.eqb (first_char line) "a") && negb (maf_isBlankLine line)).
  - discriminate.
  - inversion H; subst. lia.
  - apply IH in H. cbn [List.length]. lia.
  - inversion H; subst. lia.
Qed.

Lemma readBlockHeader_pending (mfa : mafFileApi) (header : mafBlock)
    (mfa' : mafFileApi) :
  maf_readBlockHeader mfa = Ok (header, mfa') ->
  (pending mfa' < pending mfa)%nat.
Proof.
  unfold maf_readBlockHeader, pending. intros H.
  destruct (mfa_mfp mfa) as [f|]; [|discriminate H].
  destruct (f_unread f) as [|line unread]; [discriminate H|].
  assert (Hfin : forall u n h l,
             (List.length u < List.length unread)%nat ->
             ('(unread, lineNumber, header, line) <- header_loop u n h l ;;
              Ok (header,
                  mkMfa lineNumber (Some (mkFILE unread (f_written f)))
                        (mfa_filename mfa)
                        (if Ascii.eqb (first_char line) "a" then Some line
                         else mfa_lastLine mfa)))
             = Ok (header, mfa') ->
             (match mfa_mfp mfa' with
              | Some f0 => List.length (f_unread f0)
              | None => 0
              end
              + match mfa_lastLine mfa' with Some _ => 1 | None => 0 end
              < List.length (line :: unread)
                + match mfa_lastLine mfa with Some _ => 1 | None => 0 end)%nat).
  { intros u n h l Hu E.
    destruct (header_loop u n h l) as [[[[r n0] h0] t]| |] eqn:El; try discriminate E.
    apply header_loop_length in El. cbn [bind] in E. inversion E; subst.
    cbn [mfa_mfp mfa_lastLine f_unread List.length].
    destruct (Ascii.eqb (first_char t) "a"), (mfa_lastLine mfa); lia. }
  destruct (has_prefix "track" line).
  - destruct unread as [|l2 unread2]; [discriminate H|].
    cbn [header_advance bind] in H.
    destruct (has_prefix "##maf" l2).
    + destruct unread2 as [|l3 unread3]; [discriminate H|].
      cbn [header_advance bind negb] in H.
      eapply Hfin; [|exact H]. cbn [List.length]. lia.
    + cbn [bind negb] in H. eapply Hfin; [|exact H]. cbn [List.length]. lia.
  - cbn [bind] in H. destruct (has_prefix "##maf" line).
    + destruct unread as [|l2 unread2]; [discriminate H|].
      cbn [header_advance bind negb] in H.
      eapply Hfin; [|exact H]. cbn [List.length]. lia.
    + cbn [bind negb] in H. discriminate H.
Qed.

Lemma readBlockBody_pending (mfa : mafFileApi) (mb : mafBlock)
    (mfa' : mafFileApi) :
  maf_readBlockBody mfa = Ok (mb, mfa') ->
  mb_lines mb <> [] ->
  (pending mfa' < pending mfa)%nat.
Proof.
  unfold maf_readBlockBody, pending. intros H Hne.
  destruct (mfa_lastLine mfa) as [l|].
  - destruct (maf_newMafLineFromString l (mfa_lineNumber mfa)) as [ml| |];
      try discriminate.
    cbn [bind] in H. destruct (mfa_mfp mfa) as [f|]; try discriminate.
    destruct (body_loop _ _ _) as [[[u n] b]| |] eqn:E; try discriminate.
    cbn [bind] in H. inversion H; subst.
    apply body_loop_length in E. destruct E as [E _].
    cbn [mfa_mfp mfa_lastLine f_unread]. lia.
  - cbn [bind] in H. destruct (mfa_mfp mfa) as [f|]; try discriminate.
    destruct (body_loop _ _ _) as [[[u n] b]| |] eqn:E; try discriminate.
    cbn [bind] in H. inversion H; subst.
    apply body_loop_length in E. destruct E as [_ E].
    cbn [mfa_mfp mfa_lastLine f_unread]. specialize (E eq_refl Hne). lia.
Qed.

(** Every block returned by [maf_readBlock] has used a line. *)
Lemma readBlock_pending (mfa : mafFileApi) (mb : mafBlock) (mfa' : mafFileApi) :
  maf_readBlock mfa = Ok (Some mb, mfa') ->
  (pending mfa' < pending mfa)%nat.
Proof.
  unfold maf_readBlock. intros H.
  destruct (mfa_lineNumber mfa =? 0).
  - destruct (maf_readBlockHeader mfa) as [[h m]| |] eqn:E; try discriminate H.
    cbn [bind] in H. apply readBlockHeader_pending in E.
    destruct (mb_lines h); inversion H; subst. exact E.
  - destruct (maf_readBlockBody mfa) as [[b m]| |] eqn:E; try discriminate H.
    cbn [bind] in H. destruct (mb_lines b) eqn:Eb; inversion H; subst.
    apply (readBlockBody_pending mfa mb mfa' E). rewrite Eb. discriminate.
Qed.

(** The bound used by [maf_readAll] is never reached. *)
Lemma readAll_loop_enough (fuel : nat) :
  forall (mfa : mafFileApi) (mb : bool),
    (pending mfa < fuel)%nat -> readAll_loop fuel mfa mb <> None.
Proof.
  induction fuel as [|fuel IH]; intros mfa mb Hfuel; [lia|].
  cbn [readAll_loop].
  destruct (maf_readBlock mfa) as [[[tmp|] mfa']| |] eqn:E; try discriminate.
  destruct mb; [|discriminate].
  apply readBlock_pending in E.
  specialize (IH mfa' true). 
  destruct (readAll_loop fuel mfa' true) as [[[rest m]| |]|];
    try discriminate.
  apply IH. lia.
Qed.

Lemma readAll_never_undefined_by_bound (mfa : mafFileApi) (mb : bool) :
  readAll_loop (S (pending mfa)) mfa mb <> None.
Proof. apply readAll_loop_enough. lia. Qed.

(** * Further properties *)

(** ** Line parser: missing fields and the records it builds *)

Lemma u32_bounds (z : Z) : 0 <= u32 z < UINT32_MOD.
Proof. unfold u32, UINT32_MOD. apply Z.mod_pos_bound. reflexivity. Qed.

Lemma u32_add_idem (a b : Z) : u32 (u32 a + b) = u32 (a + b).
Proof. unfold u32. apply Zplus_mod_idemp_l. Qed.

Lemma s_line_has_first_token (s : string) :
  first_char s = "s"%char -> strtok s <> None.
Proof.
  destruct s as [|c r]; cbn [first_char]; [discriminate|]. intros ->.
  unfold strtok. cbn [skip_delims]. change (is_delim "s") with false. cbv iota.
  discriminate.
Qed.

(** X4: on an [s] line the parser fails at the first field that is
    missing, with the message that names it: field 1 is the name, 2 the
    start, 3 the length, 4 the strand, 5 the source length, 6 the sequence.
    With all seven fields and a strand that starts with [+] or [-] it
    returns a record.  The failure carries the line number given by the
    caller. *)
Theorem missing_field_errors (s : string) (n : Z) :
  first_char s = "s"%char ->
  (nth_field 1 s = None ->
   maf_newMafLineFromString s n = Exit (BadFormat n (missing_field_message 1)))
  /\ (nth_field 1 s <> None -> nth_field 2 s = None ->
      maf_newMafLineFromString s n = Exit (BadFormat n (missing_field_message 2)))
  /\ (nth_field 2 s <> None -> nth_field 3 s = None ->
      maf_newMafLineFromString s n = Exit (BadFormat n (missing_field_message 3)))
  /\ (nth_field 3 s <> None -> nth_field 4 s = None ->
      maf_newMafLineFromString s n = Exit (BadFormat n (missing_field_message 4)))
  /\ (forall tkn, nth_field 4 s = Some tkn -> strand_char_ok tkn ->
      nth_field 5 s = None ->
      maf_newMafLineFromString s n = Exit (BadFormat n (missing_field_message 5)))
  /\ (forall tkn, nth_field 4 s = Some tkn -> strand_char_ok tkn ->
      nth_field 5 s <> None -> nth_field 6 s = None ->
      maf_newMafLineFromString s n = Exit (BadFormat n (missing_field_message 6)))
  /\ (forall tkn, nth_field 4 s = Some tkn -> strand_char_ok tkn ->
      nth_field 6 s <> None ->
      exists ml, maf_newMafLineFromString s n = Ok ml).
Proof.
  intros Hs. pose proof (s_line_has_first_token s Hs) as Htok.
  unfold maf_newMafLineFromString, strand_char_ok. cbn [ml_type nth_field].
  rewrite Hs, Ascii.eqb_refl. cbn [negb missing_field_message].
  split_fields; try congruence.
  all: repeat split; intros; try congruence; try discriminate.
  all: repeat match goal with
         | H : Some _ = Some _ |- _ => injection H as H; subst
         end.
  all: repeat match goal with
         | H : first_char ?t = _ \/ first_char ?t = _ |- _ =>
             destruct H as [H|H]; rewrite H
         end.
  all: rewrite ?Ascii.eqb_refl;
    change (Ascii.eqb "+" "-") with false; change (Ascii.eqb "-" "+") with false;
    cbn [negb andb]; try reflexivity; eauto.
Qed.

Lemma missing_field_errors_witness :
  maf_newMafLineFromString "s hg18.chr7 27578828 38" 12
  = Exit (BadFormat 12
            "Unable to separate line on tabs and spaces at strand field.").
Proof.
  destruct (missing_field_errors "s hg18.chr7 27578828 38" 12 eq_refl)
    as (_ & _ & _ & H & _).
  apply H; [discriminate|reflexivity].
Defined.

(** The record of an [s] line that parses. *)
Lemma parse_sequence_fields (s : string) (n : Z) (ml : mafLine) :
  maf_newMafLineFromString s n = Ok ml ->
  first_char s = "s"%char ->
  ml_line ml = Some s /\ ml_lineNumber ml = n /\ ml_type ml = "s"%char
  /\ (ml_strand ml = "+"%char \/ ml_strand ml = "-"%char)
  /\ ml_species ml <> None /\ ml_sequence ml <> None
  /\ fields_in_range ml.
Proof.
  intros H Hs. unfold maf_newMafLineFromString in H. cbn [ml_type] in H.
  rewrite Hs, Ascii.eqb_refl in H. cbn [negb] in H.
  split_fields; try discriminate.
  all: match type of H with
       | context [Ascii.eqb (first_char ?t) "-"] =>
           destruct (Ascii.eqb_spec (first_char t) "-") as [Em|Em];
           destruct (Ascii.eqb_spec (first_char t) "+") as [Ep|Ep]
       end; cbn [negb andb] in H; try discriminate; inversion H; subst;
    cbn; unfold fields_in_range; cbn;
    repeat split; try discriminate; try apply u32_bounds; auto.
Qed.

(** ** Header read: failures and what the header block holds *)

Lemma bump_succ (n : Z) (k : nat) : bump n (S k) = u32 (bump n k + 1).
Proof.
  replace (S k) with (k + 1)%nat by lia. rewrite bump_app. reflexivity.
Qed.

Lemma bump_u32 (a : Z) (k : nat) : bump (u32 a) k = u32 (a + Z.of_nat k).
Proof.
  revert a. induction k as [|k IH]; intros a.
  - cbn [bump]. rewrite Z.add_0_r. reflexivity.
  - cbn [bump]. rewrite u32_add_idem, IH. f_equal. lia.
Qed.

Lemma header_loop_no_stop (unread : list string) :
  forall (n : Z) (header : mafBlock) (line : string),
    Forall (fun l => header_stop l = false) (line :: unread) ->
    header_loop unread n header line = Exit PrematureEnd.
Proof.
  induction unread as [|l unread IH]; intros n header line H;
    inversion H as [|? ? Hline Hrest]; subst;
    cbn [header_loop]; rewrite header_stop_loop_test, Hline; cbn [negb].
  - reflexivity.
  - apply IH. exact Hrest.
Qed.

(** X5: the three ways a header read fails.  An empty stream is a
    premature end; a first line with neither marker is the missing-header
    failure, which names the file; a header whose lines never reach a blank
    line or a line starting with [a] is a premature end. *)
Theorem header_failures (mfa : mafFileApi) (f : FILE) :
  mfa_mfp mfa = Some f ->
  (f_unread f = [] -> maf_readBlockHeader mfa = Exit PrematureEnd)
  /\ (forall l1 rest,
         f_unread f = l1 :: rest ->
         has_prefix "track" l1 = false -> has_prefix "##maf" l1 = false ->
         maf_readBlockHeader mfa = Exit (NoValidHeader (mfa_filename mfa)))
  /\ (forall l1 hs,
         f_unread f = l1 :: hs -> valid_first l1 ->
         Forall (fun l => header_stop l = false) hs ->
         maf_readBlockHeader mfa = Exit PrematureEnd).
Proof.
  intros Hf. split; [|split].
  - intros Hu. unfold maf_readBlockHeader. rewrite Hf, Hu. reflexivity.
  - intros l1 rest Hu Ht Hm. unfold maf_readBlockHeader.
    rewrite Hf, Hu, Ht. cbn [bind]. rewrite Hm. reflexivity.
  - intros l1 hs Hu Hv Hhs. destruct hs as [|l2 hs].
    + unfold maf_readBlockHeader. rewrite Hf, Hu.
      destruct (has_prefix "track" l1) eqn:Et.
      * reflexivity.
      * destruct Hv as [Hv|Hv]; [congruence|]. cbn [bind]. rewrite Hv. reflexivity.
    + rewrite (readBlockHeader_as_loop mfa f l1 l2 hs Hf Hu Hv).
      rewrite (header_loop_no_stop hs _ _ l2 Hhs). reflexivity.
Qed.

Lemma header_failures_witness :
  maf_readBlockHeader (maf_newMfa "broken.maf" ["a score=1.0"; "s hg18 0 1 + 9 A"])
  = Exit (NoValidHeader "broken.maf")
  /\ maf_readBlockHeader (maf_newMfa "short.maf" ["##maf version=1"; "# note"])
     = Exit PrematureEnd.
Proof.
  split.
  - destruct (header_failures
                (maf_newMfa "broken.maf" ["a score=1.0"; "s hg18 0 1 + 9 A"])
                (mkFILE ["a score=1.0"; "s hg18 0 1 + 9 A"] "") eq_refl)
      as (_ & H & _).
    apply (H "a score=1.0" ["s hg18 0 1 + 9 A"]); reflexivity.
  - destruct (header_failures
                (maf_newMfa "short.maf" ["##maf version=1"; "# note"])
                (mkFILE ["##maf version=1"; "# note"] "") eq_refl)
      as (_ & _ & H).
    apply (H "##maf version=1" ["# note"]);
      [reflexivity|right; reflexivity|repeat constructor].
Defined.

Lemma header_loop_invariant (unread : list string) :
  forall (n : Z) (header : mafBlock) (line : string)
         (rest : list string) (n' : Z) (header' : mafBlock) (t : string),
    header_loop unread n header line = Ok (rest, n', header', t) ->
    exists more,
      mb_lines header' = mb_lines header ++ more
      /\ Forall header_record more
      /\ n' = bump n (List.length more)
      /\ mb_numberOfLines header'
         = bump (mb_numberOfLines header) (List.length more)
      /\ mb_numberOfSequences header' = mb_numberOfSequences header
      /\ (mb_lineNumber header = n -> mb_lineNumber header' = n')
      /\ header_stop t = true.
Proof.
  induction unread as [|l unread IH]; intros n header line rest n' header' t H;
    cbn [header_loop] in H; rewrite header_stop_loop_test in H;
    destruct (header_stop line) eqn:Hstop; cbn [negb] in H; try discriminate H.
  - inversion H; subst. exists []. rewrite app_nil_r. cbn. repeat split; auto.
  - inversion H; subst. exists []. rewrite app_nil_r. cbn. repeat split; auto.
  - apply IH in H. destruct H as (more & Hl & Hrec & Hn & Hc & Hs & Hln & Ht).
    cbn [mb_lines mb_numberOfLines mb_numberOfSequences mb_lineNumber set_lines] in *.
    exists (header_line line n :: more). rewrite Hl, <- app_assoc.
    cbn [List.length bump app]. repeat split; auto.
    constructor; [exists line, n; reflexivity|exact Hrec].
Qed.

(** What a header read leaves in its block and in the session. *)
Lemma readBlockHeader_invariants (mfa : mafFileApi) (header : mafBlock)
    (mfa' : mafFileApi) :
  maf_readBlockHeader mfa = Ok (header, mfa') ->
  mb_lines header <> []
  /\ Forall header_record (mb_lines header)
  /\ mb_numberOfLines header = u32 (Z.of_nat (List.length (mb_lines header)))
  /\ mb_numberOfSequences header = 0
  /\ mb_lineNumber header = mfa_lineNumber mfa'
  /\ mfa_lineNumber mfa'
     = bump (mfa_lineNumber mfa) (S (List.length (mb_lines header))).
Proof.
  unfold maf_readBlockHeader. intros H.
  destruct (mfa_mfp mfa) as [f|]; [|discriminate H].
  destruct (f_unread f) as [|line unread]; [discriminate H|].
  assert (Hfin : forall u n h l (k : string -> option string),
             mb_lines h <> [] -> Forall header_record (mb_lines h) ->
             mb_numberOfLines h = u32 (Z.of_nat (List.length (mb_lines h))) ->
             mb_numberOfSequences h = 0 -> mb_lineNumber h = n ->
             n = bump (mfa_lineNumber mfa) (S (List.length (mb_lines h))) ->
             ('(unread, lineNumber, header, line) <- header_loop u n h l ;;
              Ok (header,
                  mkMfa lineNumber (Some (mkFILE unread (f_written f)))
                        (mfa_filename mfa) (k line)))
             = Ok (header, mfa') ->
             mb_lines header <> []
             /\ Forall header_record (mb_lines header)
             /\ mb_numberOfLines header
                = u32 (Z.of_nat (List.length (mb_lines header)))
             /\ mb_numberOfSequences header = 0
             /\ mb_lineNumber header = mfa_lineNumber mfa'
             /\ mfa_lineNumber mfa'
                = bump (mfa_lineNumber mfa) (S (List.length (mb_lines header)))).
  { intros u n h l k Hne Hrec Hc Hs Hln Hn E.
    destruct (header_loop u n h l) as [[[[r n0] h0] t]| |] eqn:El; try discriminate E.
    apply header_loop_invariant in El.
    destruct El as (more & Hl & Hmore & Hn0 & Hc0 & Hs0 & Hln0 & _).
    cbn [bind] in E. inversion E; subst h0 mfa'. cbn [mfa_lineNumber].
    rewrite Hl. repeat split.
    - intros C. apply app_eq_nil in C. tauto.
    - apply Forall_app. tauto.
    - rewrite Hc0, Hc, bump_u32, length_app. f_equal. lia.
    - congruence.
    - auto.
    - rewrite Hn0, Hn, length_app.
      replace (S (List.length (mb_lines h) + List.length more))
        with (S (List.length (mb_lines h)) + List.length more)%nat by lia.
      rewrite bump_app. reflexivity. }
  destruct (has_prefix "track" line).
  - destruct unread as [|l2 unread2]; [discriminate H|].
    cbn [header_advance bind] in H.
    destruct (has_prefix "##maf" l2).
    + destruct unread2 as [|l3 unread3]; [discriminate H|].
      cbn [header_advance bind negb set_lines mb_lines mb_lineNumber
           mb_numberOfLines mb_numberOfSequences maf_newMafBlock] in H.
      eapply (Hfin _ _ _ _ (fun line => if Ascii.eqb (first_char line) "a"
                                          then Some line else mfa_lastLine mfa));
        [| | | | | |exact H];
        cbn [mb_lines mb_numberOfLines mb_numberOfSequences mb_lineNumber List.length bump].
      * discriminate.
      * repeat constructor; eexists _, _; reflexivity.
      * rewrite u32_add_idem. reflexivity.
      * reflexivity.
      * reflexivity.
      * reflexivity.
    + cbn [bind negb set_lines mb_lines mb_lineNumber
           mb_numberOfLines mb_numberOfSequences maf_newMafBlock] in H.
      eapply (Hfin _ _ _ _ (fun line => if Ascii.eqb (first_char line) "a"
                                          then Some line else mfa_lastLine mfa));
        [| | | | | |exact H];
        cbn [mb_lines mb_numberOfLines mb_numberOfSequences mb_lineNumber List.length bump].
      * discriminate.
      * repeat constructor; eexists _, _; reflexivity.
      * reflexivity.
      * reflexivity.
      * reflexivity.
      * reflexivity.
  - cbn [bind] in H. destruct (has_prefix "##maf" line).
    + destruct unread as [|l2 unread2]; [discriminate H|].
      cbn [header_advance bind negb set_lines mb_lines mb_lineNumber
           mb_numberOfLines mb_numberOfSequences maf_newMafBlock] in H.
      eapply (Hfin _ _ _ _ (fun line => if Ascii.eqb (first_char line) "a"
                                          then Some line else mfa_lastLine mfa));
        [| | | | | |exact H];
        cbn [mb_lines mb_numberOfLines mb_numberOfSequences mb_lineNumber List.length bump].
      * discriminate.
      * repeat constructor; eexists _, _; reflexivity.
      * reflexivity.
      * reflexivity.
      * reflexivity.
      * reflexivity.
    + cbn [bind negb] in H. discriminate H.
Qed.

Lemma header_loop_size (unread : list string) :
  forall (n : Z) (header : mafBlock) (line : string)
         (rest : list string) (n' : Z) (header' : mafBlock) (t : string),
    header_loop unread n header line = Ok (rest, n', header', t) ->
    (List.length (mb_lines header') + List.length rest
     = List.length (mb_lines header) + List.length unread)%nat.
Proof.
  induction unread as [|l unread IH]; intros n header line rest n' header' t H;
    cbn [header_loop] in H;
    destruct (negb (Ascii.eqb (first_char line) "a") && negb (maf_isBlankLine line)).
  - discriminate.
  - inversion H; subst. reflexivity.
  - apply IH in H. cbn [mb_lines set_lines] in H. rewrite length_app in H.
    cbn [List.length] in *. lia.
  - inversion H; subst. reflexivity.
Qed.

Lemma readBlockHeader_size (mfa : mafFileApi) (header : mafBlock)
    (mfa' : mafFileApi) :
  maf_readBlockHeader mfa = Ok (header, mfa') ->
  (List.length (mb_lines header) + pending mfa' <= pending mfa)%nat.
Proof.
  unfold maf_readBlockHeader, pending. intros H.
  destruct (mfa_mfp mfa) as [f|]; [|discriminate H].
  destruct (f_unread f) as [|line unread]; [discriminate H|].
  assert (Hfin : forall u n h l,
             (List.length (mb_lines h) + List.length u < List.length (line :: unread))%nat ->
             ('(unread, lineNumber, header, line) <- header_loop u n h l ;;
              Ok (header,
                  mkMfa lineNumber (Some (mkFILE unread (f_written f)))
                        (mfa_filename mfa)
                        (if Ascii.eqb (first_char line) "a" then Some line
                         else mfa_lastLine mfa)))
             = Ok (header, mfa') ->
             (List.length (mb_lines header)
              + (match mfa_mfp mfa' with
                 | Some f0 => List.length (f_unread f0)
                 | None => 0
                 end
                 + match mfa_lastLine mfa' with Some _ => 1 | None => 0 end)
              <= List.length (line :: unread)
                 + match mfa_lastLine mfa with Some _ => 1 | None => 0 end)%nat).
  { intros u n h l Hu E.
    destruct (header_loop u n h l) as [[[[r n0] h0] t]| |] eqn:El; try discriminate E.
    apply header_loop_size in El. cbn [bind] in E. inversion E; subst.
    cbn [mfa_mfp mfa_lastLine f_unread].
    destruct (Ascii.eqb (first_char t) "a"), (mfa_lastLine mfa); lia. }
  destruct (has_prefix "track" line).
  - destruct unread as [|l2 unread2]; [discriminate H|].
    cbn [header_advance bind] in H.
    destruct (has_prefix "##maf" l2).
    + destruct unread2 as [|l3 unread3]; [discriminate H|].
      cbn [header_advance bind negb] in H.
      eapply Hfin; [|exact H]. cbn [List.length mb_lines set_lines maf_newMafBlock]. lia.
    + cbn [bind negb] in H. eapply Hfin; [|exact H].
      cbn [List.length mb_lines set_lines maf_newMafBlock]. lia.
  - cbn [bind] in H. destruct (has_prefix "##maf" line).
    + destruct unread as [|l2 unread2]; [discriminate H|].
      cbn [header_advance bind negb] in H.
      eapply Hfin; [|exact H]. cbn [List.length mb_lines set_lines maf_newMafBlock]. lia.
    + cbn [bind negb] in H. discriminate H.
Qed.

(** X6: every block a header read returns holds at least one record, all
    of them header records; its line count is the number of its records, its
    sequence count is 0, and its line number is the session's counter after
    the read, which has moved by one for each header line and one for the
    line that ended the header.  Every record stands for a line taken from
    the stream: what is left to read has shrunk by at least the number of
    records. *)
Theorem header_block_invariants (mfa : mafFileApi) (header : mafBlock)
    (mfa' : mafFileApi) :
  maf_readBlockHeader mfa = Ok (header, mfa') ->
  mb_lines header <> []
  /\ Forall header_record (mb_lines header)
  /\ mb_numberOfLines header = u32 (Z.of_nat (List.length (mb_lines header)))
  /\ mb_numberOfSequences header = 0
  /\ mb_lineNumber header = mfa_lineNumber mfa'
  /\ mfa_lineNumber mfa'
     = bump (mfa_lineNumber mfa) (S (List.length (mb_lines header)))
  /\ (List.length (mb_lines header) + pending mfa' <= pending mfa)%nat.
Proof.
  intros H.
  destruct (readBlockHeader_invariants mfa header mfa' H)
    as (H1 & H2 & H3 & H4 & H5 & H6).
  pose proof (readBlockHeader_size mfa header mfa' H) as H7.
  repeat split; assumption.
Qed.

Lemma header_block_invariants_witness :
  mb_numberOfSequences
    (mkMafBlock [header_line "track name=euArchontoglires" 1] 2 1 0) = 0.
Proof.
  apply (header_block_invariants
           (maf_newMfa "sample.maf" sample_track_then_a)
           (mkMafBlock [header_line "track name=euArchontoglires" 1] 2 1 0)
           (mkMfa 2 (Some (mkFILE ["s hg18.chr7 10 5 + 100 ACGTA"] ""))
                  "sample.maf" (Some "a score=1.0"))).
  vm_compute. reflexivity.
Defined.

(** ** Body read: counters and malformed lines *)

Lemma count_sequences_u32 (ls : list mafLine) :
  forall a : Z,
    count_sequences ls (u32 a)
    = u32 (a + Z.of_nat (List.length (filter is_seq ls))).
Proof.
  induction ls as [|ml ls IH]; intros a; cbn [count_sequences filter].
  - cbn [List.length]. rewrite Z.add_0_r. reflexivity.
  - destruct (is_seq ml).
    + rewrite u32_add_idem, IH. cbn [List.length]. f_equal. lia.
    + apply IH.
Qed.

Lemma filter_is_seq_snoc (ls : list mafLine) (ml : mafLine) :
  List.length (filter is_seq (ls ++ [ml]))
  = (List.length (filter is_seq ls) + if is_seq ml then 1 else 0)%nat.
Proof.
  rewrite filter_app, length_app. cbn [filter]. destruct (is_seq ml); reflexivity.
Qed.

(** What the two counters of a block are to the list of its records. *)
Lemma block_append_counts (mb : mafBlock) (ml : mafLine) :
  mb_numberOfLines mb = u32 (Z.of_nat (List.length (mb_lines mb))) ->
  mb_numberOfSequences mb = u32 (Z.of_nat (List.length (seq_lines mb))) ->
  mb_numberOfLines (block_append mb ml)
  = u32 (Z.of_nat (List.length (mb_lines (block_append mb ml))))
  /\ mb_numberOfSequences (block_append mb ml)
     = u32 (Z.of_nat (List.length (seq_lines (block_append mb ml)))).
Proof.
  intros Hl Hs. unfold seq_lines in *. cbn [block_append mb_lines mb_numberOfLines
    mb_numberOfSequences]. rewrite filter_is_seq_snoc, length_app. cbn [List.length].
  rewrite Hl, Hs. split.
  - rewrite u32_add_idem. f_equal. lia.
  - destruct (is_seq ml).
    + rewrite u32_add_idem. f_equal. lia.
    + f_equal. lia.
Qed.

Lemma body_loop_counts (unread : list string) :
  forall (n : Z) (mb : mafBlock) (rest : list string) (n' : Z) (mb' : mafBlock),
    body_loop unread n mb = Ok (rest, n', mb') ->
    mb_numberOfLines mb = u32 (Z.of_nat (List.length (mb_lines mb))) ->
    mb_numberOfSequences mb = u32 (Z.of_nat (List.length (seq_lines mb))) ->
    mb_numberOfLines mb' = u32 (Z.of_nat (List.length (mb_lines mb')))
    /\ mb_numberOfSequences mb' = u32 (Z.of_nat (List.length (seq_lines mb'))).
Proof.
  induction unread as [|line unread IH]; intros n mb rest n' mb' H Hl Hs.
  - cbn in H. inversion H; subst. auto.
  - cbn [body_loop] in H. destruct (maf_isBlankLine line).
    + destruct (mb_lines mb) eqn:E.
      * rewrite <- E in Hl. eapply IH; eassumption.
      * rewrite <- E in Hl. inversion H; subst. auto.
    + destruct (maf_newMafLineFromString line (u32 (n + 1))) as [ml| |];
        try discriminate.
      destruct (block_append_counts mb ml Hl Hs) as [Hl' Hs'].
      eapply IH; eassumption.
Qed.

Lemma readBlockBody_counts (mfa : mafFileApi) (mb : mafBlock)
    (mfa' : mafFileApi) :
  maf_readBlockBody mfa = Ok (mb, mfa') ->
  mb_numberOfLines mb = u32 (Z.of_nat (List.length (mb_lines mb)))
  /\ mb_numberOfSequences mb = u32 (Z.of_nat (List.length (seq_lines mb)))
  /\ mfa_lastLine mfa' = None.
Proof.
  intros H.
  unfold maf_readBlockBody in H.
  destruct (mfa_lastLine mfa) as [l|].
  - destruct (maf_newMafLineFromString l (mfa_lineNumber mfa)) as [ml| |];
      try discriminate.
    cbn [bind] in H. destruct (mfa_mfp mfa) as [f|]; try discriminate.
    destruct (body_loop _ _ _) as [[[u n] b]| |] eqn:E; try discriminate.
    cbn [bind] in H. inversion H; subst.
    apply body_loop_counts in E.
    + destruct E as [E1 E2]. auto.
    + reflexivity.
    + unfold seq_lines. cbn. destruct (is_seq ml); reflexivity.
  - cbn [bind] in H. destruct (mfa_mfp mfa) as [f|]; try discriminate.
    destruct (body_loop _ _ _) as [[[u n] b]| |] eqn:E; try discriminate.
    cbn [bind] in H. inversion H; subst.
    apply body_loop_counts in E; [|reflexivity|reflexivity].
    destruct E as [E1 E2]. auto.
Qed.

(** X7: in every block a body read returns, the line count is the number
    of its records and the sequence count is the number of its [s] records
    (both as [uint32_t]), which is also what a recount with
    [maf_mafLine_getNumberOfSequences] gives; the session's cached line is
    empty afterwards.  A block of fewer than 2^32 - 1 records therefore
    meets what the array builders expect. *)
Theorem body_block_invariants (mfa : mafFileApi) (mb : mafBlock)
    (mfa' : mafFileApi) :
  maf_readBlockBody mfa = Ok (mb, mfa') ->
  mb_numberOfLines mb = u32 (Z.of_nat (List.length (mb_lines mb)))
  /\ mb_numberOfSequences mb = u32 (Z.of_nat (List.length (seq_lines mb)))
  /\ maf_mafLine_getNumberOfSequences (mb_lines mb) = mb_numberOfSequences mb
  /\ mfa_lastLine mfa' = None
  /\ (Z.of_nat (List.length (mb_lines mb)) < UINT32_MOD - 1 -> counted mb).
Proof.
  intros H.
  destruct (readBlockBody_counts mfa mb mfa' H) as (Hl & Hs & Hlast).
  split; [exact Hl|]. split; [exact Hs|]. split.
  - unfold maf_mafLine_getNumberOfSequences.
    change 0 with (u32 0) at 1. rewrite count_sequences_u32, Hs. reflexivity.
  - split; [exact Hlast|]. intros Hsmall.
    assert (Hle : (List.length (seq_lines mb) <= List.length (mb_lines mb))%nat)
      by apply filter_length_le.
    unfold counted. rewrite Hs. rewrite u32_small by (unfold UINT32_MOD in *; lia).
    split; [reflexivity|lia].
Qed.

Lemma body_block_invariants_witness :
  mb_numberOfSequences sample_block_ends_with_i
  = u32 (Z.of_nat (List.length (seq_lines sample_block_ends_with_i))).
Proof.
  destruct (body_block_invariants
              (mkMfa 2 (Some (mkFILE ["a score=1.0"; "s hg18.chr7 10 5 + 100 ACGTA";
                                      "i hg18.chr7 N 0 C 0"; ""] ""))
                     "sample.maf" None)
              sample_block_ends_with_i
              (mkMfa 6 (Some (mkFILE [] "")) "sample.maf" None))
    as (_ & H & _); [vm_compute; reflexivity|exact H].
Defined.

Lemma parse_exit_line_number (s : string) (n : Z) (e : failure) :
  maf_newMafLineFromString s n = Exit e ->
  exists errorMessage, e = BadFormat n errorMessage.
Proof.
  unfold maf_newMafLineFromString. cbn [ml_type].
  destruct (negb (Ascii.eqb (first_char s) "s")); [discriminate|].
  intros H. split_fields; try (inversion H; eauto; fail);
    destruct (negb _ && negb _); inversion H; eauto.
Qed.

(** X8: a body read that meets a non-blank line the parser refuses, after
    blank lines and well-formed lines, ends in the malformed-line failure;
    the number it reports is the position of that line, the session's
    counter at the start plus the number of lines read up to and including
    it.  No block is returned for the lines read before. *)
Theorem body_read_malformed_line (mfa : mafFileApi) (f : FILE)
    (gap ls : list string) (bad : string) (rest : list string) :
  mfa_mfp mfa = Some f ->
  mfa_lastLine mfa = None ->
  f_unread f = gap ++ ls ++ bad :: rest ->
  Forall blank gap -> Forall body_line ls ->
  maf_isBlankLine bad = false -> line_ok bad = false ->
  exists errorMessage,
    maf_readBlockBody mfa
    = Exit (BadFormat (bump (mfa_lineNumber mfa)
                            (List.length gap + List.length ls + 1))
                      errorMessage).
Proof.
  intros Hf Hl Hu Hgap Hls Hnb Hbad.
  unfold maf_readBlockBody. rewrite Hl, Hf, Hu. cbn [bind].
  destruct ls as [|l ls].
  - cbn [app]. rewrite (body_loop_blanks gap _ _ _ Hgap) by reflexivity.
    cbn [body_loop List.length]. rewrite Hnb.
    rewrite Nat.add_0_r, bump_app. cbn [bump].
    destruct (maf_newMafLineFromString bad _) as [ml| |] eqn:E.
    + exfalso. unfold line_ok in Hbad.
      rewrite (parse_renumber bad _ 0 ml E) in Hbad. discriminate.
    + apply parse_exit_line_number in E. destruct E as (msg & ->).
      exists msg. reflexivity.
    + exfalso. exact (parse_never_undefined _ _ E).
  - rewrite (body_loop_blanks gap _ _ _ Hgap) by reflexivity.
    rewrite (body_loop_lines (l :: ls) (bad :: rest) _ _ Hls).
    cbn [body_loop]. rewrite Hnb.
    replace (List.length gap + List.length (l :: ls) + 1)%nat
      with (List.length gap + (List.length (l :: ls) + 1))%nat by lia.
    rewrite !bump_app. cbn [bump].
    destruct (maf_newMafLineFromString bad _) as [ml| |] eqn:E.
    + exfalso. unfold line_ok in Hbad.
      rewrite (parse_renumber bad _ 0 ml E) in Hbad. discriminate.
    + apply parse_exit_line_number in E. destruct E as (msg & ->).
      exists msg. reflexivity.
    + exfalso. exact (parse_never_undefined _ _ E).
Qed.

Lemma body_read_malformed_line_witness :
  exists errorMessage,
    maf_readBlockBody
      (mkMfa 2 (Some (mkFILE [""; "a score=1.0"; "s hg18.chr7 10 5 + 100 ACGTA";
                              "s mm4.chr6 10 5 -"; "s rn3.chr4 1 2 + 9 AC"] ""))
             "sample.maf" None)
    = Exit (BadFormat (bump 2 (1 + 2 + 1)) errorMessage).
Proof.
  apply (body_read_malformed_line
           (mkMfa 2 (Some (mkFILE [""; "a score=1.0"; "s hg18.chr7 10 5 + 100 ACGTA";
                                   "s mm4.chr6 10 5 -"; "s rn3.chr4 1 2 + 9 AC"] ""))
                  "sample.maf" None)
           (mkFILE [""; "a score=1.0"; "s hg18.chr7 10 5 + 100 ACGTA";
                    "s mm4.chr6 10 5 -"; "s rn3.chr4 1 2 + 9 AC"] "")
           [""] ["a score=1.0"; "s hg18.chr7 10 5 + 100 ACGTA"]
           "s mm4.chr6 10 5 -" ["s rn3.chr4 1 2 + 9 AC"]).
  - reflexivity.
  - reflexivity.
  - reflexivity.
  - repeat constructor.
  - repeat constructor.
  - reflexivity.
  - reflexivity.
Defined.

(** ** Line numbers of the records *)

Lemma located_at (content pre : list string) (line : string) (post : list string)
    (ml : mafLine) :
  content = pre ++ line :: post ->
  ml_line ml = Some line ->
  ml_lineNumber ml = Z.of_nat (List.length pre) + 1 ->
  located content ml.
Proof.
  intros Hc Hl Hn. exists line. rewrite Hn. split; [exact Hl|]. split; [lia|].
  replace (Z.to_nat (Z.of_nat (List.length pre) + 1 - 1)) with (List.length pre) by lia.
  rewrite Hc, nth_error_app2, Nat.sub_diag by lia. reflexivity.
Qed.

Lemma body_loop_located (content : list string) :
  Z.of_nat (List.length content) < UINT32_MOD ->
  forall (unread pre : list string) (n : Z) (mb : mafBlock)
         (rest : list string) (n' : Z) (mb' : mafBlock),
    content = pre ++ unread -> n = Z.of_nat (List.length pre) ->
    Forall (located content) (mb_lines mb) ->
    body_loop unread n mb = Ok (rest, n', mb') ->
    exists pre',
      content = pre' ++ rest /\ n' = Z.of_nat (List.length pre')
      /\ Forall (located content) (mb_lines mb').
Proof.
  intros Hsmall. induction unread as [|line unread IH];
    intros pre n mb rest n' mb' Hc Hn Hloc H.
  - cbn in H. inversion H; subst. exists pre. auto.
  - assert (Hlen : Z.of_nat (List.length pre) + 1 <= Z.of_nat (List.length content)).
    { rewrite Hc, length_app. cbn [List.length]. lia. }
    assert (Hn1 : u32 (n + 1) = Z.of_nat (List.length (pre ++ [line]))).
    { rewrite length_app. cbn [List.length]. rewrite u32_small; lia. }
    assert (Hc1 : content = (pre ++ [line]) ++ unread).
    { rewrite <- app_assoc. exact Hc. }
    cbn [body_loop] in H. destruct (maf_isBlankLine line).
    + destruct (mb_lines mb) eqn:E.
      * eapply (IH (pre ++ [line])); [exact Hc1|exact Hn1| |exact H].
        rewrite E. constructor.
      * inversion H; subst rest n' mb'. exists (pre ++ [line]).
        rewrite E. auto.
    + destruct (maf_newMafLineFromString line (u32 (n + 1))) as [ml| |] eqn:Ep;
        try discriminate.
      apply parse_ok_shape in Ep. destruct Ep as (Hraw & Hnum & _).
      eapply (IH (pre ++ [line])); [exact Hc1|exact Hn1| |exact H].
      cbn [block_append mb_lines]. apply Forall_app. split; [exact Hloc|].
      constructor; [|constructor].
      apply (located_at content pre line unread); [exact Hc|exact Hraw|].
      rewrite Hnum, Hn1, length_app. cbn [List.length]. lia.
Qed.

Lemma header_loop_located (content : list string) :
  Z.of_nat (List.length content) < UINT32_MOD ->
  forall (unread pre : list string) (n : Z) (header : mafBlock) (line : string)
         (rest : list string) (n' : Z) (header' : mafBlock) (t : string),
    content = pre ++ line :: unread -> n = Z.of_nat (List.length pre) + 1 ->
    Forall (located content) (mb_lines header) ->
    header_loop unread n header line = Ok (rest, n', header', t) ->
    exists pre',
      content = pre' ++ t :: rest /\ n' = Z.of_nat (List.length pre') + 1
      /\ Forall (located content) (mb_lines header').
Proof.
  intros Hsmall. induction unread as [|l unread IH];
    intros pre n header line rest n' header' t Hc Hn Hloc H;
    cbn [header_loop] in H; rewrite header_stop_loop_test in H;
    destruct (header_stop line); cbn [negb] in H; try discriminate H.
  - inversion H; subst. exists pre. auto.
  - inversion H; subst. exists pre. auto.
  - assert (Hlen : Z.of_nat (List.length pre) + 2 <= Z.of_nat (List.length content)).
    { rewrite Hc, length_app. cbn [List.length]. lia. }
    eapply (IH (pre ++ [line])); [| | |exact H].
    + rewrite <- app_assoc. exact Hc.
    + rewrite length_app. cbn [List.length]. rewrite u32_small; lia.
    + cbn [set_lines mb_lines]. apply Forall_app. split; [exact Hloc|].
      constructor; [|constructor].
      apply (located_at content pre line (l :: unread)); [exact Hc|reflexivity|].
      cbn. exact Hn.
Qed.

Lemma readBlockHeader_located (content : list string) (mfa : mafFileApi)
    (header : mafBlock) (mfa' : mafFileApi) :
  Z.of_nat (List.length content) < UINT32_MOD ->
  session_at content mfa ->
  mfa_lastLine mfa = None ->
  maf_readBlockHeader mfa = Ok (header, mfa') ->
  session_at content mfa' /\ Forall (located content) (mb_lines header).
Proof.
  intros Hsmall (pre & f & Hf & Hc & Hn & _) Hlast H.
  unfold maf_readBlockHeader in H. rewrite Hf in H.
  destruct (f_unread f) as [|line unread] eqn:Hu; [discriminate H|].
  assert (Hlen : Z.of_nat (List.length pre) + 1 <= Z.of_nat (List.length content)).
  { rewrite Hc, length_app. cbn [List.length]. lia. }
  assert (Hfin : forall u p n h l,
             content = p ++ l :: u -> n = Z.of_nat (List.length p) + 1 ->
             Forall (located content) (mb_lines h) ->
             ('(unread, lineNumber, header, line) <- header_loop u n h l ;;
              Ok (header,
                  mkMfa lineNumber (Some (mkFILE unread (f_written f)))
                        (mfa_filename mfa)
                        (if Ascii.eqb (first_char line) "a" then Some line
                         else mfa_lastLine mfa)))
             = Ok (header, mfa') ->
             session_at content mfa' /\ Forall (located content) (mb_lines header)).
  { intros u p n h l Hcp Hnp Hloc E.
    destruct (header_loop u n h l) as [[[[r n0] h0] t]| |] eqn:El; try discriminate E.
    apply (header_loop_located content Hsmall u p n h l r n0 h0 t Hcp Hnp Hloc) in El.
    destruct El as (p' & Hc' & Hn' & Hloc').
    cbn [bind] in E. inversion E; subst h0 mfa'. split; [|exact Hloc'].
    exists (p' ++ [t]), (mkFILE r (f_written f)).
    cbn [mfa_mfp mfa_lineNumber mfa_lastLine f_unread].
    split; [reflexivity|]. split; [rewrite <- app_assoc; exact Hc'|].
    split; [rewrite length_app; cbn [List.length]; lia|].
    intros l0 Hl0. destruct (Ascii.eqb (first_char t) "a").
    - inversion Hl0; subst. exists p'. reflexivity.
    - rewrite Hlast in Hl0. discriminate Hl0. }
  assert (Hloc1 : located content (header_line line (u32 (mfa_lineNumber mfa + 1)))).
  { apply (located_at content pre line unread); [exact Hc|reflexivity|].
    cbn. rewrite Hn, u32_small; lia. }
  assert (Hn1 : u32 (mfa_lineNumber mfa + 1) = Z.of_nat (List.length pre) + 1).
  { rewrite Hn, u32_small; lia. }
  destruct (has_prefix "track" line).
  - destruct unread as [|l2 unread2]; [discriminate H|].
    cbn [header_advance bind] in H.
    assert (Hlen2 : Z.of_nat (List.length pre) + 2 <= Z.of_nat (List.length content)).
    { rewrite Hc, length_app. cbn [List.length]. lia. }
    destruct (has_prefix "##maf" l2).
    + destruct unread2 as [|l3 unread3]; [discriminate H|].
      cbn [header_advance bind negb set_lines mb_lines mb_lineNumber
           mb_numberOfLines mb_numberOfSequences maf_newMafBlock] in H.
      assert (Hlen3 : Z.of_nat (List.length pre) + 3
                      <= Z.of_nat (List.length content)).
      { rewrite Hc, length_app. cbn [List.length]. lia. }
      eapply (Hfin unread3 (pre ++ [line; l2])); [| | |exact H].
      * rewrite <- app_assoc. exact Hc.
      * rewrite length_app. cbn [List.length]. rewrite Hn1.
        rewrite (u32_small (Z.of_nat (List.length pre) + 1 + 1)) by lia.
        rewrite u32_small; lia.
      * cbn [mb_lines]. constructor; [exact Hloc1|]. constructor; [|constructor].
        apply (located_at content (pre ++ [line]) l2 (l3 :: unread3)).
        -- rewrite <- app_assoc. exact Hc.
        -- reflexivity.
        -- cbn [header_line ml_lineNumber]. rewrite length_app. cbn [List.length].
           rewrite Hn1, u32_small; lia.
    + cbn [bind negb set_lines mb_lines mb_lineNumber
           mb_numberOfLines mb_numberOfSequences maf_newMafBlock] in H.
      eapply (Hfin unread2 (pre ++ [line])); [| | |exact H].
      * rewrite <- app_assoc. exact Hc.
      * rewrite length_app. cbn [List.length]. rewrite Hn1, u32_small; lia.
      * cbn [mb_lines]. constructor; [exact Hloc1|constructor].
  - cbn [bind] in H. destruct (has_prefix "##maf" line).
    + destruct unread as [|l2 unread2]; [discriminate H|].
      cbn [header_advance bind negb set_lines mb_lines mb_lineNumber
           mb_numberOfLines mb_numberOfSequences maf_newMafBlock] in H.
      assert (Hlen2 : Z.of_nat (List.length pre) + 2 <= Z.of_nat (List.length content)).
      { rewrite Hc, length_app. cbn [List.length]. lia. }
      eapply (Hfin unread2 (pre ++ [line])); [| | |exact H].
      * rewrite <- app_assoc. exact Hc.
      * rewrite length_app. cbn [List.length]. rewrite Hn1, u32_small; lia.
      * cbn [mb_lines]. constructor; [exact Hloc1|constructor].
    + cbn [bind negb] in H. discriminate H.
Qed.

Lemma readBlockBody_located (content : list string) (mfa : mafFileApi)
    (mb : mafBlock) (mfa' : mafFileApi) :
  Z.of_nat (List.length content) < UINT32_MOD ->
  session_at content mfa ->
  maf_readBlockBody mfa = Ok (mb, mfa') ->
  session_at content mfa' /\ Forall (located content) (mb_lines mb).
Proof.
  intros Hsmall (pre & f & Hf & Hc & Hn & Hlast) H.
  unfold maf_readBlockBody in H. rewrite Hf in H.
  assert (Hfin : forall b0,
             Forall (located content) (mb_lines b0) ->
             ('(unread, lineNumber, thisBlock) <-
                body_loop (f_unread f) (mfa_lineNumber mfa) b0 ;;
              Ok (thisBlock,
                  mkMfa lineNumber (Some (mkFILE unread (f_written f)))
                        (mfa_filename mfa) None))
             = Ok (mb, mfa') ->
             session_at content mfa' /\ Forall (located content) (mb_lines mb)).
  { intros b0 Hloc E.
    destruct (body_loop _ _ _) as [[[u n] b]| |] eqn:El; try discriminate E.
    apply (body_loop_located content Hsmall _ pre _ _ _ _ _ Hc Hn Hloc) in El.
    destruct El as (p' & Hc' & Hn' & Hloc').
    cbn [bind] in E. inversion E; subst b mfa'. split; [|exact Hloc'].
    exists p', (mkFILE u (f_written f)).
    cbn [mfa_mfp mfa_lineNumber mfa_lastLine f_unread].
    repeat split; auto. intros l0 Hl0. discriminate Hl0. }
  destruct (mfa_lastLine mfa) as [l|] eqn:El.
  - destruct (maf_newMafLineFromString l (mfa_lineNumber mfa)) as [ml| |] eqn:Ep;
      try discriminate.
    cbn [bind] in H. apply Hfin in H; [exact H|].
    cbn [set_lines mb_lines]. constructor; [|constructor].
    destruct (Hlast l eq_refl) as (pre0 & Hpre).
    apply parse_ok_shape in Ep. destruct Ep as (Hraw & Hnum & _).
    apply (located_at content pre0 l (f_unread f)).
    + rewrite Hc, Hpre, <- app_assoc. reflexivity.
    + exact Hraw.
    + rewrite Hnum, Hn, Hpre, length_app. cbn [List.length]. lia.
  - cbn [bind] in H. apply Hfin in H; [exact H|]. constructor.
Qed.

Lemma readBlock_located (content : list string) (mfa : mafFileApi)
    (ob : option mafBlock) (mfa' : mafFileApi) :
  Z.of_nat (List.length content) < UINT32_MOD ->
  session_at content mfa ->
  maf_readBlock mfa = Ok (ob, mfa') ->
  session_at content mfa'
  /\ (forall mb, ob = Some mb -> Forall (located content) (mb_lines mb)).
Proof.
  intros Hsmall Hs H. unfold maf_readBlock in H.
  destruct (Z.eqb_spec (mfa_lineNumber mfa) 0) as [E0|E0].
  - assert (Hlast : mfa_lastLine mfa = None).
    { destruct Hs as (pre & f & _ & _ & Hn & Hlast).
      destruct (mfa_lastLine mfa) as [l|]; [|reflexivity].
      destruct (Hlast l eq_refl) as (pre0 & ->).
      rewrite length_app in Hn. cbn [List.length] in Hn. lia. }
    destruct (maf_readBlockHeader mfa) as [[h m]| |] eqn:E; try discriminate H.
    apply (readBlockHeader_located content mfa h m Hsmall Hs Hlast) in E.
    cbn [bind] in H. destruct (mb_lines h) eqn:Eh; inversion H; subst.
    + split; [tauto|]. intros mb Hmb. discriminate Hmb.
    + split; [tauto|]. intros mb Hmb. inversion Hmb; subst. rewrite Eh. tauto.
  - destruct (maf_readBlockBody mfa) as [[b m]| |] eqn:E; try discriminate H.
    apply (readBlockBody_located content mfa b m Hsmall Hs) in E.
    cbn [bind] in H. destruct (mb_lines b) eqn:Eb; inversion H; subst.
    + split; [tauto|]. intros mb Hmb. discriminate Hmb.
    + split; [tauto|]. intros mb Hmb. inversion Hmb; subst. rewrite Eb. tauto.
Qed.

Lemma readAll_loop_located (content : list string) (fuel : nat) :
  Z.of_nat (List.length content) < UINT32_MOD ->
  forall (mfa : mafFileApi) (flag : bool) (blocks : list mafBlock)
         (mfa' : mafFileApi),
    session_at content mfa ->
    readAll_loop fuel mfa flag = Some (Ok (blocks, mfa')) ->
    Forall (fun mb => Forall (located content) (mb_lines mb)) blocks.
Proof.
  intros Hsmall. induction fuel as [|fuel IH]; intros mfa flag blocks mfa' Hs H;
    [discriminate H|].
  cbn [readAll_loop] in H.
  destruct (maf_readBlock mfa) as [[[tmp|] m]| |] eqn:E; try discriminate H.
  - apply (readBlock_located content mfa _ m Hsmall Hs) in E.
    destruct E as (Hs' & Hloc). destruct flag; [|discriminate H].
    destruct (readAll_loop fuel m true) as [[[rest m2]| |]|] eqn:Er;
      try discriminate H.
    inversion H; subst. constructor; [apply Hloc; reflexivity|].
    eapply IH; eassumption.
  - inversion H; subst. constructor.
Qed.

(** X9: whenever [maf_readAll] returns the blocks of a file of fewer than
    2^32 lines, every record of every block carries the text of the very
    line of the file that its line number names, lines counted from 1. *)
Theorem record_line_numbers (name : string) (content : list string)
    (blocks : list mafBlock) (mfa' : mafFileApi) :
  Z.of_nat (List.length content) < UINT32_MOD ->
  maf_readAll (maf_newMfa name content) = Ok (blocks, mfa') ->
  Forall (fun mb => Forall (located content) (mb_lines mb)) blocks.
Proof.
  intros Hsmall H. unfold maf_readAll in H.
  assert (Hs : session_at content (maf_newMfa name content)).
  { exists [], (mkFILE content ""). cbn. repeat split; auto.
    intros l Hl. discriminate Hl. }
  destruct (maf_readBlock (maf_newMfa name content)) as [[head m]| |] eqn:E;
    try discriminate H.
  apply (readBlock_located content _ head m Hsmall Hs) in E.
  destruct E as (Hs' & Hloc). cbn [bind] in H.
  destruct (readAll_loop _ m _) as [[[rest m2]| |]|] eqn:Er; try discriminate H.
  cbn [bind] in H. inversion H; subst.
  apply (readAll_loop_located content _ Hsmall m _ rest mfa' Hs') in Er.
  destruct head as [h|]; [|exact Er].
  constructor; [apply Hloc; reflexivity|exact Er].
Qed.

Lemma record_line_numbers_witness :
  Forall (fun mb => Forall (located sample_file) (mb_lines mb))
         (match sample_file_read with Ok (blocks, _) => blocks | _ => [] end).
Proof.
  apply (record_line_numbers "in.maf" sample_file _
           (match sample_file_read with
            | Ok (_, mfa') => mfa'
            | _ => maf_newMfa "" []
            end)).
  - reflexivity.
  - vm_compute. reflexivity.
Defined.

(** ** Sequence records of the blocks read *)

Lemma parse_seq_record (s : string) (n : Z) (ml : mafLine) :
  maf_newMafLineFromString s n = Ok ml ->
  is_seq ml = true -> sequence_record ml.
Proof.
  intros H Hseq. pose proof (parse_ok_shape s n ml H) as (_ & _ & Ht).
  unfold is_seq in Hseq. rewrite Ht in Hseq. apply Ascii.eqb_eq in Hseq.
  destruct (parse_sequence_fields s n ml H Hseq) as (_ & _ & _ & Hst & Hsp & Hsq & Hr).
  unfold sequence_record. auto.
Qed.

Lemma body_loop_seq_records (unread : list string) :
  forall (n : Z) (mb : mafBlock) (rest : list string) (n' : Z) (mb' : mafBlock),
    body_loop unread n mb = Ok (rest, n', mb') ->
    Forall (fun ml => is_seq ml = true -> sequence_record ml) (mb_lines mb) ->
    Forall (fun ml => is_seq ml = true -> sequence_record ml) (mb_lines mb').
Proof.
  induction unread as [|line unread IH]; intros n mb rest n' mb' H Hrec.
  - cbn in H. inversion H; subst. exact Hrec.
  - cbn [body_loop] in H. destruct (maf_isBlankLine line).
    + destruct (mb_lines mb) eqn:E.
      * eapply IH; [exact H|]. rewrite E. constructor.
      * inversion H; subst. rewrite E. exact Hrec.
    + destruct (maf_newMafLineFromString line (u32 (n + 1))) as [ml| |] eqn:Ep;
        try discriminate.
      eapply IH; [exact H|]. cbn [block_append mb_lines].
      apply Forall_app. split; [exact Hrec|]. constructor; [|constructor].
      apply (parse_seq_record line _ ml Ep).
Qed.

(** In every block a body read returns, each [s] record is a sequence
    record. *)
Lemma readBlockBody_seq_records (mfa : mafFileApi) (mb : mafBlock)
    (mfa' : mafFileApi) :
  maf_readBlockBody mfa = Ok (mb, mfa') ->
  Forall (fun ml => is_seq ml = true -> sequence_record ml) (mb_lines mb).
Proof.
  unfold maf_readBlockBody. intros H.
  destruct (mfa_lastLine mfa) as [l|].
  - destruct (maf_newMafLineFromString l (mfa_lineNumber mfa)) as [ml| |] eqn:Ep;
      try discriminate.
    cbn [bind] in H. destruct (mfa_mfp mfa) as [f|]; try discriminate.
    destruct (body_loop _ _ _) as [[[u n] b]| |] eqn:E; try discriminate.
    cbn [bind] in H. inversion H; subst.
    apply body_loop_seq_records in E; [exact E|].
    cbn [set_lines mb_lines]. constructor; [|constructor].
    apply (parse_seq_record l _ ml Ep).
  - cbn [bind] in H. destruct (mfa_mfp mfa) as [f|]; try discriminate.
    destruct (body_loop _ _ _) as [[[u n] b]| |] eqn:E; try discriminate.
    cbn [bind] in H. inversion H; subst.
    apply body_loop_seq_records in E; [exact E|]. constructor.
Qed.

(** ** Arrays of the sequence records *)

Lemma array_builder_run {A : Type} (val : mafLine -> A) (mb : mafBlock) :
  counted mb ->
  ('(_, a) <- fill_seq val (mb_lines mb) 0 (de_malloc (mb_numberOfSequences mb)) ;;
   Ok a)
  = Ok (map Some (map val (seq_lines mb))).
Proof.
  intros [Hc Hsmall]. unfold de_malloc. rewrite Hc, Nat2Z.id.
  unfold seq_lines in *.
  set (c := List.length (filter is_seq (mb_lines mb))) in *.
  pose proof (fill_seq_run val (mb_lines mb) [] c) as Hrun.
  fold c in Hrun. cbn [List.length map app Nat.add] in Hrun.
  change (Z.of_nat 0) with 0 in Hrun. rewrite Hrun by lia. cbn [bind].
  rewrite Nat.sub_diag. cbn [repeat]. rewrite app_nil_r. reflexivity.
Qed.

(** X10: on a block whose sequence count is the number of its [s] records
    (and not 0), the start, length, source length and strand-sign arrays
    hold one entry per [s] record, in list order: the stored start, length
    and source length, and 1 for strand [+], -1 otherwise. *)
Theorem field_arrays (mb : mafBlock) :
  counted mb -> mb_numberOfSequences mb <> 0 ->
  maf_mafBlock_getStartArray mb = Ok (map Some (map ml_start (seq_lines mb)))
  /\ maf_mafBlock_getSequenceLengthArray mb
     = Ok (map Some (map ml_length (seq_lines mb)))
  /\ maf_mafBlock_getSourceLengthArray mb
     = Ok (map Some (map ml_sourceLength (seq_lines mb)))
  /\ maf_mafBlock_getStrandIntArray mb
     = Ok (map Some (map (fun ml => if Ascii.eqb (ml_strand ml) "+" then 1 else -1)
                         (seq_lines mb)))
  /\ Z.of_nat (List.length (seq_lines mb)) = mb_numberOfSequences mb.
Proof.
  intros Hc _. repeat split.
  - exact (array_builder_run ml_start mb Hc).
  - exact (array_builder_run ml_length mb Hc).
  - exact (array_builder_run ml_sourceLength mb Hc).
  - exact (array_builder_run _ mb Hc).
  - destruct Hc as [Hc _]. symmetry. exact Hc.
Qed.

Lemma field_arrays_witness :
  maf_mafBlock_getStartArray sample_block = Ok [Some 10; Some 10]
  /\ maf_mafBlock_getStrandIntArray sample_block = Ok [Some 1; Some (-1)].
Proof.
  destruct (field_arrays sample_block) as (H1 & _ & _ & H4 & _).
  - split; reflexivity.
  - discriminate.
  - split; [exact H1|exact H4].
Defined.

(** X11: on such a block the two positive-coordinate arrays hold, for each
    [s] record in list order, what [maf_mafLine_getPositiveCoord] and
    [maf_mafLine_getPositiveLeftCoord] return for that record, although the
    start array computes [sourceLength - start - 1] where the per-line
    function computes [sourceLength - (start + 1)]. *)
Theorem positive_coordinate_arrays (mb : mafBlock) :
  counted mb -> mb_numberOfSequences mb <> 0 ->
  maf_mafBlock_getPosCoordStartArray mb
  = Ok (map Some (map maf_mafLine_getPositiveCoord (seq_lines mb)))
  /\ maf_mafBlock_getPosCoordLeftArray mb
     = Ok (map Some (map maf_mafLine_getPositiveLeftCoord (seq_lines mb))).
Proof.
  intros Hc _. split.
  - unfold maf_mafBlock_getPosCoordStartArray. cbv zeta.
    rewrite (array_builder_run _ mb Hc). do 2 f_equal.
    apply map_ext. intros ml. unfold maf_mafLine_getPositiveCoord.
    destruct (Ascii.eqb (ml_strand ml) "+"); [reflexivity|].
    rewrite u32_sub_idem. unfold u32.
    rewrite Zminus_mod_idemp_l. f_equal. lia.
  - exact (array_builder_run _ mb Hc).
Qed.

Lemma positive_coordinate_arrays_witness :
  maf_mafBlock_getPosCoordStartArray sample_block = Ok [Some 10; Some 89]
  /\ maf_mafBlock_getPosCoordLeftArray sample_block = Ok [Some 10; Some 85].
Proof.
  destruct (positive_coordinate_arrays sample_block) as (H1 & H2).
  - split; reflexivity.
  - discriminate.
  - split; [exact H1|exact H2].
Defined.

Lemma fill_species_as_fill_seq (ls : list mafLine) :
  Forall (fun ml => is_seq ml = true -> ml_species ml <> None) ls ->
  forall (i : Z) (m : buffer string),
    fill_species ls i m = fill_seq species_name ls i m.
Proof.
  induction 1 as [|ml ls Hml _ IH]; intros i m; cbn [fill_species fill_seq].
  - reflexivity.
  - destruct (is_seq ml) eqn:E; [|apply IH].
    unfold species_name.
    destruct (ml_species ml) as [s|]; [|exfalso; apply Hml; reflexivity].
    destruct (store m i s) as [m'| |]; cbn [bind]; [apply IH|reflexivity|reflexivity].
Qed.

Lemma fill_species_null (ls : list mafLine) :
  (exists ml, In ml ls /\ is_seq ml = true /\ ml_species ml = None) ->
  forall (i : Z) (m : buffer string), fill_species ls i m = Undefined.
Proof.
  induction ls as [|x ls IH]; intros (ml & Hin & Hs & Hn) i m.
  - destruct Hin.
  - cbn [fill_species]. destruct Hin as [->|Hin].
    + rewrite Hs, Hn. reflexivity.
    + assert (Hex : exists ml, In ml ls /\ is_seq ml = true /\ ml_species ml = None)
        by eauto.
      destruct (is_seq x); [|apply IH; exact Hex].
      destruct (ml_species x) as [s|]; [|reflexivity].
      unfold store. destruct (_ && _); cbn [bind]; [apply IH; exact Hex|reflexivity].
Qed.

(** X12: on a block whose sequence count is the number of its [s] records
    (and not 0) and whose [s] records all have a species, the species array
    holds the species names of the [s] records in list order; on any block
    with an [s] record whose species is NULL the builder passes NULL to
    [de_strdup]. *)
Theorem species_array (mb : mafBlock) :
  (counted mb -> mb_numberOfSequences mb <> 0 ->
   Forall (fun ml => is_seq ml = true -> ml_species ml <> None) (mb_lines mb) ->
   maf_mafBlock_getSpeciesArray mb
   = Ok (map Some (map species_name (seq_lines mb))))
  /\ ((exists ml, In ml (seq_lines mb) /\ ml_species ml = None) ->
      maf_mafBlock_getSpeciesArray mb = Undefined).
Proof.
  split.
  - intros Hc _ Hsp. unfold maf_mafBlock_getSpeciesArray. cbv zeta.
    rewrite (fill_species_as_fill_seq _ Hsp).
    exact (array_builder_run species_name mb Hc).
  - intros (ml & Hin & Hn). unfold seq_lines in Hin.
    apply filter_In in Hin. destruct Hin as [Hin Hs].
    unfold maf_mafBlock_getSpeciesArray. cbv zeta.
    rewrite fill_species_null by eauto. reflexivity.
Qed.

Lemma species_array_witness :
  maf_mafBlock_getSpeciesArray sample_block
  = Ok [Some "hg18.chr7"; Some "mm4.chr6"]
  /\ maf_mafBlock_getSpeciesArray
       (set_lines sample_block
          [mkMafLine (Some "s hg18.chr7 10 5 + 100 ACGTA") 4 "s" None
                     10 5 "+" 100 (Some "ACGTA")])
     = Undefined.
Proof.
  split.
  - destruct (species_array sample_block) as (H & _). apply H.
    + split; reflexivity.
    + discriminate.
    + unfold sample_block. cbn [mb_lines].
      repeat (apply Forall_cons;
              [intros H0; cbn [ml_species];
               first [discriminate H0 | discriminate]|]).
      apply Forall_nil.
  - match goal with
    | |- maf_mafBlock_getSpeciesArray ?b = _ =>
        destruct (species_array b) as (_ & H)
    end.
    apply H. eexists. split; [left; reflexivity|reflexivity].
Defined.

Lemma store_length {A : Type} (a : buffer A) (i : Z) (v : A) (a' : buffer A) :
  store a i v = Ok a' -> List.length a' = List.length a.
Proof.
  unfold store. destruct (_ && _) eqn:E; [|discriminate].
  apply andb_prop in E. destruct E as [E1 E2].
  apply Z.leb_le in E1. apply Z.ltb_lt in E2.
  intros H. injection H as <-.
  destruct a as [|x a]; cbn [List.length] in E2; [lia|].
  rewrite length_app, length_firstn. cbn [List.length skipn].
  rewrite length_skipn. lia.
Qed.

Lemma fill_seq_overflow {A : Type} (val : mafLine -> A) (ls : list mafLine) :
  forall (i : Z) (a : buffer A),
    Z.of_nat (List.length a) < UINT32_MOD ->
    0 <= i <= Z.of_nat (List.length a) ->
    Z.of_nat (List.length a) - i < Z.of_nat (List.length (filter is_seq ls)) ->
    fill_seq val ls i a = Undefined.
Proof.
  induction ls as [|ml ls IH]; intros i a Hsmall Hi H; cbn [fill_seq filter] in *.
  - cbn [List.length] in H. lia.
  - destruct (is_seq ml).
    + destruct (store a i (val ml)) as [a'| |] eqn:Es; cbn [bind]; try reflexivity.
      * pose proof (store_length _ _ _ _ Es) as Hl.
        unfold store in Es. destruct (_ && _) eqn:E; [|discriminate].
        apply andb_prop in E. destruct E as [E1 E2].
        apply Z.leb_le in E1. apply Z.ltb_lt in E2.
        rewrite u32_small by lia. cbn [List.length] in H.
        apply IH; rewrite Hl; lia.
      * unfold store in Es. destruct (_ && _); discriminate.
    + apply IH; assumption.
Qed.

(** X13: the builders trust the stored sequence count.  When the count is
    smaller than the number of [s] records, the start array, the record
    array and the strand array are written past their allocation; when it
    is larger, the start array is returned with its last cells never
    written. *)
Theorem builders_trust_count (mb : mafBlock) :
  0 < mb_numberOfSequences mb -> mb_numberOfSequences mb + 1 < UINT32_MOD ->
  (mb_numberOfSequences mb < Z.of_nat (List.length (seq_lines mb)) ->
   maf_mafBlock_getStartArray mb = Undefined
   /\ maf_mafBlock_getMafLineArray_seqOnly mb = Undefined
   /\ maf_mafBlock_getStrandArray mb = Undefined)
  /\ (Z.of_nat (List.length (seq_lines mb)) < mb_numberOfSequences mb ->
      maf_mafBlock_getStartArray mb
      = Ok (map Some (map ml_start (seq_lines mb))
            ++ repeat None (Z.to_nat (mb_numberOfSequences mb)
                            - List.length (seq_lines mb)))).
Proof.
  intros Hpos Hsmall. unfold seq_lines. split.
  - intros Hlt.
    assert (Hlen : forall A : Type,
               List.length (@de_malloc A (mb_numberOfSequences mb))
               = Z.to_nat (mb_numberOfSequences mb))
      by (intros A; apply repeat_length).
    split; [|split].
    + unfold maf_mafBlock_getStartArray. cbv zeta.
      rewrite fill_seq_overflow; [reflexivity| | |]; rewrite Hlen; lia.
    + unfold maf_mafBlock_getMafLineArray_seqOnly.
      destruct (Z.eqb_spec (mb_numberOfSequences mb) 0) as [E|_]; [lia|]. cbv zeta.
      rewrite fill_seq_overflow; [reflexivity| | |]; rewrite Hlen; lia.
    + unfold maf_mafBlock_getStrandArray.
      destruct (Z.eqb_spec (mb_numberOfSequences mb) 0) as [E|_]; [lia|]. cbv zeta.
      rewrite u32_small by lia.
      destruct (Z.eq_dec (Z.of_nat (List.length (filter is_seq (mb_lines mb))))
                         (mb_numberOfSequences mb + 1)) as [E|E].
      * unfold de_malloc.
        replace (Z.to_nat (mb_numberOfSequences mb + 1))
          with (List.length (filter is_seq (mb_lines mb))) by lia.
        set (c := List.length (filter is_seq (mb_lines mb))) in *.
        pose proof (fill_seq_run ml_strand (mb_lines mb) [] c) as Hrun.
        fold c in Hrun. cbn [List.length map app Nat.add] in Hrun.
        change (Z.of_nat 0) with 0 in Hrun. rewrite Hrun by lia. cbn [bind].
        rewrite Nat.sub_diag. cbn [repeat]. rewrite app_nil_r.
        unfold store. rewrite !length_map. fold c.
        rewrite Z.ltb_irrefl, andb_false_r. reflexivity.
      * rewrite fill_seq_overflow; [reflexivity| | |];
          unfold de_malloc; rewrite repeat_length; lia.
  - intros Hgt. unfold maf_mafBlock_getStartArray, de_malloc. cbv zeta.
    set (c := List.length (filter is_seq (mb_lines mb))) in *.
    pose proof (fill_seq_run ml_start (mb_lines mb) []
                  (Z.to_nat (mb_numberOfSequences mb))) as Hrun.
    fold c in Hrun. cbn [List.length map app Nat.add] in Hrun.
    change (Z.of_nat 0) with 0 in Hrun. rewrite Hrun by lia. reflexivity.
Qed.

Lemma builders_trust_count_witness :
  maf_mafBlock_getStartArray sample_block_undercounted = Undefined
  /\ maf_mafBlock_getMafLineArray_seqOnly sample_block_undercounted = Undefined
  /\ maf_mafBlock_getStrandArray sample_block_undercounted = Undefined.
Proof.
  destruct (builders_trust_count sample_block_undercounted) as (H & _).
  - reflexivity.
  - reflexivity.
  - apply H. reflexivity.
Defined.

(** ** The longest sequence field *)

Lemma umax_max (a b : Z) : umax a b = Z.max a b.
Proof. unfold umax. destruct (Z.ltb_spec b a); lia. Qed.

Lemma longest_nonneg (ls : list mafLine) : 0 <= longest ls.
Proof.
  unfold longest. induction (filter is_seq ls) as [|ml l IH]; cbn; lia.
Qed.

Lemma longest_cons (ml : mafLine) (ls : list mafLine) :
  longest (ml :: ls)
  = if is_seq ml then Z.max (seq_length ml) (longest ls) else longest ls.
Proof. unfold longest. cbn [filter]. destruct (is_seq ml); reflexivity. Qed.

Lemma longest_loop_run (bound : Z) (ls : list mafLine) :
  bound <= UINT32_MOD ->
  sequences_below bound ls ->
  forall m : Z, 0 <= m -> longest_loop ls m = Ok (Z.max m (longest ls)).
Proof.
  intros Hb. induction 1 as [|ml ls Hml _ IH]; intros m Hm.
  - cbn [longest_loop]. f_equal. unfold longest. cbn. lia.
  - cbn [longest_loop]. rewrite longest_cons. destruct (is_seq ml) eqn:E.
    + destruct (Hml eq_refl) as (seq & Es & Hlen).
      unfold seq_length. rewrite Es, umax_max. unfold strlen_unsigned.
      rewrite u32_small by lia. rewrite IH by lia. f_equal. lia.
    + apply IH. exact Hm.
Qed.

Lemma longest_bound (bound : Z) (ls : list mafLine) :
  0 < bound -> sequences_below bound ls -> longest ls < bound.
Proof.
  intros Hb. induction 1 as [|ml ls Hml _ IH].
  - unfold longest. cbn. lia.
  - rewrite longest_cons. destruct (is_seq ml) eqn:E; [|exact IH].
    destruct (Hml eq_refl) as (seq & Es & Hlen).
    unfold seq_length. rewrite Es. lia.
Qed.

Lemma longest_upper (ls : list mafLine) (ml : mafLine) :
  In ml (filter is_seq ls) -> seq_length ml <= longest ls.
Proof.
  unfold longest. induction (filter is_seq ls) as [|x l IH]; intros Hin.
  - destruct Hin.
  - cbn [map fold_right]. destruct Hin as [->|Hin]; [lia|].
    specialize (IH Hin). lia.
Qed.

Lemma longestSequenceField_run (bound : Z) (mb : mafBlock) :
  bound <= UINT32_MOD ->
  mb_lines mb <> [] -> sequences_below bound (mb_lines mb) ->
  maf_mafBlock_longestSequenceField mb = Ok (longest (mb_lines mb)).
Proof.
  intros Hb Hne Hs. unfold maf_mafBlock_longestSequenceField.
  destruct (mb_lines mb) as [|ml rest]; [contradiction|].
  inversion Hs as [|? ? Hml Hrest]; subst.
  rewrite longest_cons. pose proof (longest_nonneg rest) as Hn.
  destruct (is_seq ml) eqn:E.
  - destruct (Hml eq_refl) as (seq & Es & Hlen).
    unfold seq_length. rewrite Es. cbn [bind].
    rewrite umax_max. unfold strlen_unsigned. rewrite u32_small by lia.
    rewrite (longest_loop_run bound rest Hb Hrest) by lia. f_equal. lia.
  - cbn [bind]. rewrite (longest_loop_run bound rest Hb Hrest) by lia.
    f_equal. lia.
Qed.

(** X14: on a block without lines the function reads the type through the
    NULL head pointer; on a block with lines, whose [s] records all carry a
    sequence of fewer than 2^32 bytes, it returns the length of the longest
    sequence field of the [s] records, 0 when there is no [s] record. *)
Theorem longest_sequence_field (mb : mafBlock) :
  (mb_lines mb = [] -> maf_mafBlock_longestSequenceField mb = Undefined)
  /\ (mb_lines mb <> [] -> sequences_below UINT32_MOD (mb_lines mb) ->
      maf_mafBlock_longestSequenceField mb = Ok (longest (mb_lines mb))
      /\ Forall (fun ml => seq_length ml <= longest (mb_lines mb)) (seq_lines mb)
      /\ (seq_lines mb = [] -> longest (mb_lines mb) = 0)
      /\ (seq_lines mb <> [] ->
          exists ml, In ml (seq_lines mb) /\ seq_length ml = longest (mb_lines mb))).
Proof.
  split.
  - intros E. unfold maf_mafBlock_longestSequenceField. rewrite E. reflexivity.
  - intros Hne Hs. split; [|split; [|split]].
    + apply (longestSequenceField_run UINT32_MOD); [lia|assumption|assumption].
    + apply Forall_forall. intros ml Hin. apply longest_upper. exact Hin.
    + unfold seq_lines, longest. intros ->. reflexivity.
    + unfold seq_lines, longest. clear Hne Hs.
      induction (filter is_seq (mb_lines mb)) as [|x l IH]; intros Hl;
        [contradiction|].
      cbn [map fold_right].
      destruct (Z.max_spec (seq_length x) (fold_right Z.max 0 (map seq_length l)))
        as [[Hlt E]|[Hle E]].
      * destruct l as [|y l].
        -- cbn in *. exists x. split; [left; reflexivity|].
           unfold seq_length in *. destruct (ml_sequence x); lia.
        -- destruct IH as (ml & Hin & Hml); [discriminate|].
           exists ml. split; [right; exact Hin|]. rewrite E. exact Hml.
      * exists x. split; [left; reflexivity|]. rewrite E. reflexivity.
Qed.

Lemma longest_sequence_field_witness :
  maf_mafBlock_longestSequenceField sample_block = Ok 5
  /\ maf_mafBlock_longestSequenceField maf_newMafBlock = Undefined.
Proof.
  split.
  - destruct (longest_sequence_field sample_block) as (_ & H).
    destruct H as (H & _); [discriminate| |exact H].
    unfold sequences_below, sample_block. cbn [mb_lines].
    repeat (apply Forall_cons;
            [intros H; first [discriminate H | eexists; split; reflexivity]|]).
    apply Forall_nil.
  - destruct (longest_sequence_field maf_newMafBlock) as (H & _).
    apply H. reflexivity.
Defined.

Lemma strncpy_whole (s : string) :
  forall k : nat,
    (String.length s <= k)%nat ->
    strncpy s k = (list_ascii_of_string s ++ repeat NUL (k - String.length s))%list.
Proof.
  induction s as [|c s IH]; intros k Hk.
  - cbn [String.length list_ascii_of_string app]. rewrite Nat.sub_0_r.
    clear Hk. induction k as [|k IHk]; cbn; [reflexivity|]. rewrite IHk. reflexivity.
  - destruct k as [|k]; cbn [String.length] in Hk; [lia|].
    cbn [strncpy list_ascii_of_string app String.length Nat.sub].
    rewrite IH by lia. reflexivity.
Qed.

(** X15: the matrix built with the column count that
    [maf_mafBlock_longestSequenceField] returns holds every sequence
    whole.  On a block that ends with an [s] record and whose [s] records
    carry sequences of fewer than 2^32 - 1 bytes, row [i] is the whole
    sequence of the [i]-th [s] record, NUL up to the longest length, and
    the terminator: no sequence is cut. *)
Theorem matrix_holds_whole_sequences (mb : mafBlock) :
  (exists front last, mb_lines mb = front ++ [last] /\ is_seq last = true) ->
  sequences_below (UINT32_MOD - 1) (mb_lines mb) ->
  Z.of_nat (List.length (seq_lines mb)) < UINT32_MOD ->
  exists m,
    maf_mafBlock_longestSequenceField mb = Ok m
    /\ maf_mafBlock_getSequenceMatrix mb (Z.of_nat (List.length (seq_lines mb))) m
       = Ok (map (whole_row m) (seq_lines mb)).
Proof.
  intros Hlast Hs Hc. exists (longest (mb_lines mb)). split.
  - apply (longestSequenceField_run (UINT32_MOD - 1)); [lia| |exact Hs].
    destruct Hlast as (front & last & E & _). rewrite E.
    destruct front; discriminate.
  - pose proof (longest_nonneg (mb_lines mb)) as Hn.
    assert (Hb : longest (mb_lines mb) < UINT32_MOD - 1)
      by (apply longest_bound; [reflexivity|exact Hs]).
    assert (Hseq : Forall (fun ml => is_seq ml = true -> ml_sequence ml <> None)
                          (mb_lines mb)).
    { eapply Forall_impl; [|exact Hs]. intros ml H Hml.
      destruct (H Hml) as (seq & -> & _). discriminate. }
    unfold maf_mafBlock_getSequenceMatrix. rewrite Nat2Z.id.
    pose proof (matrix_loop_rows (mb_lines mb) false []
                  (List.length (seq_lines mb)) (longest (mb_lines mb))
                  (de_malloc (u32 (longest (mb_lines mb) + 1)))
                  Hn ltac:(lia) Hlast Hseq) as H.
    cbn [List.length app Nat.add] in H. change (Z.of_nat 0) with 0 in H.
    rewrite H; [|unfold seq_lines; lia|exact Hc].
    unfold seq_lines. rewrite Nat.sub_diag. cbn [repeat]. rewrite app_nil_r.
    f_equal. apply map_ext_in. intros ml Hin.
    pose proof (longest_upper _ _ Hin) as Hup.
    unfold matrix_row, whole_row, seq_length in *.
    destruct (ml_sequence ml) as [seq|]; [|reflexivity].
    rewrite strncpy_whole by lia. reflexivity.
Qed.

Lemma matrix_holds_whole_sequences_witness :
  exists m,
    maf_mafBlock_longestSequenceField sample_block = Ok m
    /\ maf_mafBlock_getSequenceMatrix sample_block 2 m
       = Ok (map (whole_row m) (seq_lines sample_block)).
Proof.
  apply (matrix_holds_whole_sequences sample_block).
  - exists (List.firstn 3 (mb_lines sample_block)),
      (mkMafLine (Some "s mm4.chr6 10 5 - 100 AC-TA") 6 "s" (Some "mm4.chr6")
                 10 5 "-" 100 (Some "AC-TA")).
    split; reflexivity.
  - unfold sequences_below, sample_block. cbn [mb_lines].
    repeat (apply Forall_cons;
            [intros H; first [discriminate H | eexists; split; reflexivity]|]).
    apply Forall_nil.
  - reflexivity.
Defined.

(** ** The writer *)

Lemma write_blocks_count (mbs : list mafBlock) :
  forall (bs : list (list string)) (mfa : mafFileApi) (f : FILE),
    mfa_mfp mfa = Some f ->
    map raws mbs = map (map Some) bs ->
    write_blocks mfa mbs
    = Ok (mkMfa (bump (mfa_lineNumber mfa)
                      (List.length (flat_map (fun b => (b ++ [""])%list) bs)))
            (Some (mkFILE (f_unread f)
                     (f_written f
                      ++ unlines (flat_map (fun b => (b ++ [""])%list) bs))%string))
            (mfa_filename mfa) (mfa_lastLine mfa)).
Proof.
  induction mbs as [|mb mbs IH]; intros bs mfa f Hf H; destruct bs as [|b bs];
    try discriminate H.
  - cbn. rewrite string_app_nil_r.
    destruct mfa, f; cbn in *; subst; reflexivity.
  - cbn [map] in H. injection H as Hb Hrest.
    cbn [write_blocks]. rewrite (writeBlock_run mfa f mb b Hf Hb). cbn [bind].
    erewrite IH; [|reflexivity|exact Hrest].
    cbn [mfa_filename mfa_lastLine mfa_lineNumber f_unread f_written flat_map].
    rewrite !unlines_app, !string_app_assoc, !length_app.
    cbn [List.length]. rewrite !bump_app. cbn [bump]. reflexivity.
Qed.

(** X16: writing a block list whose records all have their raw line,
    through an open session: the stream receives, after what it already
    held, the lines of each block followed by one empty line, and one more
    empty line; the session's line counter advances by exactly the number
    of lines written (in [uint32_t] arithmetic), its stream is closed, and
    its file name and lookahead are unchanged. *)
Theorem write_all_output (mfa : mafFileApi) (f : FILE) (mbs : list mafBlock)
    (bs : list (list string)) :
  mfa_mfp mfa = Some f ->
  map raws mbs = map (map Some) bs ->
  maf_writeAll mfa mbs
  = Ok (mkMfa (bump (mfa_lineNumber mfa) (List.length (written_lines bs))) None
              (mfa_filename mfa) (mfa_lastLine mfa),
        mkFILE (f_unread f) (f_written f ++ unlines (written_lines bs))%string).
Proof.
  intros Hf H. unfold maf_writeAll.
  rewrite (write_blocks_count mbs bs mfa f Hf H).
  cbn [bind mfa_mfp mfa_lineNumber mfa_filename mfa_lastLine fprintf f_unread f_written].
  unfold written_lines. rewrite unlines_app, length_app, bump_app. cbn [unlines].
  change ("" ++ LF ++ "")%string with LF. cbn [List.length bump].
  unfold fprintf. cbn [f_unread f_written].
  rewrite ?string_app_assoc. reflexivity.
Qed.

Lemma write_all_output_witness :
  maf_writeAll (maf_newMfa_w "out.maf") [sample_block_ends_with_i]
  = Ok (mkMfa 5 None "out.maf" None,
        mkFILE [] (unlines ["a score=1.0"; "s hg18.chr7 10 5 + 100 ACGTA";
                            "i hg18.chr7 N 0 C 0"; ""; ""])).
Proof.
  apply (write_all_output (maf_newMfa_w "out.maf") (mkFILE [] "")
           [sample_block_ends_with_i]
           [["a score=1.0"; "s hg18.chr7 10 5 + 100 ACGTA"; "i hg18.chr7 N 0 C 0"]]).
  - reflexivity.
  - reflexivity.
Defined.

Lemma write_lines_null (ls : list mafLine) :
  (exists ml, In ml ls /\ ml_line ml = None) ->
  forall (f : FILE) (n : Z), write_lines f n ls = Undefined.
Proof.
  induction ls as [|x ls IH]; intros (ml & Hin & Hn) f n.
  - destruct Hin.
  - cbn [write_lines]. destruct Hin as [->|Hin].
    + rewrite Hn. reflexivity.
    + destruct (ml_line x); [|reflexivity]. apply IH. eauto.
Qed.

Lemma write_lines_no_exit (ls : list mafLine) :
  forall (f : FILE) (n : Z) (e : failure), write_lines f n ls <> Exit e.
Proof.
  induction ls as [|x ls IH]; intros f n e; cbn [write_lines].
  - discriminate.
  - destruct (ml_line x); [apply IH|discriminate].
Qed.

Lemma writeBlock_no_exit (mfa : mafFileApi) (mb : mafBlock) (e : failure) :
  maf_writeBlock mfa mb <> Exit e.
Proof.
  unfold maf_writeBlock. destruct (mfa_mfp mfa) as [f|]; [|discriminate].
  destruct (write_lines f (mfa_lineNumber mfa) (mb_lines mb)) as [[f' n]|e'|] eqn:E;
    cbn [bind]; try discriminate.
  exfalso. exact (write_lines_no_exit _ _ _ _ E).
Qed.

Lemma write_blocks_null (mbs : list mafBlock) :
  (exists mb ml, In mb mbs /\ In ml (mb_lines mb) /\ ml_line ml = None) ->
  forall mfa : mafFileApi, write_blocks mfa mbs = Undefined.
Proof.
  induction mbs as [|x mbs IH]; intros (mb & ml & Hin & Hml & Hn) mfa.
  - destruct Hin.
  - cbn [write_blocks]. destruct Hin as [->|Hin].
    + unfold maf_writeBlock. destruct (mfa_mfp mfa) as [f|]; [|reflexivity].
      rewrite write_lines_null by eauto. reflexivity.
    + destruct (maf_writeBlock mfa x) as [mfa'|e|] eqn:E; cbn [bind].
      * apply IH. eauto.
      * exfalso. exact (writeBlock_no_exit _ _ _ E).
      * reflexivity.
Qed.

Lemma write_blocks_closed (mbs : list mafBlock) (mfa : mafFileApi) :
  mfa_mfp mfa = None ->
  write_blocks mfa mbs = Undefined \/ (mbs = [] /\ write_blocks mfa mbs = Ok mfa).
Proof.
  intros Hf. destruct mbs as [|mb mbs].
  - right. split; reflexivity.
  - left. cbn [write_blocks]. unfold maf_writeBlock. rewrite Hf. reflexivity.
Qed.

Lemma writeAll_closed (mbs : list mafBlock) (mfa : mafFileApi) :
  mfa_mfp mfa = None -> maf_writeAll mfa mbs = Undefined.
Proof.
  intros Hf. unfold maf_writeAll.
  destruct (write_blocks_closed mbs mfa Hf) as [E|[_ E]]; rewrite E; cbn [bind].
  - reflexivity.
  - rewrite Hf. reflexivity.
Qed.

(** X17: where the writer has no defined behaviour, and that it never
    exits.  Through a session whose stream is closed, writing a block or a
    block list passes the NULL stream to [fprintf]; a record without raw
    line anywhere in the list passes NULL for [%s]; and since
    [maf_writeAll] closes the stream and sets it to NULL, the session it
    leaves cannot be written through again.  No call of the writer ends in
    one of the reader's fatal errors. *)
Theorem writer_undefined (mfa : mafFileApi) (mbs : list mafBlock) :
  (mfa_mfp mfa = None ->
   maf_writeAll mfa mbs = Undefined
   /\ forall mb, maf_writeBlock mfa mb = Undefined)
  /\ ((exists mb ml, In mb mbs /\ In ml (mb_lines mb) /\ ml_line ml = None) ->
      maf_writeAll mfa mbs = Undefined)
  /\ (forall mfa' f' more,
         maf_writeAll mfa mbs = Ok (mfa', f') ->
         maf_writeAll mfa' more = Undefined)
  /\ (forall e, maf_writeAll mfa mbs <> Exit e).
Proof.
  split; [|split; [|split]].
  - intros Hf. split; [apply writeAll_closed; exact Hf|].
    intros mb. unfold maf_writeBlock. rewrite Hf. reflexivity.
  - intros Hex. unfold maf_writeAll. rewrite write_blocks_null by exact Hex.
    reflexivity.
  - intros mfa' f' more H. apply writeAll_closed.
    unfold maf_writeAll in H.
    destruct (write_blocks mfa mbs) as [m| |]; cbn [bind] in H; try discriminate.
    destruct (mfa_mfp m); [|discriminate]. inversion H; subst. reflexivity.
  - intros e. unfold maf_writeAll.
    assert (Hne : forall l m e0, write_blocks m l <> Exit e0).
    { induction l as [|x l IH]; intros m e0; cbn [write_blocks]; [discriminate|].
      destruct (maf_writeBlock m x) as [m'|e'|] eqn:E; cbn [bind].
      - apply IH.
      - exfalso. exact (writeBlock_no_exit _ _ _ E).
      - discriminate. }
    destruct (write_blocks mfa mbs) as [m|e'|] eqn:E; cbn [bind].
    + destruct (mfa_mfp m); discriminate.
    + exfalso. exact (Hne _ _ _ E).
    + discriminate.
Qed.

Lemma writer_undefined_witness :
  maf_writeAll (maf_newMfa_w "out.maf") [set_lines sample_block [maf_newMafLine]]
  = Undefined
  /\ (forall mfa' f',
         maf_writeAll (maf_newMfa_w "out.maf") [sample_block] = Ok (mfa', f') ->
         maf_writeAll mfa' [sample_block] = Undefined).
Proof.
  split.
  - match goal with
    | |- maf_writeAll ?m ?l = _ => destruct (writer_undefined m l) as (_ & H & _)
    end.
    apply H. eexists _, _. split; [left; reflexivity|].
    split; [left; reflexivity|reflexivity].
  - intros mfa' f' H.
    destruct (writer_undefined (maf_newMfa_w "out.maf") [sample_block])
      as (_ & _ & H2 & _).
    exact (H2 mfa' f' [sample_block] H).
Defined.

Lemma write_lines_ext (ls1 : list mafLine) :
  forall (ls2 : list mafLine) (f : FILE) (n : Z),
    map ml_line ls1 = map ml_line ls2 ->
    write_lines f n ls1 = write_lines f n ls2.
Proof.
  induction ls1 as [|x ls1 IH]; intros ls2 f n H; destruct ls2 as [|y ls2];
    try discriminate H; [reflexivity|].
  cbn [map] in H. injection H as Hx Hrest. cbn [write_lines]. rewrite Hx.
  destruct (ml_line y); [apply IH; exact Hrest|reflexivity].
Qed.

Lemma write_blocks_ext (mbs1 : list mafBlock) :
  forall (mbs2 : list mafBlock) (mfa : mafFileApi),
    map raws mbs1 = map raws mbs2 ->
    write_blocks mfa mbs1 = write_blocks mfa mbs2.
Proof.
  induction mbs1 as [|x mbs1 IH]; intros mbs2 mfa H; destruct mbs2 as [|y mbs2];
    try discriminate H; [reflexivity|].
  cbn [map] in H. injection H as Hx Hrest. cbn [write_blocks].
  replace (maf_writeBlock mfa y) with (maf_writeBlock mfa x).
  - destruct (maf_writeBlock mfa x); cbn [bind]; [apply IH; exact Hrest| |];
      reflexivity.
  - unfold maf_writeBlock. destruct (mfa_mfp mfa); [|reflexivity].
    rewrite (write_lines_ext (mb_lines x) (mb_lines y)) by exact Hx. reflexivity.
Qed.

(** X18: the writer looks at the raw lines only.  Two block lists with the
    same raw lines, block by block, are written alike, whatever their
    structured fields, line numbers and counts are; and none of the record
    setters (type, species, strand, start, length, source length, sequence)
    changes the raw line.  So a block edited through the setters is written
    as it was read. *)
Theorem writer_uses_raw_lines (mfa : mafFileApi) (mbs1 mbs2 : list mafBlock) :
  map raws mbs1 = map raws mbs2 ->
  maf_writeAll mfa mbs1 = maf_writeAll mfa mbs2
  /\ (forall (ml : mafLine) (c : ascii) (s : option string) (n : Z),
         ml_line (maf_mafLine_setType ml c) = ml_line ml
         /\ ml_line (maf_mafLine_setSpecies ml s) = ml_line ml
         /\ ml_line (maf_mafLine_setStrand ml c) = ml_line ml
         /\ ml_line (maf_mafLine_setStart ml n) = ml_line ml
         /\ ml_line (maf_mafLine_setLength ml n) = ml_line ml
         /\ ml_line (maf_mafLine_setSourceLength ml n) = ml_line ml
         /\ ml_line (maf_mafLine_setSequence ml s) = ml_line ml).
Proof.
  intros H. split.
  - unfold maf_writeAll. rewrite (write_blocks_ext mbs1 mbs2 mfa H). reflexivity.
  - intros ml c s n. repeat split.
Qed.

Lemma writer_uses_raw_lines_witness :
  maf_writeAll (maf_newMfa_w "out.maf") [sample_block_edited]
  = maf_writeAll (maf_newMfa_w "out.maf") [sample_block].
Proof.
  destruct (writer_uses_raw_lines (maf_newMfa_w "out.maf")
              [sample_block_edited] [sample_block]) as (H & _).
  - reflexivity.
  - exact H.
Defined.

Lemma print_lines_as_write_lines (ls : list mafLine) :
  forall (f : FILE) (n : Z),
    print_lines (f_written f) ls
    = ('(f', _) <- write_lines f n ls ;; Ok (f_written f')).
Proof.
  induction ls as [|x ls IH]; intros f n; cbn [print_lines write_lines].
  - reflexivity.
  - destruct (ml_line x) as [raw|]; [|reflexivity].
    rewrite <- (IH (fprintf f (raw ++ LF)%string) (u32 (n + 1))). reflexivity.
Qed.

(** X19: [maf_mafBlock_print] sends to standard output exactly the text
    that [maf_writeBlock] appends to the session's stream for the same
    block: started on the same text, both leave the same text, and one has
    no defined behaviour exactly when the other has none. *)
Theorem print_as_writeBlock (out : string) (m : mafBlock) (n : Z)
    (unread : list string) (name : string) (last : option string) :
  maf_mafBlock_print out m
  = (mfa' <- maf_writeBlock (mkMfa n (Some (mkFILE unread out)) name last) m ;;
     match mfa_mfp mfa' with
     | Some f' => Ok (f_written f')
     | None => Undefined
     end).
Proof.
  unfold maf_mafBlock_print, maf_writeBlock. cbn [mfa_mfp mfa_lineNumber].
  change out with (f_written (mkFILE unread out)) at 1.
  rewrite (print_lines_as_write_lines (mb_lines m) (mkFILE unread out) n).
  destruct (write_lines (mkFILE unread out) n (mb_lines m)) as [[f' k]| |];
    reflexivity.
Qed.

(** ** The blocks of a file as the builders expect them *)

Lemma body_loop_size (unread : list string) :
  forall (n : Z) (mb : mafBlock) (rest : list string) (n' : Z) (mb' : mafBlock),
    body_loop unread n mb = Ok (rest, n', mb') ->
    (List.length (mb_lines mb') + List.length rest
     <= List.length (mb_lines mb) + List.length unread)%nat.
Proof.
  induction unread as [|line unread IH]; intros n mb rest n' mb' H.
  - cbn in H. inversion H; subst. lia.
  - cbn [body_loop] in H. cbn [List.length]. destruct (maf_isBlankLine line).
    + destruct (mb_lines mb) eqn:E.
      * apply IH in H. rewrite E in H. cbn [List.length] in *. lia.
      * inversion H; subst. rewrite E. lia.
    + destruct (maf_newMafLineFromString line (u32 (n + 1))) as [ml| |];
        try discriminate.
      apply IH in H. cbn [block_append mb_lines] in H. rewrite length_app in H.
      cbn [List.length] in H. lia.
Qed.

Lemma readBlockBody_size (mfa : mafFileApi) (mb : mafBlock) (mfa' : mafFileApi) :
  maf_readBlockBody mfa = Ok (mb, mfa') ->
  (List.length (mb_lines mb) + pending mfa' <= pending mfa)%nat.
Proof.
  unfold maf_readBlockBody, pending. intros H.
  destruct (mfa_lastLine mfa) as [l|].
  - destruct (maf_newMafLineFromString l (mfa_lineNumber mfa)) as [ml| |];
      try discriminate.
    cbn [bind] in H. destruct (mfa_mfp mfa) as [f|]; try discriminate.
    destruct (body_loop _ _ _) as [[[u n] b]| |] eqn:E; try discriminate.
    cbn [bind] in H. inversion H; subst.
    apply body_loop_size in E. cbn [set_lines mb_lines List.length] in E.
    cbn [mfa_mfp mfa_lastLine f_unread]. lia.
  - cbn [bind] in H. destruct (mfa_mfp mfa) as [f|]; try discriminate.
    destruct (body_loop _ _ _) as [[[u n] b]| |] eqn:E; try discriminate.
    cbn [bind] in H. inversion H; subst.
    apply body_loop_size in E. cbn [maf_newMafBlock mb_lines List.length] in E.
    cbn [mfa_mfp mfa_lastLine f_unread]. lia.
Qed.

Lemma session_pending (content : list string) (mfa : mafFileApi) :
  session_at content mfa -> (pending mfa <= List.length content)%nat.
Proof.
  intros (pre & f & Hf & Hc & _ & Hlast). unfold pending. rewrite Hf, Hc, length_app.
  destruct (mfa_lastLine mfa) as [l|]; [|lia].
  destruct (Hlast l eq_refl) as (pre0 & ->). rewrite length_app. cbn [List.length]. lia.
Qed.

Lemma header_records_not_seq (ls : list mafLine) :
  Forall header_record ls -> filter is_seq ls = [].
Proof.
  induction 1 as [|ml ls (line & n & ->) _ IH]; [reflexivity|].
  cbn [filter]. exact IH.
Qed.

Lemma readBlock_well_formed (mfa : mafFileApi) (mb : mafBlock) (mfa' : mafFileApi) :
  Z.of_nat (pending mfa) < UINT32_MOD - 1 ->
  maf_readBlock mfa = Ok (Some mb, mfa') ->
  well_formed_block mb.
Proof.
  intros Hsmall H. unfold maf_readBlock in H.
  destruct (mfa_lineNumber mfa =? 0).
  - destruct (maf_readBlockHeader mfa) as [[h m]| |] eqn:E; try discriminate H.
    cbn [bind] in H. destruct (mb_lines h) eqn:Eh; inversion H; subst.
    pose proof (readBlockHeader_size _ _ _ E) as Hsize.
    destruct (readBlockHeader_invariants _ _ _ E) as (Hne & Hrec & Hl & Hs & _).
    pose proof (header_records_not_seq _ Hrec) as Hnone.
    unfold well_formed_block, counted, seq_lines. rewrite Hnone, Hs, Hl.
    rewrite u32_small by (unfold UINT32_MOD in *; lia).
    split; [exact Hne|]. split; [reflexivity|]. split; [split; reflexivity|].
    apply Forall_forall. intros ml Hin Hseq.
    assert (Hin' : In ml (filter is_seq (mb_lines mb)))
      by (apply filter_In; split; assumption).
    rewrite Hnone in Hin'. destruct Hin'.
  - destruct (maf_readBlockBody mfa) as [[b m]| |] eqn:E; try discriminate H.
    cbn [bind] in H. destruct (mb_lines b) eqn:Eb; inversion H; subst.
    pose proof (readBlockBody_size _ _ _ E) as Hsize.
    destruct (readBlockBody_counts _ _ _ E) as (Hl & Hs & _).
    pose proof (readBlockBody_seq_records _ _ _ E) as Hrec.
    assert (Hle : (List.length (seq_lines mb) <= List.length (mb_lines mb))%nat)
      by apply filter_length_le.
    unfold well_formed_block, counted. rewrite Hs, Hl.
    rewrite !u32_small by (unfold UINT32_MOD in *; lia).
    split; [rewrite Eb; discriminate|]. split; [reflexivity|].
    split; [split; [reflexivity|unfold UINT32_MOD in *; lia]|exact Hrec].
Qed.

Lemma well_formed_block_species (mb : mafBlock) :
  well_formed_block mb ->
  maf_mafBlock_getSpeciesArray mb = Ok (map Some (map species_name (seq_lines mb))).
Proof.
  intros (_ & _ & Hc & Hrec). unfold maf_mafBlock_getSpeciesArray. cbv zeta.
  rewrite fill_species_as_fill_seq.
  - exact (array_builder_run species_name mb Hc).
  - eapply Forall_impl; [|exact Hrec]. intros ml H Hseq.
    destruct (H Hseq) as (_ & Hsp & _). exact Hsp.
Qed.

Lemma readAll_loop_well_formed (content : list string) (fuel : nat) :
  Z.of_nat (List.length content) < UINT32_MOD - 1 ->
  forall (mfa : mafFileApi) (flag : bool) (blocks : list mafBlock)
         (mfa' : mafFileApi),
    session_at content mfa ->
    readAll_loop fuel mfa flag = Some (Ok (blocks, mfa')) ->
    Forall well_formed_block blocks.
Proof.
  intros Hsmall. induction fuel as [|fuel IH]; intros mfa flag blocks mfa' Hs H;
    [discriminate H|].
  cbn [readAll_loop] in H.
  destruct (maf_readBlock mfa) as [[[tmp|] m]| |] eqn:E; try discriminate H.
  - pose proof (session_pending _ _ Hs) as Hp.
    pose proof (readBlock_well_formed mfa tmp m ltac:(lia) E) as Hwf.
    apply (readBlock_located content mfa _ m ltac:(lia) Hs) in E.
    destruct E as (Hs' & _). destruct flag; [|discriminate H].
    destruct (readAll_loop fuel m true) as [[[rest m2]| |]|] eqn:Er;
      try discriminate H.
    inversion H; subst. constructor; [exact Hwf|].
    eapply IH; eassumption.
  - inversion H; subst. constructor.
Qed.

(** X20: whenever [maf_readAll] returns the blocks of a file of fewer than
    2^32 - 1 lines, every block is as the builders expect it: it has
    records, its line count and its sequence count are the numbers of its
    records and of its [s] records (no wrap-around), and every [s] record
    has a strand [+] or [-], a species, a sequence and numeric fields in
    the [uint32_t] range.  [maf_mafBlock_containsSequence] tells whether
    the block has an [s] record, and the species array and the start array
    of each block with a sequence are built without touching a NULL pointer
    or a cell outside the allocation, and hold the species names and the
    starts of the [s] records in order. *)
Theorem read_blocks_well_formed (name : string) (content : list string)
    (blocks : list mafBlock) (mfa' : mafFileApi) :
  Z.of_nat (List.length content) < UINT32_MOD - 1 ->
  maf_readAll (maf_newMfa name content) = Ok (blocks, mfa') ->
  Forall (fun mb =>
            well_formed_block mb
            /\ (maf_mafBlock_containsSequence mb = true <-> seq_lines mb <> [])
            /\ (mb_numberOfSequences mb <> 0 ->
                maf_mafBlock_getSpeciesArray mb
                = Ok (map Some (map species_name (seq_lines mb)))
                /\ maf_mafBlock_getStartArray mb
                   = Ok (map Some (map ml_start (seq_lines mb)))))
         blocks.
Proof.
  intros Hsmall H.
  assert (Hwf : Forall well_formed_block blocks).
  { unfold maf_readAll in H.
    assert (Hs : session_at content (maf_newMfa name content)).
    { exists [], (mkFILE content ""). cbn. repeat split; auto.
      intros l Hl. discriminate Hl. }
    destruct (maf_readBlock (maf_newMfa name content)) as [[head m]| |] eqn:E;
      try discriminate H.
    pose proof (session_pending _ _ Hs) as Hp.
    assert (Hhead : forall h, head = Some h -> well_formed_block h).
    { intros h ->.
      apply (readBlock_well_formed (maf_newMfa name content) h m); [lia|exact E]. }
    apply (readBlock_located content _ head m ltac:(lia) Hs) in E.
    destruct E as (Hs' & _). cbn [bind] in H.
    destruct (readAll_loop _ m _) as [[[rest m2]| |]|] eqn:Er; try discriminate H.
    cbn [bind] in H. inversion H; subst.
    apply (readAll_loop_well_formed content _ Hsmall m _ rest mfa' Hs') in Er.
    destruct head as [h|]; [|exact Er].
    constructor; [apply Hhead; reflexivity|exact Er]. }
  eapply Forall_impl; [|exact Hwf]. intros mb Hmb.
  split; [exact Hmb|]. split.
  { destruct Hmb as (_ & _ & (Hc & _) & _).
    unfold maf_mafBlock_containsSequence. rewrite Hc.
    destruct (seq_lines mb); cbn [List.length]; split; intros H0;
      try discriminate; try contradiction; try reflexivity. }
  intros _.
  split; [exact (well_formed_block_species mb Hmb)|].
  destruct Hmb as (_ & _ & Hc & _). exact (array_builder_run ml_start mb Hc).
Qed.

Lemma read_blocks_well_formed_witness :
  Forall (fun mb =>
            well_formed_block mb
            /\ (maf_mafBlock_containsSequence mb = true <-> seq_lines mb <> [])
            /\ (mb_numberOfSequences mb <> 0 ->
                maf_mafBlock_getSpeciesArray mb
                = Ok (map Some (map species_name (seq_lines mb)))
                /\ maf_mafBlock_getStartArray mb
                   = Ok (map Some (map ml_start (seq_lines mb)))))
         (match sample_file_read with Ok (blocks, _) => blocks | _ => [] end).
Proof.
  apply (read_blocks_well_formed "in.maf" sample_file _
           (match sample_file_read with
            | Ok (_, mfa') => mfa'
            | _ => maf_newMfa "" []
            end)).
  - reflexivity.
  - vm_compute. reflexivity.
Defined.

(** ** Reading to the end of the stream *)

Lemma readBlock_size (mfa : mafFileApi) (ob : option mafBlock)
    (mfa' : mafFileApi) :
  maf_readBlock mfa = Ok (ob, mfa') ->
  (match ob with Some mb => List.length (mb_lines mb) | None => 0 end
   + pending mfa' <= pending mfa)%nat.
Proof.
  unfold maf_readBlock. intros H.
  destruct (mfa_lineNumber mfa =? 0).
  - destruct (maf_readBlockHeader mfa) as [[h m]| |] eqn:E; try discriminate H.
    cbn [bind] in H. apply readBlockHeader_size in E.
    destruct (mb_lines h) eqn:Eh; inversion H; subst; [|rewrite Eh]; lia.
  - destruct (maf_readBlockBody mfa) as [[b m]| |] eqn:E; try discriminate H.
    cbn [bind] in H. apply readBlockBody_size in E.
    destruct (mb_lines b) eqn:Eb; inversion H; subst; [|rewrite Eb]; lia.
Qed.

Lemma readBlock_none (mfa mfa' : mafFileApi) :
  maf_readBlock mfa = Ok (None, mfa') ->
  (exists f', mfa_mfp mfa' = Some f' /\ f_unread f' = [])
  /\ mfa_lastLine mfa' = None.
Proof.
  unfold maf_readBlock. intros H.
  destruct (mfa_lineNumber mfa =? 0).
  - destruct (maf_readBlockHeader mfa) as [[h m]| |] eqn:E; try discriminate H.
    cbn [bind] in H.
    destruct (readBlockHeader_invariants _ _ _ E) as (Hne & _).
    destruct (mb_lines h); [contradiction|discriminate H].
  - destruct (maf_readBlockBody mfa) as [[b m]| |] eqn:E; try discriminate H.
    cbn [bind] in H. destruct (mb_lines b) eqn:Eb; inversion H; subst.
    split.
    + exact (readBlockBody_empty_at_end _ _ _ E Eb).
    + destruct (readBlockBody_counts _ _ _ E) as (_ & _ & Hlast). exact Hlast.
Qed.

Lemma readBlock_some (mfa : mafFileApi) (mb : mafBlock) (mfa' : mafFileApi) :
  maf_readBlock mfa = Ok (Some mb, mfa') -> mb_lines mb <> [].
Proof.
  unfold maf_readBlock. intros H.
  destruct (mfa_lineNumber mfa =? 0).
  - destruct (maf_readBlockHeader mfa) as [[h m]| |]; try discriminate H.
    cbn [bind] in H. destruct (mb_lines h) eqn:Eh; inversion H; subst.
    rewrite Eh. discriminate.
  - destruct (maf_readBlockBody mfa) as [[b m]| |]; try discriminate H.
    cbn [bind] in H. destruct (mb_lines b) eqn:Eb; inversion H; subst.
    rewrite Eb. discriminate.
Qed.

Lemma readAll_loop_end (fuel : nat) :
  forall (mfa : mafFileApi) (flag : bool) (blocks : list mafBlock)
         (mfa' : mafFileApi),
    readAll_loop fuel mfa flag = Some (Ok (blocks, mfa')) ->
    ((exists f', mfa_mfp mfa' = Some f' /\ f_unread f' = [])
     /\ mfa_lastLine mfa' = None)
    /\ (total_records blocks <= pending mfa)%nat
    /\ Forall (fun mb => mb_lines mb <> []) blocks.
Proof.
  induction fuel as [|fuel IH]; intros mfa flag blocks mfa' H; [discriminate H|].
  cbn [readAll_loop] in H.
  destruct (maf_readBlock mfa) as [[[tmp|] m]| |] eqn:E; try discriminate H.
  - destruct flag; [|discriminate H].
    destruct (readAll_loop fuel m true) as [[[rest m2]| |]|] eqn:Er;
      try discriminate H.
    inversion H; subst. apply IH in Er. destruct Er as (Hend & Hsize & Hne).
    pose proof (readBlock_size _ _ _ E) as Hs. cbn beta iota in Hs.
    split; [exact Hend|]. split.
    + unfold total_records in *. cbn [flat_map]. rewrite length_app. lia.
    + constructor; [exact (readBlock_some _ _ _ E)|exact Hne].
  - inversion H; subst. split; [exact (readBlock_none _ _ E)|].
    split; [unfold total_records; cbn; lia|constructor].
Qed.

Lemma count_blocks_u32 (b : list mafBlock) :
  forall a : Z, count_blocks b (u32 a) = u32 (a + Z.of_nat (List.length b)).
Proof.
  induction b as [|x b IH]; intros a; cbn [count_blocks List.length].
  - rewrite Z.add_0_r. reflexivity.
  - rewrite u32_add_idem, IH. f_equal. lia.
Qed.

Lemma blocks_le_records (blocks : list mafBlock) :
  Forall (fun mb => mb_lines mb <> []) blocks ->
  (List.length blocks <= total_records blocks)%nat.
Proof.
  unfold total_records. induction 1 as [|mb blocks Hmb _ IH]; [cbn; lia|].
  cbn [flat_map List.length]. rewrite length_app.
  destruct (mb_lines mb); [contradiction|]. cbn [List.length]. lia.
Qed.

(** X21: a [maf_readAll] that returns has read the stream to its end and
    left it open, with no cached line.  No block it returns is without
    records, and each record stands for a line that the session still had
    to read: the records of all blocks together are no more than the lines
    that were pending.  With fewer than 2^32 lines pending,
    [maf_mafBlock_getNumberOfBlocks] on the returned list is the number of
    its blocks. *)
Theorem read_all_to_the_end (mfa : mafFileApi) (blocks : list mafBlock)
    (mfa' : mafFileApi) :
  maf_readAll mfa = Ok (blocks, mfa') ->
  (exists f', mfa_mfp mfa' = Some f' /\ f_unread f' = [])
  /\ mfa_lastLine mfa' = None
  /\ Forall (fun mb => mb_lines mb <> []) blocks
  /\ (total_records blocks <= pending mfa)%nat
  /\ (Z.of_nat (pending mfa) < UINT32_MOD ->
      maf_mafBlock_getNumberOfBlocks blocks = Z.of_nat (List.length blocks)).
Proof.
  intros H. unfold maf_readAll in H.
  destruct (maf_readBlock mfa) as [[head m]| |] eqn:E; try discriminate H.
  cbn [bind] in H.
  destruct (readAll_loop _ m _) as [[[rest m2]| |]|] eqn:Er; try discriminate H.
  cbn [bind] in H. inversion H; subst.
  apply readAll_loop_end in Er. destruct Er as ((Hend & Hlast) & Hsize & Hne).
  pose proof (readBlock_size _ _ _ E) as Hs.
  assert (Hall : Forall (fun mb => mb_lines mb <> [])
                        match head with Some h => h :: rest | None => rest end).
  { destruct head as [h|]; [|exact Hne].
    constructor; [exact (readBlock_some _ _ _ E)|exact Hne]. }
  assert (Htot : (total_records match head with Some h => h :: rest | None => rest end
                  <= pending mfa)%nat).
  { destruct head as [h|]; [|lia].
    unfold total_records in *. cbn [flat_map]. rewrite length_app. lia. }
  split; [exact Hend|]. split; [exact Hlast|]. split; [exact Hall|].
  split; [exact Htot|]. intros Hsmall.
  pose proof (blocks_le_records _ Hall) as Hle.
  unfold maf_mafBlock_getNumberOfBlocks. change 0 with (u32 0) at 1.
  rewrite count_blocks_u32, u32_small; lia.
Qed.

Lemma read_all_to_the_end_witness :
  maf_mafBlock_getNumberOfBlocks
    (match sample_file_read with Ok (blocks, _) => blocks | _ => [] end)
  = 3.
Proof.
  destruct (read_all_to_the_end (maf_newMfa "in.maf" sample_file)
              (match sample_file_read with Ok (blocks, _) => blocks | _ => [] end)
              (match sample_file_read with
               | Ok (_, mfa') => mfa'
               | _ => maf_newMfa "" []
               end)) as (_ & _ & _ & _ & H).
  - vm_compute. reflexivity.
  - rewrite H; reflexivity.
Defined.

(** ** The fields of a sequence line *)

Lemma skip_delims_gap (d : string) :
  forallb is_delim (list_ascii_of_string d) = true ->
  forall (t rest : string),
    is_token t = true -> skip_delims (d ++ t ++ rest)%string = (t ++ rest)%string.
Proof.
  induction d as [|c d IH]; cbn [list_ascii_of_string forallb]; intros Hd t rest Ht.
  - cbn [String.append]. unfold is_token in Ht.
    destruct t as [|x t]; [discriminate Ht|].
    cbn [String.eqb negb andb list_ascii_of_string forallb] in Ht.
    apply andb_prop in Ht. destruct Ht as [Hx _].
    cbn [String.append skip_delims]. destruct (is_delim x); [discriminate Hx|].
    reflexivity.
  - apply andb_prop in Hd. destruct Hd as [Hc Hd].
    cbn [String.append skip_delims]. rewrite Hc. apply IH; assumption.
Qed.

Lemma take_token_token (t : string) :
  forallb (fun c => negb (is_delim c)) (list_ascii_of_string t) = true ->
  forall rest : string,
    ends_fields rest = true ->
    take_token (t ++ rest)%string
    = (t, match rest with EmptyString => EmptyString | String _ r => r end).
Proof.
  induction t as [|x t IH]; cbn [list_ascii_of_string forallb]; intros Ht rest Hr.
  - cbn [String.append]. destruct rest as [|c r]; [reflexivity|].
    cbn [ends_fields] in Hr. cbn [take_token]. rewrite Hr. reflexivity.
  - apply andb_prop in Ht. destruct Ht as [Hx Ht].
    cbn [String.append take_token]. destruct (is_delim x); [discriminate Hx|].
    rewrite (IH Ht rest Hr). reflexivity.
Qed.

Lemma strtok_token (d t rest : string) :
  forallb is_delim (list_ascii_of_string d) = true ->
  is_token t = true -> ends_fields rest = true ->
  strtok (d ++ t ++ rest)%string
  = Some (t, match rest with EmptyString => EmptyString | String _ r => r end).
Proof.
  intros Hd Ht Hr. unfold strtok. rewrite (skip_delims_gap d Hd t rest Ht).
  pose proof Ht as Ht'. unfold is_token in Ht'. apply andb_prop in Ht'.
  destruct Ht' as [Hne Hall].
  destruct t as [|x t]; [discriminate Hne|].
  rewrite <- (take_token_token (String x t) Hall rest Hr). reflexivity.
Qed.

Lemma gap_ends_fields (d rest : string) :
  is_gap d = true -> ends_fields (d ++ rest)%string = true.
Proof.
  unfold is_gap. destruct d as [|c d]; [discriminate|].
  cbn [String.eqb negb andb list_ascii_of_string forallb String.append ends_fields].
  intros H. apply andb_prop in H. tauto.
Qed.

Lemma strtok_after_gap (d t rest : string) :
  is_gap d = true -> is_token t = true -> ends_fields rest = true ->
  strtok match (d ++ t ++ rest)%string with
         | EmptyString => EmptyString
         | String _ r => r
         end
  = Some (t, match rest with EmptyString => EmptyString | String _ r => r end).
Proof.
  unfold is_gap. destruct d as [|c d]; [discriminate|].
  cbn [String.eqb negb andb list_ascii_of_string forallb String.append].
  intros H Ht Hr. apply andb_prop in H. destruct H as [_ Hd].
  apply strtok_token; assumption.
Qed.

(** X22: the fields of a sequence line.  On a line made of a first token
    that starts with [s] and six more tokens, each after a run of one or
    more spaces and tabs, followed by nothing or by a delimiter and
    anything, with a strand token that starts with [+] or [-], the parser
    returns the record with the second token as species, the seventh as
    sequence, the first byte of the fifth as strand, and the [strtoul]
    values of the third, fourth and sixth tokens as start, length and
    source length: runs of delimiters count as one, and what follows the
    seventh token is ignored. *)
Theorem parsed_fields (t0 d1 name d2 start d3 len d4 strand d5 srclen d6 seq
    tail : string) (n : Z) :
  first_char t0 = "s"%char ->
  Forall (fun t => is_token t = true) [t0; name; start; len; strand; srclen; seq] ->
  Forall (fun d => is_gap d = true) [d1; d2; d3; d4; d5; d6] ->
  strand_char_ok strand ->
  ends_fields tail = true ->
  maf_newMafLineFromString
    (t0 ++ d1 ++ name ++ d2 ++ start ++ d3 ++ len ++ d4 ++ strand ++ d5
     ++ srclen ++ d6 ++ seq ++ tail)%string n
  = Ok (mkMafLine
          (Some (t0 ++ d1 ++ name ++ d2 ++ start ++ d3 ++ len ++ d4 ++ strand
                 ++ d5 ++ srclen ++ d6 ++ seq ++ tail)%string)
          n "s" (Some name) (u32 (strtoul start)) (u32 (strtoul len))
          (first_char strand) (u32 (strtoul srclen)) (Some seq)).
Proof.
  intros Hs Ht Hd Hstrand Htail.
  repeat match goal with
         | H : Forall _ (_ :: _) |- _ =>
             let H1 := fresh "Hf" in
             let H2 := fresh "Hr" in
             inversion H as [|? ? H1 H2]; subst; clear H; rename H2 into H
         end.
  clear Ht Hd.
  set (line := (t0 ++ d1 ++ name ++ d2 ++ start ++ d3 ++ len ++ d4 ++ strand ++ d5
                ++ srclen ++ d6 ++ seq ++ tail)%string).
  assert (Hfirst : first_char line = "s"%char).
  { subst line. destruct t0 as [|c t0]; [discriminate|]. exact Hs. }
  unfold maf_newMafLineFromString. cbn [ml_type]. rewrite Hfirst.
  rewrite Ascii.eqb_refl. cbn [negb]. unfold next_field. subst line.
  match goal with
  | |- context [strtok (t0 ++ ?r)%string] =>
      pose proof (strtok_token "" t0 r eq_refl ltac:(assumption)
                    ltac:(auto using gap_ends_fields)) as H0
  end.
  change ("" ++ t0 ++ ?r)%string with (t0 ++ r)%string in H0. rewrite H0.
  cbn [bind].
  rewrite (strtok_after_gap d1 name) by (auto using gap_ends_fields).
  cbn [bind].
  rewrite (strtok_after_gap d2 start) by (auto using gap_ends_fields).
  cbn [bind].
  rewrite (strtok_after_gap d3 len) by (auto using gap_ends_fields).
  cbn [bind].
  rewrite (strtok_after_gap d4 strand) by (auto using gap_ends_fields).
  cbn [bind].
  assert (Hok : negb (Ascii.eqb (first_char strand) "-")
                && negb (Ascii.eqb (first_char strand) "+") = false).
  { destruct Hstrand as [E|E]; rewrite E; reflexivity. }
  rewrite Hok.
  rewrite (strtok_after_gap d5 srclen) by (auto using gap_ends_fields).
  cbn [bind].
  rewrite (strtok_after_gap d6 seq) by (auto using gap_ends_fields).
  cbn [bind]. reflexivity.
Qed.

Lemma parsed_fields_witness :
  maf_newMafLineFromString "s hg18.chr7    27578828 38 +	158545518 AAA-GGG extra" 7
  = Ok (mkMafLine
          (Some "s hg18.chr7    27578828 38 +	158545518 AAA-GGG extra")
          7 "s" (Some "hg18.chr7") 27578828 38 "+" 158545518 (Some "AAA-GGG")).
Proof.
  apply (parsed_fields "s" " " "hg18.chr7" "    " "27578828" " " "38" " " "+"
           (String TAB "") "158545518" " " "AAA-GGG" " extra" 7).
  - reflexivity.
  - repeat constructor.
  - repeat constructor.
  - left. reflexivity.
  - reflexivity.
Defined.











